(** * The layered coin-view cache of namecoin-core (src/coins.cpp)

    A shallow embedding of [CCoinsView], [CCoinsViewBacked] and
    [CCoinsViewCache]: the coin map with its DIRTY/FRESH flags, the
    memory-usage counter, the best-block marker and the name cache, with
    the merge performed by [BatchWrite] and [Flush].

    Conventions.
    - A view is a type [V] with an instance of the class [CCoinsView]; the
      [const] member functions of the interface are functions of the view,
      [BatchWrite] yields the next view.
    - [bool f(..., T& out)] is modelled by [option T]: [Some x] when the
      call returns [true] and has written [x].
    - [std::unordered_map] is [gmap]; [size_t] is [Z] reduced modulo 2^64.
    - A call ends in one of three ways, see [Outcome]: it returns, it
      throws [std::logic_error], or an [assert] stops the process.
    - A loop whose counter can wrap is followed for a given number of
      turns: [None] means that it is still turning after them. *)

From stdpp Require Import gmap strings list.

#[local] Set Warnings "-clear-no-such-hyp".

Local Open Scope Z_scope.

(** ** Primitive data *)

(** Modelled from the spec: [uint256] of uint256.h, a 256-bit hash; the
    null hash is zero. *)
Definition uint256 : Type := N.

Definition IsNull (h : uint256) : bool := (h =? 0)%N.

(** Modelled from the spec: [valtype], which is
    [std::vector<unsigned char>]: names and values are raw byte strings. *)
Definition valtype : Type := string.

(** Modelled from the spec: [COutPoint] of primitives/transaction.h, the
    pair of a transaction hash and a 32-bit output index. *)
Record COutPoint : Type := mkOutPoint { hash : uint256; n : N }.

#[global] Instance COutPoint_eq_dec : EqDecision COutPoint.
Proof. solve_decision. Defined.

#[global] Instance COutPoint_countable : Countable COutPoint.
Proof.
  refine (inj_countable' (fun o => (hash o, n o))
                         (fun p => mkOutPoint p.1 p.2) _).
  by intros [].
Defined.

(** Modelled from the spec: [CTxOut] and [Coin] of coins.h and
    primitives/transaction.h, which are not among the sources.  A coin is a
    transaction output (value in base units, locking script), the height
    at which it was created and a coinbase flag. *)
Record CTxOut : Type := mkTxOut { nValue : Z; scriptPubKey : list Byte.byte }.

Record Coin : Type := mkCoin { out : CTxOut; fCoinBase : bool; nHeight : N }.

(** Modelled from the spec: the cleared output, the sentinel of a spent
    coin (value -1, empty script). *)
Definition CTxOut_null : CTxOut := mkTxOut (-1) [].

(** Modelled from the spec: the default-constructed coin, which is also
    what [Coin::Clear] leaves behind and what [coinEmpty] is. *)
Definition coinEmpty : Coin := mkCoin CTxOut_null false 0%N.

(** Modelled from the spec: [Coin::IsSpent], the spent predicate, which
    tests the sentinel value of the output. *)
Definition IsSpent (c : Coin) : bool := nValue (out c) =? -1.

(** Modelled from the spec: the opcode that makes a script unspendable
    and the size limit of a script, from script/script.h. *)
Definition OP_RETURN : Byte.byte := Byte.x6a.
Definition MAX_SCRIPT_SIZE : Z := 10000.

(** Modelled from the spec: [CScript::IsUnspendable], a script that is
    provably unredeemable: it starts with [OP_RETURN] or is longer than
    [MAX_SCRIPT_SIZE]. *)
Definition IsUnspendable (s : list Byte.byte) : bool :=
  match s with
  | b :: _ => Byte.eqb b OP_RETURN || (MAX_SCRIPT_SIZE <? Z.of_nat (length s))
  | [] => false
  end.

(** [size_t] arithmetic wraps modulo 2^64. *)
Definition size_t_wrap (z : Z) : Z := z mod 2 ^ 64.

(** Modelled from the spec: [Coin::DynamicMemoryUsage], the heap memory the
    coin owns, which is that of its script bytes. *)
Definition DynamicMemoryUsage (c : Coin) : Z := Z.of_nat (length (scriptPubKey (out c))).

(** ** Cache entries and their flags *)

(** Modelled from the spec: the two flags of [CCoinsCacheEntry] in
    coins.h, two distinct bits of an [unsigned char]. *)
Definition DIRTY : Z := Z.shiftl 1 0.
Definition FRESH : Z := Z.shiftl 1 1.

(** [flags & mask], read as a condition. *)
Definition has_flag (flags mask : Z) : bool := negb (Z.land flags mask =? 0).

(** Modelled from the spec: [CCoinsCacheEntry] of coins.h, a coin and its
    flags. *)
Record CCoinsCacheEntry : Type := mkEntry { coin : Coin; flags : Z }.

(** Modelled from the spec: the default-constructed entry that [emplace]
    with an empty tuple and [operator[]] create: an empty coin, no flag. *)
Definition CCoinsCacheEntry_default : CCoinsCacheEntry := mkEntry coinEmpty 0.

Abbreviation CCoinsMap := (gmap COutPoint CCoinsCacheEntry).

(** ** How a call ends *)

Inductive logic_error : Type := LogicError (what : string).

Definition OverwriteUnspent : logic_error :=
  LogicError "Attempted to overwrite an unspent coin (when possible_overwrite is false)".

Definition FreshAppliedToExisting : logic_error :=
  LogicError "FRESH flag misapplied to coin that exists in parent cache".

(** [Returned a s]: the call returned [a] and left the state [s];
    [Thrown e s]: it threw [e], the state at the throw being [s];
    [Aborted]: an [assert] failed. *)
Inductive Outcome (A S : Type) : Type :=
| Returned (a : A) (s : S)
| Thrown (e : logic_error) (s : S)
| Aborted.

Arguments Returned {A S} a s.
Arguments Thrown {A S} e s.
Arguments Aborted {A S}.

(** The state a call leaves behind, when the process survives it. *)
Definition state_after {A S : Type} (r : Outcome A S) : option S :=
  match r with
  | Returned _ s => Some s
  | Thrown _ s => Some s
  | Aborted => None
  end.

(** ** Name data and the name cache *)

(** Modelled from the spec: [CNameData] of names/common.h, the current
    record of a name: value bytes, height and the owning output. *)
Record CNameData : Type := mkNameData
  { nd_value : valtype; nd_height : N; nd_prevout : COutPoint }.

(** Modelled from the spec: [CNameData::getHeight]. *)
Definition getHeight (d : CNameData) : N := nd_height d.

#[global] Instance CNameData_eq_dec : EqDecision CNameData.
Proof. solve_decision. Defined.

(** Modelled from the spec: [CNameHistory], an ordered stack of prior
    records, the top of the stack being the head of the list. *)
Definition CNameHistory : Type := list CNameData.

Module NameHistory.

(** Modelled from the spec: [CNameHistory::empty]. *)
Definition empty (h : CNameHistory) : bool :=
  match h with [] => true | _ => false end.

(** Modelled from the spec: [CNameHistory::push]. *)
Definition push (old : CNameData) (h : CNameHistory) : CNameHistory := old :: h.

(** Modelled from the spec: [CNameHistory::pop], which asserts that the
    popped item equals its argument: [None] is the failed assertion. *)
Definition pop (expected : CNameData) (h : CNameHistory) : option CNameHistory :=
  match h with
  | top :: rest => if decide (top = expected) then Some rest else None
  | [] => None
  end.

End NameHistory.

(** Modelled from the spec: an entry of the name cache, a value that was
    set or a tombstone. *)
Inductive NameEntry : Type :=
| NameSet (d : CNameData)
| NameDeleted.

(** Modelled from the spec: a change to the expire index.  The cache holds
    a delta over the backend: a pair (height, name) was added to the index
    or removed from it. *)
Inductive ExpireChange : Type := ExpireAdd | ExpireRemove.

(** Modelled from the spec: [CNameCache] of names/common.h, three overlaid
    maps: the entries, the histories and the changes to the expire
    index. *)
Record CNameCache : Type := mkNameCache
  { nc_entries : gmap valtype NameEntry;
    nc_histories : gmap valtype CNameHistory;
    nc_expire : gmap (N * valtype) ExpireChange }.

Module NameCache.

(** Modelled from the spec: [CNameCache::clear], the empty name cache. *)
Definition clear : CNameCache := mkNameCache ∅ ∅ ∅.

(** Modelled from the spec: [CNameCache::empty], true when nothing is
    recorded. *)
Definition empty (c : CNameCache) : bool :=
  bool_decide (nc_entries c = ∅) && bool_decide (nc_histories c = ∅)
  && bool_decide (nc_expire c = ∅).

(** Modelled from the spec: [CNameCache::isDeleted], true only for
    tombstones. *)
Definition isDeleted (c : CNameCache) (name : valtype) : bool :=
  match nc_entries c !! name with
  | Some NameDeleted => true
  | _ => false
  end.

(** Modelled from the spec: [CNameCache::get], the value if one is set. *)
Definition get (c : CNameCache) (name : valtype) : option CNameData :=
  match nc_entries c !! name with
  | Some (NameSet d) => Some d
  | _ => None
  end.

(** Modelled from the spec: [CNameCache::set], [entries[name] := data]. *)
Definition set (name : valtype) (d : CNameData) (c : CNameCache) : CNameCache :=
  mkNameCache (<[name := NameSet d]> (nc_entries c)) (nc_histories c) (nc_expire c).

(** Modelled from the spec: [CNameCache::remove], which tombstones the
    entry. *)
Definition remove (name : valtype) (c : CNameCache) : CNameCache :=
  mkNameCache (<[name := NameDeleted]> (nc_entries c)) (nc_histories c) (nc_expire c).

(** Modelled from the spec: [CNameCache::getHistory]. *)
Definition getHistory (c : CNameCache) (name : valtype) : option CNameHistory :=
  nc_histories c !! name.

(** Modelled from the spec: [CNameCache::setHistory]. *)
Definition setHistory (name : valtype) (h : CNameHistory) (c : CNameCache) : CNameCache :=
  mkNameCache (nc_entries c) (<[name := h]> (nc_histories c)) (nc_expire c).

(** Modelled from the spec: [CNameCache::addExpireIndex]. *)
Definition addExpireIndex (name : valtype) (height : N) (c : CNameCache) : CNameCache :=
  mkNameCache (nc_entries c) (nc_histories c)
              (<[(height, name) := ExpireAdd]> (nc_expire c)).

(** Modelled from the spec: [CNameCache::removeExpireIndex]. *)
Definition removeExpireIndex (name : valtype) (height : N) (c : CNameCache) : CNameCache :=
  mkNameCache (nc_entries c) (nc_histories c)
              (<[(height, name) := ExpireRemove]> (nc_expire c)).

(** Modelled from the spec: [CNameCache::updateNamesForHeight], which
    overlays the changes recorded for [height] on the names the backend
    reported: added names are inserted, removed names are erased. *)
Definition updateNamesForHeight (c : CNameCache) (height : N)
    (names : gset valtype) : gset valtype :=
  map_fold (fun (k : N * valtype) (ch : ExpireChange) (acc : gset valtype) =>
              if decide (k.1 = height)
              then match ch with
                   | ExpireAdd => {[ k.2 ]} ∪ acc
                   | ExpireRemove => acc ∖ {[ k.2 ]}
                   end
              else acc)
           names (nc_expire c).

(** Modelled from the spec: [CNameCache::apply], which folds the changes of
    [child] into [self]; what the child recorded (tombstones included)
    overrides. *)
Definition apply (child self : CNameCache) : CNameCache :=
  mkNameCache (nc_entries child ∪ nc_entries self)
              (nc_histories child ∪ nc_histories self)
              (nc_expire child ∪ nc_expire self).

End NameCache.

(** ** The abstract view *)

(** [CCoinsView]: the interface of a coin view, with the member functions
    that coins.cpp defines for it.  [BatchWrite] receives the
    child's map by reference and may drain it: next to the next state of
    the view it yields what is left of that map. *)
Class CCoinsView (V : Type) : Type := {
  GetCoin : V -> COutPoint -> option Coin;
  GetBestBlock : V -> uint256;
  GetName : V -> valtype -> option CNameData;
  GetNameHistory : V -> valtype -> option CNameHistory;
  GetNamesForHeight : V -> N -> option (gset valtype);
  BatchWrite : V -> CCoinsMap -> uint256 -> CNameCache -> Outcome bool (V * CCoinsMap)
}.

(** [CCoinsView::HaveCoin]: the default composes [GetCoin]. *)
Definition HaveCoin_default {V : Type} `{CCoinsView V} (v : V) (outpoint : COutPoint) : bool :=
  match GetCoin v outpoint with Some _ => true | None => false end.

(** The base class itself: every read fails, the best block is null and
    [BatchWrite] reports failure without touching the map. *)
Inductive CCoinsViewBase : Type := coins_view_base.

#[global] Instance CCoinsViewBase_view : CCoinsView CCoinsViewBase := {
  GetCoin _ _ := None;
  GetBestBlock _ := 0%N;
  GetName _ _ := None;
  GetNameHistory _ _ := None;
  GetNamesForHeight _ _ := None;
  BatchWrite v mapCoins _ _ := Returned false (v, mapCoins)
}.

(** [CCoinsViewBacked]: holds a parent view and forwards every call. *)
Record CCoinsViewBacked (V : Type) : Type := mkBacked { backed_base : V }.

Arguments mkBacked {V} _.
Arguments backed_base {V} _.

#[global] Instance CCoinsViewBacked_view {V : Type} `{CCoinsView V} :
  CCoinsView (CCoinsViewBacked V) := {
  GetCoin b outpoint := GetCoin (backed_base b) outpoint;
  GetBestBlock b := GetBestBlock (backed_base b);
  GetName b name := GetName (backed_base b) name;
  GetNameHistory b name := GetNameHistory (backed_base b) name;
  GetNamesForHeight b h := GetNamesForHeight (backed_base b) h;
  BatchWrite b mapCoins hashBlockIn names :=
    match BatchWrite (backed_base b) mapCoins hashBlockIn names with
    | Returned ok (v, rest) => Returned ok (mkBacked v, rest)
    | Thrown e (v, rest) => Thrown e (mkBacked v, rest)
    | Aborted => Aborted
    end
}.

Definition SetBackend {V : Type} (viewIn : V) (b : CCoinsViewBacked V) : CCoinsViewBacked V :=
  mkBacked viewIn.

(** ** The cache *)

(** The state of a [CCoinsViewCache] over a parent of type [V]. *)
Record CCoinsViewCache (V : Type) : Type := mkCache {
  base : V;
  hashBlock : uint256;
  cacheCoins : CCoinsMap;
  cachedCoinsUsage : Z;
  cacheNames : CNameCache
}.

Arguments mkCache {V} _ _ _ _ _.
Arguments base {V} _.
Arguments hashBlock {V} _.
Arguments cacheCoins {V} _.
Arguments cachedCoinsUsage {V} _.
Arguments cacheNames {V} _.

Module Cache.

Section Methods.

Context {V : Type} `{CCoinsView V}.

Abbreviation cache := (CCoinsViewCache V).

(** The constructor: an empty cache over [baseIn]. *)
Definition create (baseIn : V) : cache := mkCache baseIn 0%N ∅ 0 NameCache.clear.

Definition set_coins (m : CCoinsMap) (usage : Z) (c : cache) : cache :=
  mkCache (base c) (hashBlock c) m usage (cacheNames c).

Definition set_names (names : CNameCache) (c : cache) : cache :=
  mkCache (base c) (hashBlock c) (cacheCoins c) (cachedCoinsUsage c) names.

(** [FetchCoin]: the entry for [outpoint], read through to the parent when
    the cache has none.  [None] is the end iterator. *)
Definition FetchCoin (outpoint : COutPoint) (c : cache) : option CCoinsCacheEntry * cache :=
  match cacheCoins c !! outpoint with
  | Some e => (Some e, c)
  | None =>
    match GetCoin (base c) outpoint with
    | None => (None, c)
    | Some tmp =>
      let ret := mkEntry tmp (if IsSpent tmp then FRESH else 0) in
      (Some ret,
       set_coins (<[outpoint := ret]> (cacheCoins c))
                 (size_t_wrap (cachedCoinsUsage c + DynamicMemoryUsage tmp)) c)
    end
  end.

Definition GetCoin (outpoint : COutPoint) (c : cache) : option Coin * cache :=
  match FetchCoin outpoint c with
  | (Some e, c') => (if IsSpent (coin e) then None else Some (coin e), c')
  | (None, c') => (None, c')
  end.

Definition AddCoin (outpoint : COutPoint) (coin0 : Coin) (possible_overwrite : bool)
    (c : cache) : Outcome unit cache :=
  if IsSpent coin0 then Aborted
  else if IsUnspendable (scriptPubKey (out coin0)) then Returned tt c
  else
    let '(it, inserted) :=
      match cacheCoins c !! outpoint with
      | Some e => (e, false)
      | None => (CCoinsCacheEntry_default, true)
      end in
    let coins1 := if inserted then <[outpoint := it]> (cacheCoins c) else cacheCoins c in
    let usage1 :=
      if inserted then cachedCoinsUsage c
      else size_t_wrap (cachedCoinsUsage c - DynamicMemoryUsage (coin it)) in
    if negb possible_overwrite && negb (IsSpent (coin it))
    then Thrown OverwriteUnspent (set_coins coins1 usage1 c)
    else
      let fresh := negb possible_overwrite && negb (has_flag (flags it) DIRTY) in
      let it' := mkEntry coin0 (Z.lor (flags it) (Z.lor DIRTY (if fresh then FRESH else 0))) in
      Returned tt (set_coins (<[outpoint := it']> coins1)
                             (size_t_wrap (usage1 + DynamicMemoryUsage coin0)) c).

Definition EmplaceCoinInternalDANGER (outpoint : COutPoint) (coin0 : Coin) (c : cache) : cache :=
  let usage1 := size_t_wrap (cachedCoinsUsage c + DynamicMemoryUsage coin0) in
  match cacheCoins c !! outpoint with
  | Some _ => set_coins (cacheCoins c) usage1 c
  | None => set_coins (<[outpoint := mkEntry coin0 DIRTY]> (cacheCoins c)) usage1 c
  end.

(** [SpendCoin]: [moveout] tells whether the caller passed a place to move
    the coin to; the coin moved there is returned next to the result. *)
Definition SpendCoin (outpoint : COutPoint) (moveout : bool) (c : cache)
    : (bool * option Coin) * cache :=
  match FetchCoin outpoint c with
  | (None, c1) => ((false, None), c1)
  | (Some it, c1) =>
    let usage1 := size_t_wrap (cachedCoinsUsage c1 - DynamicMemoryUsage (coin it)) in
    let moved := if moveout then Some (coin it) else None in
    if has_flag (flags it) FRESH
    then ((true, moved), set_coins (delete outpoint (cacheCoins c1)) usage1 c1)
    else ((true, moved),
          set_coins (<[outpoint := mkEntry coinEmpty (Z.lor (flags it) DIRTY)]> (cacheCoins c1))
                    usage1 c1)
  end.

Definition AccessCoin (outpoint : COutPoint) (c : cache) : Coin * cache :=
  match FetchCoin outpoint c with
  | (None, c') => (coinEmpty, c')
  | (Some it, c') => (coin it, c')
  end.

Definition HaveCoin (outpoint : COutPoint) (c : cache) : bool * cache :=
  match FetchCoin outpoint c with
  | (None, c') => (false, c')
  | (Some it, c') => (negb (IsSpent (coin it)), c')
  end.

Definition HaveCoinInCache (outpoint : COutPoint) (c : cache) : bool :=
  match cacheCoins c !! outpoint with
  | Some it => negb (IsSpent (coin it))
  | None => false
  end.

Definition GetBestBlock (c : cache) : uint256 * cache :=
  let c' :=
    if IsNull (hashBlock c)
    then mkCache (base c) (GetBestBlock (base c)) (cacheCoins c) (cachedCoinsUsage c) (cacheNames c)
    else c in
  (hashBlock c', c').

Definition SetBestBlock (hashBlockIn : uint256) (c : cache) : cache :=
  mkCache (base c) hashBlockIn (cacheCoins c) (cachedCoinsUsage c) (cacheNames c).

Definition Uncache (outpoint : COutPoint) (c : cache) : cache :=
  match cacheCoins c !! outpoint with
  | Some it =>
    if flags it =? 0
    then set_coins (delete outpoint (cacheCoins c))
                   (size_t_wrap (cachedCoinsUsage c - DynamicMemoryUsage (coin it))) c
    else c
  | None => c
  end.

Definition GetCacheSize (c : cache) : nat := size (cacheCoins c).

(** *** Names *)

Definition GetName (name : valtype) (c : cache) : option CNameData :=
  if NameCache.isDeleted (cacheNames c) name then None
  else match NameCache.get (cacheNames c) name with
       | Some d => Some d
       | None => GetName (base c) name
       end.

Definition GetNameHistory (name : valtype) (c : cache) : option CNameHistory :=
  match NameCache.getHistory (cacheNames c) name with
  | Some h => Some h
  | None => GetNameHistory (base c) name
  end.

Definition GetNamesForHeight (height : N) (c : cache) : option (gset valtype) :=
  match GetNamesForHeight (base c) height with
  | None => None
  | Some names => Some (NameCache.updateNamesForHeight (cacheNames c) height names)
  end.

Section NameUpdates.

(** The global switch for name-history tracking. *)
Variable fNameHistory : bool.

(** [SetName]: [None] is a failed [assert].  A failing [GetNameHistory]
    leaves the local [history] empty, as the assert in the source checks. *)
Definition SetName (name : valtype) (data : CNameData) (undo : bool) (c : cache)
    : option cache :=
  match GetName name c with
  | Some oldData =>
    let c1 := set_names (NameCache.removeExpireIndex name (getHeight oldData) (cacheNames c)) c in
    c2 ← (if fNameHistory
          then
            let history := default [] (GetNameHistory name c1) in
            history' ← (if undo then NameHistory.pop data history
                        else Some (NameHistory.push oldData history));
            Some (set_names (NameCache.setHistory name history' (cacheNames c1)) c1)
          else Some c1);
    Some (set_names (NameCache.addExpireIndex name (getHeight data)
                       (NameCache.set name data (cacheNames c2))) c2)
  | None =>
    if undo then None
    else Some (set_names (NameCache.addExpireIndex name (getHeight data)
                            (NameCache.set name data (cacheNames c))) c)
  end.

Definition DeleteName (name : valtype) (c : cache) : option cache :=
  match GetName name c with
  | Some oldData =>
    let c1 := set_names (NameCache.removeExpireIndex name (getHeight oldData) (cacheNames c)) c in
    let clean :=
      match GetNameHistory name c1 with
      | Some h => NameHistory.empty h
      | None => true
      end in
    if fNameHistory && negb clean then None
    else Some (set_names (NameCache.remove name (cacheNames c1)) c1)
  | None => None
  end.

End NameUpdates.

(** *** Flushing and merging *)

(** [Flush] hands the coin map, the best block and the name cache to the
    parent's [BatchWrite]; when that throws, the map is what the parent
    left of it. *)
Definition Flush (c : cache) : Outcome bool cache :=
  if IsNull (hashBlock c) && bool_decide (cacheCoins c = ∅) && NameCache.empty (cacheNames c)
  then Returned true c
  else
    match BatchWrite (base c) (cacheCoins c) (hashBlock c) (cacheNames c) with
    | Returned fOk (b, _) => Returned fOk (mkCache b (hashBlock c) ∅ 0 NameCache.clear)
    | Thrown e (b, rest) =>
      Thrown e (mkCache b (hashBlock c) rest (cachedCoinsUsage c) (cacheNames c))
    | Aborted => Aborted
    end.

(** The body of the loop of [BatchWrite] for the child entry [it] at [k],
    on the coin map and the usage counter of the receiving cache.  [None]:
    the logic error is thrown. *)
Definition BatchWrite_entry (k : COutPoint) (it : CCoinsCacheEntry)
    (coins : CCoinsMap) (usage : Z) : option (CCoinsMap * Z) :=
  if negb (has_flag (flags it) DIRTY) then Some (coins, usage)
  else
    match coins !! k with
    | None =>
      if has_flag (flags it) FRESH && IsSpent (coin it) then Some (coins, usage)
      else
        let entry_flags := if has_flag (flags it) FRESH then Z.lor DIRTY FRESH else DIRTY in
        Some (<[k := mkEntry (coin it) entry_flags]> coins,
              size_t_wrap (usage + DynamicMemoryUsage (coin it)))
    | Some itUs =>
      if has_flag (flags it) FRESH && negb (IsSpent (coin itUs)) then None
      else if has_flag (flags itUs) FRESH && IsSpent (coin it)
      then Some (delete k coins, size_t_wrap (usage - DynamicMemoryUsage (coin itUs)))
      else Some (<[k := mkEntry (coin it) (Z.lor (flags itUs) DIRTY)]> coins,
                 size_t_wrap (size_t_wrap (usage - DynamicMemoryUsage (coin itUs))
                              + DynamicMemoryUsage (coin it)))
    end.

(** The loop of [BatchWrite] over the child's entries in iteration order.
    An entry is erased from the child's map once its turn is over; at a
    throw the entries from the current one on are still there. *)
Fixpoint BatchWrite_loop (mapCoins : list (COutPoint * CCoinsCacheEntry))
    (coins : CCoinsMap) (usage : Z)
    : CCoinsMap * Z * list (COutPoint * CCoinsCacheEntry) :=
  match mapCoins with
  | [] => (coins, usage, [])
  | (k, it) :: rest =>
    match BatchWrite_entry k it coins usage with
    | None => (coins, usage, mapCoins)
    | Some (coins', usage') => BatchWrite_loop rest coins' usage'
    end
  end.

Definition BatchWrite (mapCoins : CCoinsMap) (hashBlockIn : uint256) (names : CNameCache)
    (c : cache) : Outcome bool (cache * CCoinsMap) :=
  match BatchWrite_loop (map_to_list mapCoins) (cacheCoins c) (cachedCoinsUsage c) with
  | (coins, usage, []) =>
    Returned true
      (mkCache (base c) hashBlockIn coins usage (NameCache.apply names (cacheNames c)), ∅)
  | (coins, usage, rest) =>
    Thrown FreshAppliedToExisting (set_coins coins usage c, list_to_map rest)
  end.

End Methods.

End Cache.

(** A cache is itself a view, so that caches stack.  The reads of the
    interface are the values that the [const] member functions report.  A
    cache that is read also fills its [mutable] members (the coin map in
    [FetchCoin], the marker in [GetBestBlock]); that fill changes nothing
    that the cache reports afterwards, and it is not part of this
    interface.  It is followed in [Stacked] below, for a cache over a
    cache. *)
#[global] Instance CCoinsViewCache_view {V : Type} `{CCoinsView V} :
  CCoinsView (CCoinsViewCache V) := {
  GetCoin c outpoint := (Cache.GetCoin outpoint c).1;
  GetBestBlock c := (Cache.GetBestBlock c).1;
  GetName c name := Cache.GetName name c;
  GetNameHistory c name := Cache.GetNameHistory name c;
  GetNamesForHeight c h := Cache.GetNamesForHeight h c;
  BatchWrite c mapCoins hashBlockIn names := Cache.BatchWrite mapCoins hashBlockIn names c
}.

(** ** A cache over a cache, with the fill of the lower cache *)

Module Stacked.

Section Methods.

Context {V : Type} `{CCoinsView V}.

Abbreviation stack := (CCoinsViewCache (CCoinsViewCache V)).

Definition set_base (b : CCoinsViewCache V) (c : stack) : stack :=
  mkCache b (hashBlock c) (cacheCoins c) (cachedCoinsUsage c) (cacheNames c).

(** [FetchCoin] of the upper cache.  [base->GetCoin] is
    [CCoinsViewCache::GetCoin] of the lower cache, whose [FetchCoin] fills
    the map of the lower cache: the lower cache is left in the state that
    read gives. *)
Definition FetchCoin (outpoint : COutPoint) (c : stack) : option CCoinsCacheEntry * stack :=
  match cacheCoins c !! outpoint with
  | Some e => (Some e, c)
  | None =>
    match Cache.GetCoin outpoint (base c) with
    | (None, b) => (None, set_base b c)
    | (Some tmp, b) =>
      let ret := mkEntry tmp (if IsSpent tmp then FRESH else 0) in
      (Some ret,
       set_base b
         (Cache.set_coins (<[outpoint := ret]> (cacheCoins c))
            (size_t_wrap (cachedCoinsUsage c + DynamicMemoryUsage tmp)) c))
    end
  end.

Definition GetCoin (outpoint : COutPoint) (c : stack) : option Coin * stack :=
  match FetchCoin outpoint c with
  | (Some e, c') => (if IsSpent (coin e) then None else Some (coin e), c')
  | (None, c') => (None, c')
  end.

(** [GetBestBlock] of the upper cache: [base->GetBestBlock] fills the
    marker of the lower cache. *)
Definition GetBestBlock (c : stack) : uint256 * stack :=
  if IsNull (hashBlock c)
  then
    match Cache.GetBestBlock (base c) with
    | (h, b) => (h, mkCache b h (cacheCoins c) (cachedCoinsUsage c) (cacheNames c))
    end
  else (hashBlock c, c).

End Methods.

End Stacked.

(** ** Observations and predicates *)

(** The flags a slot carries: none when the map has no entry there. *)
Definition flags_at (m : CCoinsMap) (outpoint : COutPoint) : Z :=
  match m !! outpoint with Some e => flags e | None => 0 end.

(** The parent reports a live coin at [outpoint]. *)
Definition parent_live {V : Type} `{CCoinsView V} (v : V) (outpoint : COutPoint) : bool :=
  match GetCoin v outpoint with
  | Some x => negb (IsSpent x)
  | None => false
  end.

(** The test at the head of [Flush]: nothing is cached and no best block
    is set. *)
Definition nothing_to_flush {V : Type} (c : CCoinsViewCache V) : bool :=
  IsNull (hashBlock c) && bool_decide (cacheCoins c = ∅) && NameCache.empty (cacheNames c).

(** ** The public calls of a cache *)

Inductive Call : Type :=
| CallGetCoin (outpoint : COutPoint)
| CallHaveCoin (outpoint : COutPoint)
| CallHaveCoinInCache (outpoint : COutPoint)
| CallAccessCoin (outpoint : COutPoint)
| CallAddCoin (outpoint : COutPoint) (coin0 : Coin) (possible_overwrite : bool)
| CallEmplaceCoinInternalDANGER (outpoint : COutPoint) (coin0 : Coin)
| CallSpendCoin (outpoint : COutPoint) (moveout : bool)
| CallUncache (outpoint : COutPoint)
| CallGetBestBlock
| CallSetBestBlock (hashBlockIn : uint256)
| CallGetName (name : valtype)
| CallGetNameHistory (name : valtype)
| CallGetNamesForHeight (height : N)
| CallSetName (name : valtype) (data : CNameData) (undo : bool)
| CallDeleteName (name : valtype)
| CallBatchWrite (mapCoins : CCoinsMap) (hashBlockIn : uint256) (names : CNameCache)
| CallFlush
| CallGetCacheSize.

Section Calls.

Context {V : Type} `{CCoinsView V}.

Variable fNameHistory : bool.

(** The state of the cache at the boundary that follows a call, whether
    the call returned or threw; [None] when an [assert] ended the
    process. *)
Definition after_call (call : Call) (c : CCoinsViewCache V) : option (CCoinsViewCache V) :=
  match call with
  | CallGetCoin outpoint => Some (Cache.GetCoin outpoint c).2
  | CallHaveCoin outpoint => Some (Cache.HaveCoin outpoint c).2
  | CallHaveCoinInCache _ => Some c
  | CallAccessCoin outpoint => Some (Cache.AccessCoin outpoint c).2
  | CallAddCoin outpoint coin0 possible_overwrite =>
    state_after (Cache.AddCoin outpoint coin0 possible_overwrite c)
  | CallEmplaceCoinInternalDANGER outpoint coin0 =>
    Some (Cache.EmplaceCoinInternalDANGER outpoint coin0 c)
  | CallSpendCoin outpoint moveout => Some (Cache.SpendCoin outpoint moveout c).2
  | CallUncache outpoint => Some (Cache.Uncache outpoint c)
  | CallGetBestBlock => Some (Cache.GetBestBlock c).2
  | CallSetBestBlock hashBlockIn => Some (Cache.SetBestBlock hashBlockIn c)
  | CallGetName _ | CallGetNameHistory _ | CallGetNamesForHeight _ | CallGetCacheSize =>
    Some c
  | CallSetName name data undo => Cache.SetName fNameHistory name data undo c
  | CallDeleteName name => Cache.DeleteName fNameHistory name c
  | CallBatchWrite mapCoins hashBlockIn names =>
    fst <$> state_after (Cache.BatchWrite mapCoins hashBlockIn names c)
  | CallFlush => state_after (Cache.Flush c)
  end.

Fixpoint after_calls (calls : list Call) (c : CCoinsViewCache V) : option (CCoinsViewCache V) :=
  match calls with
  | [] => Some c
  | call :: calls' => after_call call c ≫= after_calls calls'
  end.

End Calls.


(** The sum of [DynamicMemoryUsage] over the coins of the map. *)
Definition coins_usage (m : CCoinsMap) : Z :=
  map_fold (fun (_ : COutPoint) (e : CCoinsCacheEntry) (acc : Z) =>
              acc + DynamicMemoryUsage (coin e)) 0 m.

(** The counter equals the sum, as a [size_t]. *)
Definition usage_accounted {V : Type} (c : CCoinsViewCache V) : Prop :=
  cachedCoinsUsage c = size_t_wrap (coins_usage (cacheCoins c)).

(** The history stack of a name as a view reports it: empty when no
    history is known. *)
Definition history_of {V : Type} `{CCoinsView V} (name : valtype)
    (c : CCoinsViewCache V) : CNameHistory :=
  default [] (Cache.GetNameHistory name c).

(** The name cache after [SetName(name, data, undo)] over the record
    [cur], when the history of the name (before the call) is [hist]. *)
Definition names_after_SetName (fNameHistory undo : bool) (name : valtype)
    (data cur : CNameData) (hist : CNameHistory) (nc : CNameCache) : CNameCache :=
  mkNameCache
    (<[name := NameSet data]> (nc_entries nc))
    (if fNameHistory
     then <[name := if undo then tail hist else cur :: hist]> (nc_histories nc)
     else nc_histories nc)
    (<[(getHeight data, name) := ExpireAdd]>
       (<[(getHeight cur, name) := ExpireRemove]> (nc_expire nc))).

(** ** Example data *)

Definition outpoint1 : COutPoint := mkOutPoint 1%N 0%N.
Definition outpoint2 : COutPoint := mkOutPoint 2%N 0%N.

(** A pay-to-anything script of 40 bytes, long enough to live on the heap. *)
Definition script40 : list Byte.byte := replicate 40 Byte.x51.

Definition coin1 : Coin := mkCoin (mkTxOut 50 script40) false 10%N.
Definition coin2 : Coin := mkCoin (mkTxOut 25 script40) false 11%N.

(** A coin whose script starts with [OP_RETURN]. *)
Definition coin_unspendable : Coin := mkCoin (mkTxOut 0 [OP_RETURN; Byte.x01]) false 12%N.

(** The empty cache over the base view. *)
Definition cache_empty : CCoinsViewCache CCoinsViewBase := Cache.create coins_view_base.

(** The cache over the base view after [AddCoin(outpoint1, coin1, false)]:
    it holds [coin1], DIRTY and FRESH. *)
Definition cache_with_coin1 : CCoinsViewCache CCoinsViewBase :=
  mkCache coins_view_base 0%N {[ outpoint1 := mkEntry coin1 (Z.lor DIRTY FRESH) ]} 40
          NameCache.clear.

(** A read-only view given by tables: coin records, name records and the
    names listed for a height.  It reports whatever record it holds for an
    outpoint, a spent one included.  It stands for an implementation of
    the interface outside coins.cpp. *)
Record CCoinsViewTable : Type := mkTable {
  table_coins : gmap COutPoint Coin;
  table_names : gmap valtype CNameData;
  table_index : gmap N (gset valtype)
}.

#[global] Instance CCoinsViewTable_view : CCoinsView CCoinsViewTable := {
  GetCoin t outpoint := table_coins t !! outpoint;
  GetBestBlock _ := 0%N;
  GetName t name := table_names t !! name;
  GetNameHistory _ _ := None;
  GetNamesForHeight t height := Some (default ∅ (table_index t !! height));
  BatchWrite t mapCoins _ _ := Returned false (t, mapCoins)
}.


(** The parent of this cache holds [coin1], live, at [outpoint1]. *)
Definition cache_over_coin1 : CCoinsViewCache (CCoinsViewCache CCoinsViewBase) :=
  Cache.create cache_with_coin1.

(** A child map with one entry: [outpoint1], spent, DIRTY and FRESH. *)
Definition child_spent_fresh : CCoinsMap :=
  {[ outpoint1 := mkEntry coinEmpty (Z.lor DIRTY FRESH) ]}.

(** A cache holding [coin1] (DIRTY and FRESH) over an empty cache. *)
Definition child_with_coin1 : CCoinsViewCache (CCoinsViewCache CCoinsViewBase) :=
  mkCache cache_empty 0%N {[ outpoint1 := mkEntry coin1 (Z.lor DIRTY FRESH) ]} 40
          NameCache.clear.

(** A cache whose parent has the best block 7. *)
Definition cache_over_best7 : CCoinsViewCache (CCoinsViewCache CCoinsViewBase) :=
  Cache.create (Cache.SetBestBlock 7%N cache_empty).

Definition name_a : valtype := "d/a".
Definition data_old : CNameData := mkNameData "v0" 100 outpoint1.
Definition data_new : CNameData := mkNameData "v1" 120 outpoint2.

(** The cache over the base view in which [name_a] was registered with
    [data_old]. *)
Definition cache_named : CCoinsViewCache CCoinsViewBase :=
  mkCache coins_view_base 0%N ∅ 0
    (mkNameCache {[ name_a := NameSet data_old ]} ∅ {[ (100%N, name_a) := ExpireAdd ]}).

(** An empty cache over a table that holds [data_old] (height 100) for
    [name_a] and lists the name at its height. *)
Definition cache_over_name_table : CCoinsViewCache CCoinsViewTable :=
  Cache.create (mkTable ∅ {[ name_a := data_old ]} {[ 100%N := {[ name_a ]} ]}).

(** The same, with a stale listing of the name at height 120 as well. *)
Definition cache_over_stale_index : CCoinsViewCache CCoinsViewTable :=
  Cache.create (mkTable ∅ {[ name_a := data_old ]}
                        {[ 100%N := {[ name_a ]}; 120%N := {[ name_a ]} ]}).

(** ** Transactions and the functions over a cache *)

(** Modelled from the spec: what coins.cpp reads of a [CTransaction] of
    primitives/transaction.h: its hash, whether it is a coinbase, the
    outpoints its inputs spend and its outputs. *)
Record CTransaction : Type := mkTx {
  tx_hash : uint256;
  tx_coinbase : bool;
  vin : list COutPoint;
  vout : list CTxOut
}.

(** [COutPoint(txid, i)] for a [size_t] index: the index of an outpoint has
    32 bits. *)
Definition outpoint_at (txid : uint256) (i : nat) : COutPoint :=
  mkOutPoint txid (N.of_nat i mod 2 ^ 32)%N.

(** The members of a cache of its own: the best-block marker, the coin
    map, the usage counter and the name cache. *)
Definition members {V : Type} (c : CCoinsViewCache V)
    : uint256 * CCoinsMap * Z * CNameCache :=
  (hashBlock c, cacheCoins c, cachedCoinsUsage c, cacheNames c).

Section OverCache.

Context {V : Type} `{CCoinsView V}.

(** The loop of [AddCoins] from output [i] on; [outs] are the outputs that
    are left. *)
Fixpoint AddCoins_loop (txid : uint256) (fCoinbase : bool) (height : N)
    (check_for_overwrite : bool) (i : nat) (outs : list CTxOut)
    (cache : CCoinsViewCache V) : Outcome unit (CCoinsViewCache V) :=
  match outs with
  | [] => Returned tt cache
  | txout :: outs' =>
    let '(overwrite, cache1) :=
      if check_for_overwrite then Cache.HaveCoin (outpoint_at txid i) cache
      else (fCoinbase, cache) in
    match Cache.AddCoin (outpoint_at txid i) (mkCoin txout fCoinbase height)
                        overwrite cache1 with
    | Returned _ cache2 =>
      AddCoins_loop txid fCoinbase height check_for_overwrite (S i) outs' cache2
    | Thrown e s => Thrown e s
    | Aborted => Aborted
    end
  end.

Definition AddCoins (tx : CTransaction) (height : N) (check_for_overwrite : bool)
    (cache : CCoinsViewCache V) : Outcome unit (CCoinsViewCache V) :=
  AddCoins_loop (tx_hash tx) (tx_coinbase tx) height check_for_overwrite 0 (vout tx) cache.

(** One turn of the loop of [AddCoins]: the flag that [AddCoin] is given
    and the state in which it is called. *)
Definition AddCoins_turn (fCoinbase check_for_overwrite : bool) (outpoint : COutPoint)
    (c : CCoinsViewCache V) : bool * CCoinsViewCache V :=
  if check_for_overwrite then Cache.HaveCoin outpoint c else (fCoinbase, c).

(** The loop of [HaveInputs].  The counter [i] is an [unsigned int]: it
    wraps at 2^32, and is compared with [tx.vin.size()], a [size_t].
    [turns] bounds the turns of the loop that are followed: [None] means
    that the loop is still turning after them. *)
Fixpoint HaveInputs_loop (turns : nat) (i : N) (prevouts : list COutPoint)
    (c : CCoinsViewCache V) : option (bool * CCoinsViewCache V) :=
  match turns with
  | O => None
  | S turns' =>
    if (i <? N.of_nat (length prevouts))%N
    then
      match prevouts !! N.to_nat i with
      | Some prevout =>
        match Cache.HaveCoin prevout c with
        | (false, c1) => Some (false, c1)
        | (true, c1) => HaveInputs_loop turns' ((i + 1) mod 2 ^ 32)%N prevouts c1
        end
      | None => None (* not reached: [i] is below the size *)
      end
    else Some (true, c)
  end.

(** [CCoinsViewCache::HaveInputs]. *)
Definition HaveInputs (turns : nat) (tx : CTransaction) (c : CCoinsViewCache V)
    : option (bool * CCoinsViewCache V) :=
  if tx_coinbase tx then Some (true, c) else HaveInputs_loop turns 0%N (vin tx) c.

(** The loop of [AccessByTxid].  [iter_n] is the 32-bit index of the
    outpoint [iter], which wraps at 2^32; it is compared with the bound as
    a [size_t].  [turns] bounds the turns that are followed: [None] means
    that the loop is still turning after them. *)
Fixpoint AccessByTxid_loop (turns : nat) (MAX_OUTPUTS_PER_BLOCK : N) (txid : uint256)
    (iter_n : N) (view : CCoinsViewCache V) : option (Coin * CCoinsViewCache V) :=
  match turns with
  | O => None
  | S turns' =>
    if (iter_n <? MAX_OUTPUTS_PER_BLOCK)%N
    then
      match Cache.AccessCoin (mkOutPoint txid iter_n) view with
      | (alternate, view1) =>
        if negb (IsSpent alternate) then Some (alternate, view1)
        else AccessByTxid_loop turns' MAX_OUTPUTS_PER_BLOCK txid
                               ((iter_n + 1) mod 2 ^ 32)%N view1
      end
    else Some (coinEmpty, view)
  end.

(** [AccessByTxid].  The bound [MAX_OUTPUTS_PER_BLOCK] is computed from
    constants of consensus.h, which is not among the sources: it is an
    argument here. *)
Definition AccessByTxid (turns : nat) (MAX_OUTPUTS_PER_BLOCK : N)
    (view : CCoinsViewCache V) (txid : uint256) : option (Coin * CCoinsViewCache V) :=
  AccessByTxid_loop turns MAX_OUTPUTS_PER_BLOCK txid 0%N view.

(** [BatchWrite] with the traversal made explicit: [order] lists the
    entries of the child's map in the order in which the iterator of the
    [std::unordered_map] yields them.  [Cache.BatchWrite] is the case of
    the order of [map_to_list]. *)
Definition BatchWrite_in_order (order : list (COutPoint * CCoinsCacheEntry))
    (hashBlockIn : uint256) (names : CNameCache) (c : CCoinsViewCache V)
    : Outcome bool (CCoinsViewCache V * CCoinsMap) :=
  match Cache.BatchWrite_loop order (cacheCoins c) (cachedCoinsUsage c) with
  | (coins, usage, []) =>
    Returned true
      (mkCache (base c) hashBlockIn coins usage (NameCache.apply names (cacheNames c)), ∅)
  | (coins, usage, rest) =>
    Thrown FreshAppliedToExisting (Cache.set_coins coins usage c, list_to_map rest)
  end.

(** The coin record the cache works on for an outpoint: its own entry, or
    else what the parent reports. *)
Definition view_coin (c : CCoinsViewCache V) (outpoint : COutPoint) : option Coin :=
  match cacheCoins c !! outpoint with
  | Some e => Some (coin e)
  | None => GetCoin (base c) outpoint
  end.

(** The outpoint is live through the cache. *)
Definition view_live (c : CCoinsViewCache V) (outpoint : COutPoint) : bool :=
  match view_coin c outpoint with
  | Some x => negb (IsSpent x)
  | None => false
  end.

(** FRESH is sound and clean images are faithful: a FRESH entry, and a
    spent entry without DIRTY, sit over a parent that reports no live
    coin. *)
Definition fresh_sound (c : CCoinsViewCache V) : Prop :=
  forall outpoint e,
    cacheCoins c !! outpoint = Some e ->
    (has_flag (flags e) FRESH = true
     \/ (has_flag (flags e) DIRTY = false /\ IsSpent (coin e) = true)) ->
    parent_live (base c) outpoint = false.

(** The exits that lose count of the usage: a throwing [AddCoin],
    [EmplaceCoinInternalDANGER] on a taken slot, a [Flush] whose parent
    throws. *)
Definition loses_count (call : Call) (c : CCoinsViewCache V) : bool :=
  match call with
  | CallAddCoin outpoint coin0 possible_overwrite =>
    match Cache.AddCoin outpoint coin0 possible_overwrite c with
    | Thrown _ _ => true
    | _ => false
    end
  | CallEmplaceCoinInternalDANGER outpoint _ =>
    bool_decide (is_Some (cacheCoins c !! outpoint))
  | CallFlush =>
    match Cache.Flush c with
    | Thrown _ _ => true
    | _ => false
    end
  | _ => false
  end.

(** One public call, from the state before it to the state at the
    boundary after it.  [BatchWrite] may traverse the child's map in any
    order. *)
Definition call_step (fNameHistory : bool) (call : Call) (c c1 : CCoinsViewCache V) : Prop :=
  match call with
  | CallBatchWrite mapCoins hashBlockIn names =>
    exists order,
      order ≡ₚ map_to_list mapCoins
      /\ fst <$> state_after (BatchWrite_in_order order hashBlockIn names c) = Some c1
  | _ => after_call fNameHistory call c = Some c1
  end.

(** A run of public calls none of which takes one of those exits.  Between
    two calls the members of the cache are as the call left them; the
    parent is not followed: a parent that is a cache fills its own map when
    it is read, so that it may be in any state at the next call. *)
Inductive counted_run (fNameHistory : bool)
    : list Call -> CCoinsViewCache V -> CCoinsViewCache V -> Prop :=
| counted_run_nil c : counted_run fNameHistory [] c c
| counted_run_cons call calls c c1 c2 c' :
    loses_count call c = false ->
    call_step fNameHistory call c c1 ->
    members c2 = members c1 ->
    counted_run fNameHistory calls c2 c' ->
    counted_run fNameHistory (call :: calls) c c'.

End OverCache.

(** The slot that a returning [BatchWrite] leaves for a child entry [it]
    over the slot [us] of the receiving cache. *)
Definition merged_slot (it : CCoinsCacheEntry) (us : option CCoinsCacheEntry)
    : option CCoinsCacheEntry :=
  if negb (has_flag (flags it) DIRTY) then us
  else
    match us with
    | None =>
      if has_flag (flags it) FRESH && IsSpent (coin it) then None
      else Some (mkEntry (coin it)
                   (if has_flag (flags it) FRESH then Z.lor DIRTY FRESH else DIRTY))
    | Some itUs =>
      if has_flag (flags itUs) FRESH && IsSpent (coin it) then None
      else Some (mkEntry (coin it) (Z.lor (flags itUs) DIRTY))
    end.

(** A child map with two entries: [outpoint1] spent and DIRTY,
    [outpoint2] holding [coin2], DIRTY and FRESH. *)
Definition child_two : CCoinsMap :=
  {[ outpoint1 := mkEntry coinEmpty DIRTY; outpoint2 := mkEntry coin2 (Z.lor DIRTY FRESH) ]}.

(** [cache_with_coin1] after the merge of [child_two], traversed in the
    reverse of the order of [map_to_list]. *)
Definition cache_after_child_two : CCoinsViewCache CCoinsViewBase :=
  match BatchWrite_in_order (reverse (map_to_list child_two)) 5%N NameCache.clear
                            cache_with_coin1 with
  | Returned _ (c, _) => c
  | _ => cache_with_coin1
  end.

(** A cache over a cache over a table that holds [coin1] at [outpoint1]:
    both caches are empty. *)
Definition stack_over_table : CCoinsViewCache (CCoinsViewCache CCoinsViewTable) :=
  Cache.create (Cache.create (mkTable {[ outpoint1 := coin1 ]} ∅ ∅)).

(** The stack after [GetCoin(outpoint1)] on the upper cache: the upper
    cache holds the coin it fetched, and so does the lower one, which was
    read through. *)
Definition stack_after_read : CCoinsViewCache (CCoinsViewCache CCoinsViewTable) :=
  let upper := (Cache.GetCoin outpoint1 stack_over_table).2 in
  mkCache (Cache.GetCoin outpoint1 (base stack_over_table)).2
          (hashBlock upper) (cacheCoins upper) (cachedCoinsUsage upper) (cacheNames upper).

(** The stack after the coin was then spent and the upper cache flushed,
    and [coin2] was added at [outpoint2]. *)
Definition stack_after_run : CCoinsViewCache (CCoinsViewCache CCoinsViewTable) :=
  default stack_after_read
    (after_calls false
       [CallSpendCoin outpoint1 false; CallFlush; CallAddCoin outpoint2 coin2 false]
       stack_after_read).

(** A transaction with a spendable and an unspendable output. *)
Definition tx1 : CTransaction :=
  mkTx 9%N false [outpoint1]
       [mkTxOut 30 script40; mkTxOut 0 [OP_RETURN; Byte.x01]; mkTxOut 20 script40].

(** The empty cache after [AddCoins(tx1, 5, true)]. *)
Definition cache_after_tx1 : CCoinsViewCache CCoinsViewBase :=
  match AddCoins tx1 5 true cache_empty with
  | Returned _ c => c
  | _ => cache_empty
  end.

(** * Properties *)

Example cache_with_coin1_built :
  Cache.AddCoin outpoint1 coin1 false cache_empty = Returned tt cache_with_coin1.
Proof. vm_compute. reflexivity. Qed.

(** ** Flags *)

Lemma land_pow2 (f k : Z) :
  0 <= k -> Z.land f (2 ^ k) = if Z.testbit f k then 2 ^ k else 0.
Proof.
  intros Hk. apply Z.bits_inj'. intros i Hi.
  rewrite Z.land_spec, Z.pow2_bits_eqb by lia.
  destruct (Z.eqb_spec k i) as [->|Hne].
  - destruct (Z.testbit f i); simpl.
    + rewrite Z.pow2_bits_true; lia.
    + by rewrite Z.bits_0.
  - rewrite andb_false_r. destruct (Z.testbit f k).
    + rewrite Z.pow2_bits_false; lia.
    + by rewrite Z.bits_0.
Qed.

Lemma has_flag_pow2 (f k : Z) : 0 <= k -> has_flag f (2 ^ k) = Z.testbit f k.
Proof.
  intros Hk. unfold has_flag. rewrite land_pow2 by done.
  destruct (Z.testbit f k); [|done].
  assert (0 < 2 ^ k) by (apply Z.pow_pos_nonneg; lia).
  destruct (Z.eqb_spec (2 ^ k) 0); [lia | done].
Qed.

Lemma has_DIRTY (f : Z) : has_flag f DIRTY = Z.testbit f 0.
Proof. apply (has_flag_pow2 f 0). lia. Qed.

Lemma has_FRESH (f : Z) : has_flag f FRESH = Z.testbit f 1.
Proof. apply (has_flag_pow2 f 1). lia. Qed.

Lemma testbit_DIRTY_0 : Z.testbit DIRTY 0 = true.
Proof. reflexivity. Qed.

Lemma testbit_DIRTY_1 : Z.testbit DIRTY 1 = false.
Proof. reflexivity. Qed.

Lemma testbit_FRESH_0 : Z.testbit FRESH 0 = false.
Proof. reflexivity. Qed.

Lemma testbit_FRESH_1 : Z.testbit FRESH 1 = true.
Proof. reflexivity. Qed.

(** Reduce every flag test to the bits of the operands. *)
Ltac flag_bits :=
  rewrite ?has_DIRTY, ?has_FRESH, ?Z.lor_spec, ?testbit_DIRTY_0, ?testbit_DIRTY_1,
    ?testbit_FRESH_0, ?testbit_FRESH_1, ?Z.bits_0,
    ?orb_true_r, ?orb_false_r, ?orb_true_l, ?orb_false_l.

Lemma lor_DIRTY_has_DIRTY (f : Z) (fresh : bool) :
  has_flag (Z.lor f (Z.lor DIRTY (if fresh then FRESH else 0))) DIRTY = true.
Proof. by flag_bits. Qed.

Lemma lor_DIRTY_has_FRESH (f : Z) (fresh : bool) :
  has_flag (Z.lor f (Z.lor DIRTY (if fresh then FRESH else 0))) FRESH
  = has_flag f FRESH || fresh.
Proof. destruct fresh; by flag_bits. Qed.

Lemma lor_DIRTY_only_has_DIRTY (f : Z) : has_flag (Z.lor f DIRTY) DIRTY = true.
Proof. by flag_bits. Qed.

Lemma lor_DIRTY_only_has_FRESH (f : Z) : has_flag (Z.lor f DIRTY) FRESH = has_flag f FRESH.
Proof. by flag_bits. Qed.

Lemma has_flag_0 (mask : Z) : has_flag 0 mask = false.
Proof. reflexivity. Qed.

Lemma coinEmpty_spent : IsSpent coinEmpty = true.
Proof. reflexivity. Qed.

(** ** AddCoin *)

Section AddCoin.

Context {V : Type} `{CCoinsView V}.

Implicit Types c : CCoinsViewCache V.

(** What a returning [AddCoin] of a spendable coin leaves at the slot. *)
Lemma AddCoin_returned c c' outpoint coin0 possible_overwrite :
  IsUnspendable (scriptPubKey (out coin0)) = false ->
  Cache.AddCoin outpoint coin0 possible_overwrite c = Returned tt c' ->
  let old := flags_at (cacheCoins c) outpoint in
  let fresh := negb possible_overwrite && negb (has_flag old DIRTY) in
  cacheCoins c' !! outpoint
  = Some (mkEntry coin0 (Z.lor old (Z.lor DIRTY (if fresh then FRESH else 0))))
  /\ (forall k, k <> outpoint -> cacheCoins c' !! k = cacheCoins c !! k)
  /\ base c' = base c /\ hashBlock c' = hashBlock c /\ cacheNames c' = cacheNames c.
Proof.
  intros Hsp. unfold Cache.AddCoin, flags_at. rewrite Hsp.
  destruct (IsSpent coin0); [done|].
  destruct (cacheCoins c !! outpoint) as [e|] eqn:Hlk; simpl.
  - destruct (negb possible_overwrite && negb (IsSpent (coin e))); [done|].
    intros [= <-]; simpl. rewrite lookup_insert_eq.
    repeat split; [|done..]. intros k Hk. by rewrite lookup_insert_ne.
  - rewrite andb_false_r. intros [= <-]; simpl. rewrite lookup_insert_eq.
    repeat split; [|done..]. intros k Hk. by rewrite !lookup_insert_ne.
Qed.

(** An unspendable coin is dropped: the call returns and the cache is as
    it was. *)
Lemma AddCoin_unspendable c outpoint coin0 possible_overwrite :
  IsSpent coin0 = false ->
  IsUnspendable (scriptPubKey (out coin0)) = true ->
  Cache.AddCoin outpoint coin0 possible_overwrite c = Returned tt c.
Proof. intros Hs Hu. unfold Cache.AddCoin. by rewrite Hs, Hu. Qed.

End AddCoin.

(** C1 (as amended).  A returning [AddCoin] of a spendable coin leaves the
    given coin at the slot with DIRTY set.  FRESH is set exactly when the
    slot already carried FRESH, or [possible_overwrite] is false and the
    slot was absent or present without DIRTY.  With [possible_overwrite]
    true no FRESH is added, not even to a new slot. *)
Theorem AddCoin_entry_flags {V : Type} `{CCoinsView V} (c c' : CCoinsViewCache V)
    (outpoint : COutPoint) (coin0 : Coin) (possible_overwrite : bool) :
  IsUnspendable (scriptPubKey (out coin0)) = false ->
  Cache.AddCoin outpoint coin0 possible_overwrite c = Returned tt c' ->
  exists e',
    cacheCoins c' !! outpoint = Some e'
    /\ coin e' = coin0
    /\ has_flag (flags e') DIRTY = true
    /\ has_flag (flags e') FRESH
       = has_flag (flags_at (cacheCoins c) outpoint) FRESH
         || (negb possible_overwrite
             && negb (has_flag (flags_at (cacheCoins c) outpoint) DIRTY)).
Proof.
  intros Hsp Hret.
  destruct (AddCoin_returned c c' outpoint coin0 possible_overwrite Hsp Hret) as [Hlk _].
  eexists. split; [exact Hlk|]. simpl.
  split; [done|]. split.
  - apply lor_DIRTY_has_DIRTY.
  - apply lor_DIRTY_has_FRESH.
Qed.

Lemma AddCoin_entry_flags_witness :
  exists e',
    cacheCoins cache_with_coin1 !! outpoint1 = Some e'
    /\ coin e' = coin1
    /\ has_flag (flags e') DIRTY = true
    /\ has_flag (flags e') FRESH
       = has_flag (flags_at (cacheCoins cache_empty) outpoint1) FRESH
         || (negb false && negb (has_flag (flags_at (cacheCoins cache_empty) outpoint1) DIRTY)).
Proof.
  apply (AddCoin_entry_flags cache_empty cache_with_coin1 outpoint1 coin1 false).
  - reflexivity.
  - vm_compute. reflexivity.
Defined.

(** C1, counterexample.  [AddCoin(outpoint1, coin1, true)] on the empty
    cache: the slot did not pre-exist, yet the new entry is DIRTY and not
    FRESH. *)
Lemma AddCoin_possible_overwrite_new_slot_not_fresh :
  IsUnspendable (scriptPubKey (out coin1)) = false
  /\ cacheCoins cache_empty !! outpoint1 = None
  /\ exists c' e',
       Cache.AddCoin outpoint1 coin1 true cache_empty = Returned tt c'
       /\ cacheCoins c' !! outpoint1 = Some e'
       /\ has_flag (flags e') DIRTY = true
       /\ has_flag (flags e') FRESH = false.
Proof.
  split; [reflexivity|]. split; [reflexivity|].
  eexists _, _. split; [vm_compute; reflexivity|].
  split; [vm_compute; reflexivity|]. split; reflexivity.
Qed.

(** ** Reading through to the parent *)

Section Reads.

Context {V : Type} `{CCoinsView V}.

Implicit Types c : CCoinsViewCache V.

Lemma FetchCoin_hit c outpoint e :
  cacheCoins c !! outpoint = Some e -> Cache.FetchCoin outpoint c = (Some e, c).
Proof. intros Hlk. unfold Cache.FetchCoin. by rewrite Hlk. Qed.

Lemma FetchCoin_base c outpoint : base (Cache.FetchCoin outpoint c).2 = base c.
Proof.
  unfold Cache.FetchCoin.
  destruct (cacheCoins c !! outpoint); [done|].
  by destruct (GetCoin (base c) outpoint).
Qed.

(** What [FetchCoin] returns is the entry the map then has. *)
Lemma FetchCoin_found c outpoint e :
  (Cache.FetchCoin outpoint c).1 = Some e ->
  cacheCoins (Cache.FetchCoin outpoint c).2 !! outpoint = Some e.
Proof.
  unfold Cache.FetchCoin. destruct (cacheCoins c !! outpoint) eqn:Hlk; simpl.
  - by intros [= <-].
  - destruct (GetCoin (base c) outpoint); simpl; [|done].
    intros [= <-]. apply lookup_insert_eq.
Qed.

(** A miss in the cache is answered by the parent. *)
Lemma GetCoin_miss c outpoint :
  cacheCoins c !! outpoint = None ->
  (Cache.GetCoin outpoint c).1
  = if parent_live (base c) outpoint then GetCoin (base c) outpoint else None.
Proof.
  intros Hlk. unfold Cache.GetCoin, Cache.FetchCoin, parent_live. rewrite Hlk.
  destruct (GetCoin (base c) outpoint) as [tmp|]; [|done].
  simpl. by destruct (IsSpent tmp).
Qed.

Lemma GetCoin_hit c outpoint e :
  cacheCoins c !! outpoint = Some e ->
  (Cache.GetCoin outpoint c).1 = if IsSpent (coin e) then None else Some (coin e).
Proof. intros Hlk. unfold Cache.GetCoin. by rewrite (FetchCoin_hit _ _ _ Hlk). Qed.

Lemma HaveCoin_GetCoin c outpoint :
  (Cache.HaveCoin outpoint c).1
  = match (Cache.GetCoin outpoint c).1 with Some _ => true | None => false end.
Proof.
  unfold Cache.HaveCoin, Cache.GetCoin.
  destruct (Cache.FetchCoin outpoint c) as [[e|] c']; simpl; [|done].
  by destruct (IsSpent (coin e)).
Qed.



End Reads.

(** ** C2: AddCoin followed by SpendCoin *)




(** ** C10: unspendable coins *)

(** C10 (as amended).  [AddCoin] of an unspent coin whose script is
    unspendable returns, whatever [possible_overwrite] is, and leaves the
    cache as it was: nothing is stored and the usage counter keeps its
    value.  A following [HaveCoin] returns false when neither the cache
    nor the parent holds a live coin at the outpoint. *)
Theorem AddCoin_unspendable_dropped {V : Type} `{CCoinsView V} (c : CCoinsViewCache V)
    (outpoint : COutPoint) (coin0 : Coin) (possible_overwrite : bool) :
  IsSpent coin0 = false ->
  IsUnspendable (scriptPubKey (out coin0)) = true ->
  Cache.AddCoin outpoint coin0 possible_overwrite c = Returned tt c
  /\ (Cache.HaveCoinInCache outpoint c = false ->
      parent_live (base c) outpoint = false ->
      (Cache.HaveCoin outpoint c).1 = false).
Proof.
  intros Hs Hu. split; [by apply AddCoin_unspendable|].
  intros Hc Hp. rewrite HaveCoin_GetCoin.
  unfold Cache.HaveCoinInCache in Hc.
  destruct (cacheCoins c !! outpoint) as [e|] eqn:Hlk.
  - rewrite (GetCoin_hit _ _ _ Hlk). by destruct (IsSpent (coin e)).
  - by rewrite (GetCoin_miss _ _ Hlk), Hp.
Qed.

Lemma AddCoin_unspendable_dropped_witness :
  Cache.AddCoin outpoint1 coin_unspendable false cache_empty = Returned tt cache_empty
  /\ (Cache.HaveCoinInCache outpoint1 cache_empty = false ->
      parent_live (base cache_empty) outpoint1 = false ->
      (Cache.HaveCoin outpoint1 cache_empty).1 = false).
Proof.
  apply (AddCoin_unspendable_dropped cache_empty outpoint1 coin_unspendable false);
    reflexivity.
Defined.

(** C10, counterexample.  The cache already holds the live [coin1] at
    [outpoint1] and the parent holds nothing.  [AddCoin] of an unspendable
    coin there is dropped, and [HaveCoin] still returns true. *)
Lemma AddCoin_unspendable_HaveCoin_true :
  IsUnspendable (scriptPubKey (out coin_unspendable)) = true
  /\ parent_live (base cache_with_coin1) outpoint1 = false
  /\ Cache.AddCoin outpoint1 coin_unspendable true cache_with_coin1
     = Returned tt cache_with_coin1
  /\ (Cache.HaveCoin outpoint1 cache_with_coin1).1 = true.
Proof. repeat split; vm_compute; reflexivity. Qed.

(** ** The merge: one entry *)

Section BatchWriteEntry.

Implicit Types (k : COutPoint) (it us : CCoinsCacheEntry) (m : CCoinsMap) (u : Z).

(** A child entry without DIRTY is skipped. *)
Lemma BatchWrite_entry_not_dirty k it m u :
  has_flag (flags it) DIRTY = false -> Cache.BatchWrite_entry k it m u = Some (m, u).
Proof. intros Hd. unfold Cache.BatchWrite_entry. by rewrite Hd. Qed.

(** The loop body throws exactly for a DIRTY and FRESH child entry over a
    live coin of the receiving cache. *)
Lemma BatchWrite_entry_throws k it m u :
  Cache.BatchWrite_entry k it m u = None
  <-> has_flag (flags it) DIRTY = true /\ has_flag (flags it) FRESH = true
      /\ exists us, m !! k = Some us /\ IsSpent (coin us) = false.
Proof.
  unfold Cache.BatchWrite_entry.
  destruct (has_flag (flags it) DIRTY); simpl.
  - destruct (m !! k) as [us|].
    + destruct (has_flag (flags it) FRESH); simpl.
      * destruct (IsSpent (coin us)) eqn:Hs; simpl.
        -- split; [by destruct (has_flag (flags us) FRESH && IsSpent (coin it))|].
           intros (_ & _ & us' & [= <-] & Hl). congruence.
        -- split; [|done]. intros _. repeat split. by exists us.
      * split; [by destruct (has_flag (flags us) FRESH && IsSpent (coin it))|].
        by intros (_ & ? & _).
    + split; [by destruct (has_flag (flags it) FRESH && IsSpent (coin it))|].
      by intros (_ & _ & us' & ? & _).
  - split; [done|]. by intros (? & _).
Qed.

(** Create-then-spend, nothing below: the child entry is dropped. *)
Lemma BatchWrite_entry_drop k it m u :
  has_flag (flags it) DIRTY = true -> has_flag (flags it) FRESH = true ->
  IsSpent (coin it) = true -> m !! k = None ->
  Cache.BatchWrite_entry k it m u = Some (m, u).
Proof.
  intros Hd Hf Hs Hlk. unfold Cache.BatchWrite_entry. by rewrite Hd, Hlk, Hf, Hs.
Qed.

(** A spent child entry over a FRESH entry erases that entry, unless the
    child entry is FRESH over a live coin (which throws). *)
Lemma BatchWrite_entry_erase k it us m u :
  has_flag (flags it) DIRTY = true -> IsSpent (coin it) = true ->
  m !! k = Some us -> has_flag (flags us) FRESH = true ->
  has_flag (flags it) FRESH && negb (IsSpent (coin us)) = false ->
  Cache.BatchWrite_entry k it m u
  = Some (delete k m, size_t_wrap (u - DynamicMemoryUsage (coin us))).
Proof.
  intros Hd Hs Hlk Hf Hno. unfold Cache.BatchWrite_entry.
  by rewrite Hd, Hlk, Hno, Hf, Hs.
Qed.

(** The loop body touches the slot of its own key only. *)
Lemma BatchWrite_entry_frame k it m u m' u' k' :
  Cache.BatchWrite_entry k it m u = Some (m', u') -> k' <> k -> m' !! k' = m !! k'.
Proof.
  unfold Cache.BatchWrite_entry. intros Hstep Hne.
  repeat case_match; simplify_eq; try done;
    by rewrite ?lookup_insert_ne, ?lookup_delete_ne.
Qed.

End BatchWriteEntry.

(** ** The merge: the loop *)

Section BatchWriteLoop.

Implicit Types (k : COutPoint) (it us : CCoinsCacheEntry) (m : CCoinsMap) (u : Z).
Implicit Types l rest : list (COutPoint * CCoinsCacheEntry).

Lemma BatchWrite_loop_frame l m u m' u' rest k :
  k ∉ l.*1 -> Cache.BatchWrite_loop l m u = (m', u', rest) -> m' !! k = m !! k.
Proof.
  revert m u. induction l as [|[k0 it0] l IH]; intros m u Hk; simpl.
  - by intros [= <- _ _].
  - rewrite fmap_cons, not_elem_of_cons in Hk. destruct Hk as [Hne Hk].
    destruct (Cache.BatchWrite_entry k0 it0 m u) as [[m1 u1]|] eqn:Hstep.
    + intros Hloop. rewrite (IH _ _ Hk Hloop).
      by eapply BatchWrite_entry_frame.
    + by intros [= <- _ _].
Qed.

(** When the loop runs to its end, every child entry had its turn on the
    slot that the receiving cache had for it at the start. *)
Lemma BatchWrite_loop_turn l m u m' u' k it :
  NoDup l.*1 -> (k, it) ∈ l -> Cache.BatchWrite_loop l m u = (m', u', []) ->
  exists m0 u0 m1 u1,
    m0 !! k = m !! k /\ Cache.BatchWrite_entry k it m0 u0 = Some (m1, u1)
    /\ m' !! k = m1 !! k.
Proof.
  revert m u. induction l as [|[k0 it0] l IH]; intros m u Hnd Hin; simpl.
  - by apply elem_of_nil in Hin.
  - rewrite fmap_cons in Hnd. apply NoDup_cons in Hnd as [Hk0 Hnd].
    destruct (Cache.BatchWrite_entry k0 it0 m u) as [[m1 u1]|] eqn:Hstep; [|done].
    intros Hloop. apply elem_of_cons in Hin as [[= -> ->]|Hin].
    + exists m, u, m1, u1. repeat split; [done|].
      by eapply BatchWrite_loop_frame.
    + destruct (IH _ _ Hnd Hin Hloop) as (m0 & u0 & m2 & u2 & Hm0 & Hs & Hm').
      exists m0, u0, m2, u2. repeat split; [|done..].
      rewrite Hm0. eapply BatchWrite_entry_frame; [done|].
      intros ->. apply Hk0. apply list_elem_of_fmap. by exists (k0, it).
Qed.

(** The loop stops early exactly when some child entry is DIRTY and FRESH
    over a live coin of the receiving cache. *)
Lemma BatchWrite_loop_throws l m u :
  NoDup l.*1 ->
  (Cache.BatchWrite_loop l m u).2 <> []
  <-> exists k it us,
        (k, it) ∈ l /\ has_flag (flags it) DIRTY = true
        /\ has_flag (flags it) FRESH = true
        /\ m !! k = Some us /\ IsSpent (coin us) = false.
Proof.
  revert m u. induction l as [|[k0 it0] l IH]; intros m u Hnd; simpl.
  - split; [done|]. intros (k & it & us & Hin & _). by apply elem_of_nil in Hin.
  - rewrite fmap_cons in Hnd. apply NoDup_cons in Hnd as [Hk0 Hnd].
    destruct (Cache.BatchWrite_entry k0 it0 m u) as [[m1 u1]|] eqn:Hstep.
    + assert (Hother : forall k, k ∈ l.*1 -> m1 !! k = m !! k).
      { intros k Hk. eapply BatchWrite_entry_frame; [done|]. by intros ->. }
      rewrite (IH m1 u1 Hnd). split.
      * intros (k & it & us & Hin & Hd & Hf & Hlk & Hs).
        exists k, it, us. repeat split; try done; [by apply elem_of_cons; right|].
        rewrite <- Hother; [done|]. apply list_elem_of_fmap. by exists (k, it).
      * intros (k & it & us & Hin & Hd & Hf & Hlk & Hs).
        apply elem_of_cons in Hin as [[= -> ->]|Hin].
        -- assert (Cache.BatchWrite_entry k0 it0 m u = None) as Hnone
             by (apply BatchWrite_entry_throws; eauto).
           congruence.
        -- exists k, it, us. repeat split; try done.
           rewrite Hother; [done|]. apply list_elem_of_fmap. by exists (k, it).
    + simpl. split; [|done]. intros _.
      apply BatchWrite_entry_throws in Hstep as (Hd & Hf & us & Hlk & Hs).
      exists k0, it0, us. repeat split; try done. apply elem_of_cons; by left.
Qed.

End BatchWriteLoop.

Section BatchWriteLoopSlots.

Implicit Types (k : COutPoint) (it us : CCoinsCacheEntry) (m : CCoinsMap) (u : Z).
Implicit Types l rest : list (COutPoint * CCoinsCacheEntry).

(** A dropped child entry leaves its slot empty, however the loop ends. *)
Lemma BatchWrite_loop_drop l m u m' u' rest k it :
  NoDup l.*1 -> (k, it) ∈ l ->
  has_flag (flags it) DIRTY = true -> has_flag (flags it) FRESH = true ->
  IsSpent (coin it) = true -> m !! k = None ->
  Cache.BatchWrite_loop l m u = (m', u', rest) -> m' !! k = None.
Proof.
  intros Hnd Hin Hd Hf Hs. revert m u Hnd Hin.
  induction l as [|[k0 it0] l IH]; intros m u Hnd Hin Hlk; simpl.
  - by apply elem_of_nil in Hin.
  - rewrite fmap_cons in Hnd. apply NoDup_cons in Hnd as [Hk0 Hnd]. simpl in Hk0.
    apply elem_of_cons in Hin as [[= -> ->]|Hin].
    + rewrite (BatchWrite_entry_drop _ _ _ _ Hd Hf Hs Hlk). intros Hloop.
      by rewrite (BatchWrite_loop_frame _ _ _ _ _ _ _ Hk0 Hloop).
    + destruct (Cache.BatchWrite_entry k0 it0 m u) as [[m1 u1]|] eqn:Hstep.
      * apply IH; [done..|].
        rewrite <- Hlk. eapply BatchWrite_entry_frame; [done|].
        intros ->. apply Hk0. apply list_elem_of_fmap. by exists (k0, it).
      * by intros [= <- _ _].
Qed.

(** A spent child entry over a FRESH entry: when the loop runs to its end,
    the slot is empty. *)
Lemma BatchWrite_loop_erase l m u m' u' k it us :
  NoDup l.*1 -> (k, it) ∈ l ->
  has_flag (flags it) DIRTY = true -> IsSpent (coin it) = true ->
  m !! k = Some us -> has_flag (flags us) FRESH = true ->
  Cache.BatchWrite_loop l m u = (m', u', []) -> m' !! k = None.
Proof.
  intros Hnd Hin Hd Hs Hlk Hf Hloop.
  destruct (BatchWrite_loop_turn _ _ _ _ _ _ _ Hnd Hin Hloop)
    as (m0 & u0 & m1 & u1 & Hm0 & Hstep & Hm').
  rewrite Hlk in Hm0.
  assert (has_flag (flags it) FRESH && negb (IsSpent (coin us)) = false) as Hno.
  { destruct (has_flag (flags it) FRESH) eqn:Hfi; [|done].
    destruct (IsSpent (coin us)) eqn:Hsu; [done|].
    assert (Cache.BatchWrite_entry k it m0 u0 = None) as Hnone
      by (apply BatchWrite_entry_throws; eauto).
    congruence. }
  rewrite (BatchWrite_entry_erase _ _ _ _ _ Hd Hs Hm0 Hf Hno) in Hstep.
  injection Hstep as <- _. rewrite Hm'. apply lookup_delete_eq.
Qed.

(** A child entry that is DIRTY and FRESH over a live coin: where the
    loop stops, whichever entry stopped it, that coin is still in its
    slot. *)
Lemma BatchWrite_loop_thrower_stays l m u m' u' rest k it us :
  NoDup l.*1 -> (k, it) ∈ l ->
  has_flag (flags it) DIRTY = true -> has_flag (flags it) FRESH = true ->
  m !! k = Some us -> IsSpent (coin us) = false ->
  Cache.BatchWrite_loop l m u = (m', u', rest) -> m' !! k = Some us.
Proof.
  intros Hnd Hin Hd Hf Hlk Hs. revert m u Hnd Hin Hlk.
  induction l as [|[k0 it0] l IH]; intros m u Hnd Hin Hlk; simpl.
  - by apply elem_of_nil in Hin.
  - rewrite fmap_cons in Hnd. apply NoDup_cons in Hnd as [Hk0 Hnd]. simpl in Hk0.
    apply elem_of_cons in Hin as [[= -> ->]|Hin].
    + assert (Cache.BatchWrite_entry k0 it0 m u = None) as ->
        by (apply BatchWrite_entry_throws; eauto).
      by intros [= <- _ _].
    + destruct (Cache.BatchWrite_entry k0 it0 m u) as [[m1 u1]|] eqn:Hstep.
      * apply IH; [done..|].
        rewrite <- Hlk. eapply BatchWrite_entry_frame; [done|].
        intros ->. apply Hk0. apply list_elem_of_fmap. by exists (k0, it).
      * by intros [= <- _ _].
Qed.

(** A spent child entry over a FRESH entry never overwrites it: where the
    loop ends or stops, the slot is empty or holds the entry it held. *)
Lemma BatchWrite_loop_erased_or_kept l m u m' u' rest k it us :
  NoDup l.*1 -> (k, it) ∈ l ->
  has_flag (flags it) DIRTY = true -> IsSpent (coin it) = true ->
  m !! k = Some us -> has_flag (flags us) FRESH = true ->
  has_flag (flags it) FRESH && negb (IsSpent (coin us)) = false ->
  Cache.BatchWrite_loop l m u = (m', u', rest) ->
  m' !! k = None \/ m' !! k = Some us.
Proof.
  intros Hnd Hin Hd Hs Hlk Hf Hno. revert m u Hnd Hin Hlk.
  induction l as [|[k0 it0] l IH]; intros m u Hnd Hin Hlk; simpl.
  - by apply elem_of_nil in Hin.
  - rewrite fmap_cons in Hnd. apply NoDup_cons in Hnd as [Hk0 Hnd]. simpl in Hk0.
    apply elem_of_cons in Hin as [[= -> ->]|Hin].
    + rewrite (BatchWrite_entry_erase _ _ _ _ _ Hd Hs Hlk Hf Hno). intros Hloop.
      left. rewrite (BatchWrite_loop_frame _ _ _ _ _ _ _ Hk0 Hloop).
      apply lookup_delete_eq.
    + destruct (Cache.BatchWrite_entry k0 it0 m u) as [[m1 u1]|] eqn:Hstep.
      * apply IH; [done..|].
        rewrite <- Hlk. eapply BatchWrite_entry_frame; [done|].
        intros ->. apply Hk0. apply list_elem_of_fmap. by exists (k0, it).
      * intros [= <- _ _]. by right.
Qed.

End BatchWriteLoopSlots.

(** ** The merge: the whole call *)

Section BatchWrite.

Context {V : Type} `{CCoinsView V}.

Implicit Types c : CCoinsViewCache V.

(** [BatchWrite] of a cache never fails an assertion, and what it leaves is
    what the loop computed. *)
Lemma BatchWrite_state c mapCoins hashBlockIn names :
  exists s,
    state_after (Cache.BatchWrite mapCoins hashBlockIn names c) = Some s
    /\ (cacheCoins s.1, cachedCoinsUsage s.1)
       = (Cache.BatchWrite_loop (map_to_list mapCoins) (cacheCoins c) (cachedCoinsUsage c)).1.
Proof.
  unfold Cache.BatchWrite.
  destruct (Cache.BatchWrite_loop _ _ _) as [[m' u'] [|x rest]]; by eexists.
Qed.

Lemma BatchWrite_returned c mapCoins hashBlockIn names ok c' rest :
  Cache.BatchWrite mapCoins hashBlockIn names c = Returned ok (c', rest) ->
  ok = true /\ rest = ∅
  /\ Cache.BatchWrite_loop (map_to_list mapCoins) (cacheCoins c) (cachedCoinsUsage c)
     = (cacheCoins c', cachedCoinsUsage c', [])
  /\ base c' = base c /\ hashBlock c' = hashBlockIn
  /\ cacheNames c' = NameCache.apply names (cacheNames c).
Proof.
  unfold Cache.BatchWrite.
  destruct (Cache.BatchWrite_loop _ _ _) as [[m' u'] [|x l]]; [|done].
  by intros [= <- <- <-].
Qed.

Lemma BatchWrite_thrown c mapCoins hashBlockIn names e c' rest :
  Cache.BatchWrite mapCoins hashBlockIn names c = Thrown e (c', rest) ->
  e = FreshAppliedToExisting
  /\ (Cache.BatchWrite_loop (map_to_list mapCoins) (cacheCoins c) (cachedCoinsUsage c)).2 <> []
  /\ base c' = base c /\ hashBlock c' = hashBlock c /\ cacheNames c' = cacheNames c.
Proof.
  unfold Cache.BatchWrite.
  destruct (Cache.BatchWrite_loop _ _ _) as [[m' u'] [|x l]]; [done|].
  by intros [= <- <- <-].
Qed.

End BatchWrite.

(** C4.  [BatchWrite] fails with [FreshAppliedToExisting] exactly when the
    child map has an entry that is DIRTY and FRESH at an outpoint where the
    receiving cache holds a live coin; it fails in no other way; the loop
    body throws under exactly that condition on the entry it processes,
    and an entry without DIRTY is skipped, leaving map and counter as
    they were. *)
Theorem BatchWrite_fresh_misapplied {V : Type} `{CCoinsView V} (c : CCoinsViewCache V)
    (mapCoins : CCoinsMap) (hashBlockIn : uint256) (names : CNameCache) :
  ((exists s, Cache.BatchWrite mapCoins hashBlockIn names c = Thrown FreshAppliedToExisting s)
   <-> exists k it us,
         mapCoins !! k = Some it /\ has_flag (flags it) DIRTY = true
         /\ has_flag (flags it) FRESH = true
         /\ cacheCoins c !! k = Some us /\ IsSpent (coin us) = false)
  /\ (forall e s, Cache.BatchWrite mapCoins hashBlockIn names c = Thrown e s ->
                  e = FreshAppliedToExisting)
  /\ Cache.BatchWrite mapCoins hashBlockIn names c <> Aborted
  /\ (forall k it m u,
        Cache.BatchWrite_entry k it m u = None
        <-> has_flag (flags it) DIRTY = true /\ has_flag (flags it) FRESH = true
            /\ exists us, m !! k = Some us /\ IsSpent (coin us) = false)
  /\ (forall k it m u,
        has_flag (flags it) DIRTY = false -> Cache.BatchWrite_entry k it m u = Some (m, u)).
Proof.
  pose proof (BatchWrite_loop_throws (map_to_list mapCoins) (cacheCoins c)
                (cachedCoinsUsage c) (NoDup_fst_map_to_list mapCoins)) as Hloop.
  assert (forall e s, Cache.BatchWrite mapCoins hashBlockIn names c = Thrown e s ->
                      e = FreshAppliedToExisting) as Honly.
  { intros e [c' rest] Hth. by apply BatchWrite_thrown in Hth as [-> _]. }
  split; [split|split; [exact Honly|split; [|split]]].
  - intros [[c' rest] Hth]. apply BatchWrite_thrown in Hth as (_ & Hne & _).
    apply Hloop in Hne as (k & it & us & Hin & ?).
    exists k, it, us. split; [by apply elem_of_map_to_list|done].
  - intros (k & it & us & Hin & Hrest).
    assert ((Cache.BatchWrite_loop (map_to_list mapCoins) (cacheCoins c)
               (cachedCoinsUsage c)).2 <> []) as Hne.
    { apply Hloop. exists k, it, us. split; [by apply elem_of_map_to_list|done]. }
    unfold Cache.BatchWrite.
    destruct (Cache.BatchWrite_loop _ _ _) as [[m' u'] [|x l]]; [done|]. by eexists.
  - unfold Cache.BatchWrite.
    by destruct (Cache.BatchWrite_loop _ _ _) as [[m' u'] [|x l]].
  - intros k it m u. apply BatchWrite_entry_throws.
  - apply BatchWrite_entry_not_dirty.
Qed.

(** ** C3: create-then-spend in the merge *)

(** C3 (as amended).  A child entry that is DIRTY, FRESH and spent, with no
    entry in the receiving cache, is dropped: its turn leaves map and
    counter as they were, and the slot is empty however [BatchWrite] ends.
    A child entry that is DIRTY and spent over a receiving entry flagged
    FRESH never overwrites that entry.  Unless the child entry is FRESH
    and the receiving coin is live, its turn erases the entry: the slot is
    empty whenever [BatchWrite] returns, and empty or untouched when
    another entry makes [BatchWrite] throw.  When the child entry is FRESH
    and the receiving coin is live, [BatchWrite] throws
    [FreshAppliedToExisting] and the receiving entry stays. *)
Theorem BatchWrite_spent_child_collapses {V : Type} `{CCoinsView V}
    (c : CCoinsViewCache V) (mapCoins : CCoinsMap) (hashBlockIn : uint256)
    (names : CNameCache) (k : COutPoint) (it : CCoinsCacheEntry) :
  mapCoins !! k = Some it ->
  has_flag (flags it) DIRTY = true ->
  IsSpent (coin it) = true ->
  (has_flag (flags it) FRESH = true ->
   (forall m u, m !! k = None -> Cache.BatchWrite_entry k it m u = Some (m, u))
   /\ (cacheCoins c !! k = None ->
       forall s, state_after (Cache.BatchWrite mapCoins hashBlockIn names c) = Some s ->
                 cacheCoins s.1 !! k = None))
  /\ (forall us,
        has_flag (flags us) FRESH = true ->
        (forall m u,
           m !! k = Some us ->
           has_flag (flags it) FRESH && negb (IsSpent (coin us)) = false ->
           Cache.BatchWrite_entry k it m u
           = Some (delete k m, size_t_wrap (u - DynamicMemoryUsage (coin us))))
        /\ (cacheCoins c !! k = Some us ->
            (forall c' rest,
               Cache.BatchWrite mapCoins hashBlockIn names c = Returned true (c', rest) ->
               cacheCoins c' !! k = None)
            /\ (has_flag (flags it) FRESH && negb (IsSpent (coin us)) = false ->
                forall s,
                  state_after (Cache.BatchWrite mapCoins hashBlockIn names c) = Some s ->
                  cacheCoins s.1 !! k = None \/ cacheCoins s.1 !! k = Some us)
            /\ (has_flag (flags it) FRESH && negb (IsSpent (coin us)) = true ->
                exists s,
                  Cache.BatchWrite mapCoins hashBlockIn names c
                  = Thrown FreshAppliedToExisting s
                  /\ cacheCoins s.1 !! k = Some us))).
Proof.
  intros Hin Hd Hs.
  assert ((k, it) ∈ map_to_list mapCoins) as Hel by by apply elem_of_map_to_list.
  pose proof (NoDup_fst_map_to_list mapCoins) as Hnd.
  split.
  - intros Hf. split.
    + intros m u Hlk. by apply BatchWrite_entry_drop.
    + intros Hlk s Hafter.
      destruct (BatchWrite_state c mapCoins hashBlockIn names) as (s' & Hs' & Hloop).
      rewrite Hafter in Hs'. injection Hs' as <-.
      destruct (Cache.BatchWrite_loop _ _ _) as [[m' u'] rest] eqn:Hl.
      simpl in Hloop. injection Hloop as -> _.
      by eapply BatchWrite_loop_drop.
  - intros us Hf. split.
    + intros m u Hlk Hno. by apply BatchWrite_entry_erase.
    + intros Hlk. split; [|split].
      * intros c' rest Hret.
        apply BatchWrite_returned in Hret as (_ & _ & Hloop & _).
        by eapply BatchWrite_loop_erase.
      * intros Hno s Hafter.
        destruct (BatchWrite_state c mapCoins hashBlockIn names) as (s' & Hs' & Hloop).
        rewrite Hafter in Hs'. injection Hs' as <-.
        destruct (Cache.BatchWrite_loop _ _ _) as [[m' u'] rest] eqn:Hl.
        simpl in Hloop. injection Hloop as -> _.
        by eapply BatchWrite_loop_erased_or_kept.
      * intros Hthrow. apply andb_true_iff in Hthrow as [Hfi Hlive].
        apply negb_true_iff in Hlive.
        assert ((Cache.BatchWrite_loop (map_to_list mapCoins) (cacheCoins c)
                   (cachedCoinsUsage c)).2 <> []) as Hne.
        { apply (BatchWrite_loop_throws _ _ _ Hnd). by exists k, it, us. }
        unfold Cache.BatchWrite.
        destruct (Cache.BatchWrite_loop _ _ _) as [[m' u'] [|x l]] eqn:Hl; [done|].
        eexists. split; [reflexivity|]. simpl.
        by eapply BatchWrite_loop_thrower_stays.
Qed.

Lemma BatchWrite_spent_child_collapses_witness :
  (exists s,
     state_after (Cache.BatchWrite child_spent_fresh 5%N NameCache.clear cache_empty) = Some s
     /\ cacheCoins s.1 !! outpoint1 = None)
  /\ (exists c',
        Cache.BatchWrite {[ outpoint1 := mkEntry coinEmpty DIRTY ]} 5%N NameCache.clear
                         cache_with_coin1
        = Returned true (c', ∅)
        /\ cacheCoins c' !! outpoint1 = None)
  /\ (exists s,
        Cache.BatchWrite child_spent_fresh 5%N NameCache.clear cache_with_coin1
        = Thrown FreshAppliedToExisting s
        /\ cacheCoins s.1 !! outpoint1 = Some (mkEntry coin1 (Z.lor DIRTY FRESH))).
Proof.
  split; [|split].
  - destruct (BatchWrite_spent_child_collapses cache_empty child_spent_fresh 5%N
                NameCache.clear outpoint1 (mkEntry coinEmpty (Z.lor DIRTY FRESH))
                eq_refl eq_refl eq_refl) as [Hdrop _].
    destruct (Hdrop eq_refl) as [_ Hslot].
    eexists. split; [vm_compute; reflexivity|].
    apply Hslot; [reflexivity|vm_compute; reflexivity].
  - assert (({[ outpoint1 := mkEntry coinEmpty DIRTY ]} : CCoinsMap) !! outpoint1
            = Some (mkEntry coinEmpty DIRTY)) as Hlk by reflexivity.
    destruct (BatchWrite_spent_child_collapses cache_with_coin1 _ 5%N
                NameCache.clear outpoint1 (mkEntry coinEmpty DIRTY)
                Hlk eq_refl eq_refl) as [_ Herase].
    destruct (Herase (mkEntry coin1 (Z.lor DIRTY FRESH)) eq_refl) as [_ Hslot].
    destruct (Hslot eq_refl) as [Hret _].
    eexists. split; [vm_compute; reflexivity|].
    eapply Hret. vm_compute. reflexivity.
  - destruct (BatchWrite_spent_child_collapses cache_with_coin1 child_spent_fresh 5%N
                NameCache.clear outpoint1 (mkEntry coinEmpty (Z.lor DIRTY FRESH))
                eq_refl eq_refl eq_refl) as [_ Herase].
    destruct (Herase (mkEntry coin1 (Z.lor DIRTY FRESH)) eq_refl) as [_ Hslot].
    destruct (Hslot eq_refl) as (_ & _ & Hthrow).
    apply Hthrow. reflexivity.
Defined.

(** The merge of [child_spent_fresh] into the empty cache writes nothing. *)
Example BatchWrite_spent_fresh_into_empty :
  exists c',
    Cache.BatchWrite child_spent_fresh 5%N NameCache.clear cache_empty = Returned true (c', ∅)
    /\ cacheCoins c' = ∅ /\ cachedCoinsUsage c' = 0.
Proof. eexists. split; [vm_compute; reflexivity|]. split; reflexivity. Qed.

(** A spent DIRTY child entry over the FRESH entry of [cache_with_coin1]:
    the entry is erased and the counter goes back to 0. *)
Example BatchWrite_spent_over_fresh_erases :
  exists c',
    Cache.BatchWrite {[ outpoint1 := mkEntry coinEmpty DIRTY ]} 5%N NameCache.clear
                     cache_with_coin1
    = Returned true (c', ∅)
    /\ cacheCoins c' = ∅ /\ cachedCoinsUsage c' = 0 /\ hashBlock c' = 5%N.
Proof. eexists. split; [vm_compute; reflexivity|]. repeat split. Qed.

(** C3, counterexample.  The child entry is DIRTY (and FRESH) and spent;
    the receiving cache holds [coin1], live, in an entry flagged FRESH.
    [BatchWrite] throws and the receiving entry is still there. *)
Lemma BatchWrite_spent_child_over_live_fresh_throws :
  child_spent_fresh !! outpoint1 = Some (mkEntry coinEmpty (Z.lor DIRTY FRESH))
  /\ has_flag (Z.lor DIRTY FRESH) DIRTY = true
  /\ IsSpent coinEmpty = true
  /\ cacheCoins cache_with_coin1 !! outpoint1 = Some (mkEntry coin1 (Z.lor DIRTY FRESH))
  /\ has_flag (Z.lor DIRTY FRESH) FRESH = true
  /\ Cache.BatchWrite child_spent_fresh 5%N NameCache.clear cache_with_coin1
     = Thrown FreshAppliedToExisting (cache_with_coin1, child_spent_fresh).
Proof. repeat split; vm_compute; reflexivity. Qed.

(** ** C5: Flush *)

Lemma NameCache_empty_clear : NameCache.empty NameCache.clear = true.
Proof. reflexivity. Qed.

(** C5.  With nothing cached and a null best block, [Flush] returns true
    and leaves the cache and its parent as they were, whatever the
    parent's [BatchWrite] would do.  Otherwise the result of [Flush] is the
    result of the parent's [BatchWrite] on the coin map, the best block and
    the name cache of this cache; when that succeeds the cache is left
    with an empty coin map, an empty name cache and a zero usage counter
    over the parent that [BatchWrite] produced. *)
Theorem Flush_writes_to_parent {V : Type} `{CCoinsView V} (c : CCoinsViewCache V) :
  (nothing_to_flush c = true -> Cache.Flush c = Returned true c)
  /\ (nothing_to_flush c = false ->
      (forall b rest,
         BatchWrite (base c) (cacheCoins c) (hashBlock c) (cacheNames c)
         = Returned true (b, rest) ->
         exists c',
           Cache.Flush c = Returned true c'
           /\ base c' = b /\ cacheCoins c' = ∅
           /\ NameCache.empty (cacheNames c') = true
           /\ cachedCoinsUsage c' = 0 /\ hashBlock c' = hashBlock c)
      /\ (forall ok c',
            Cache.Flush c = Returned ok c' ->
            exists rest,
              BatchWrite (base c) (cacheCoins c) (hashBlock c) (cacheNames c)
              = Returned ok (base c', rest)))
  /\ (IsNull (hashBlock c) = true -> cacheCoins c = ∅ ->
      cacheNames c = NameCache.clear -> nothing_to_flush c = true).
Proof.
  unfold Cache.Flush. fold (nothing_to_flush c). split; [|split].
  - by intros ->.
  - intros ->. split.
    + intros b rest ->. by eexists.
    + intros ok c'.
      destruct (BatchWrite (base c) _ _ _) as [ok' [b rest]|e [b rest]|]; [|done..].
      intros [= <- <-]. by eexists.
  - intros Hn Hm Hnames. unfold nothing_to_flush.
    rewrite Hn, Hnames, bool_decide_eq_true_2 by done. reflexivity.
Qed.

(** The base view refuses every [BatchWrite]; the no-op flush of the empty
    cache over it succeeds all the same: the parent is not asked. *)
Example Flush_empty_over_base :
  BatchWrite coins_view_base (cacheCoins cache_empty) (hashBlock cache_empty)
             (cacheNames cache_empty)
  = Returned false (coins_view_base, ∅)
  /\ Cache.Flush cache_empty = Returned true cache_empty.
Proof. split; reflexivity. Qed.

(** Over the base view a flush with something to write reports the
    failure of the parent, and the cache is cleared nevertheless. *)
Example Flush_coin1_over_base :
  Cache.Flush cache_with_coin1 = Returned false cache_empty.
Proof. vm_compute. reflexivity. Qed.

(** Spend-through-fresh collapses: after [AddCoin] and [SpendCoin] the
    map is empty again and the flush has nothing to write. *)
Example spend_through_fresh_collapses :
  (Cache.SpendCoin outpoint1 false cache_with_coin1).2 = cache_empty
  /\ Cache.Flush (Cache.SpendCoin outpoint1 false cache_with_coin1).2
     = Returned true cache_empty.
Proof. split; vm_compute; reflexivity. Qed.

(** Two-level merge: the flush moves the coin up, FRESH and DIRTY, and
    clears the child; the parent takes the child's (null) best block. *)
Example Flush_child_into_parent :
  Cache.Flush child_with_coin1 = Returned true (Cache.create cache_with_coin1).
Proof. vm_compute. reflexivity. Qed.

(** Spend-through-dirty persists: the parent holds [coin1]; the child
    spends it, which leaves a spent DIRTY entry, and the flush makes the
    parent report no coin at the outpoint. *)
Example spend_through_dirty_persists :
  cacheCoins (Cache.SpendCoin outpoint1 false cache_over_coin1).2
  = {[ outpoint1 := mkEntry coinEmpty DIRTY ]}
  /\ exists c',
       Cache.Flush (Cache.SpendCoin outpoint1 false cache_over_coin1).2 = Returned true c'
       /\ cacheCoins c' = ∅
       /\ GetCoin (base c') outpoint1 = None.
Proof.
  split; [vm_compute; reflexivity|].
  eexists. split; [vm_compute; reflexivity|]. split; reflexivity.
Qed.

(** ** C9: the best-block marker *)

(** C9 (as amended).  Across one call the best-block marker changes in
    three ways only: [SetBestBlock] stores its argument; a returning
    [BatchWrite] stores the hash it was given (a throwing one stores
    nothing); and [GetBestBlock], called while the marker is null, stores
    the best block of the parent.  Every other call, [GetCoin] and [Flush]
    included, leaves the marker as it was. *)
Theorem hashBlock_after_call {V : Type} `{CCoinsView V} (fNameHistory : bool)
    (call : Call) (c c' : CCoinsViewCache V) :
  after_call fNameHistory call c = Some c' ->
  hashBlock c' =
  match call with
  | CallSetBestBlock hashBlockIn => hashBlockIn
  | CallBatchWrite mapCoins hashBlockIn names =>
    match Cache.BatchWrite mapCoins hashBlockIn names c with
    | Returned _ _ => hashBlockIn
    | _ => hashBlock c
    end
  | CallGetBestBlock =>
    if IsNull (hashBlock c) then GetBestBlock (base c) else hashBlock c
  | _ => hashBlock c
  end.
Proof.
  destruct call; simpl.
  - intros [= <-]. unfold Cache.GetCoin, Cache.FetchCoin.
    by repeat case_match; simplify_eq.
  - intros [= <-]. unfold Cache.HaveCoin, Cache.FetchCoin.
    by repeat case_match; simplify_eq.
  - by intros [= <-].
  - intros [= <-]. unfold Cache.AccessCoin, Cache.FetchCoin.
    by repeat case_match; simplify_eq.
  - unfold Cache.AddCoin. repeat case_match; simpl; by intros [= <-].
  - intros [= <-]. unfold Cache.EmplaceCoinInternalDANGER. by case_match.
  - intros [= <-]. unfold Cache.SpendCoin, Cache.FetchCoin.
    by repeat case_match; simplify_eq.
  - intros [= <-]. unfold Cache.Uncache. by repeat case_match.
  - intros [= <-]. unfold Cache.GetBestBlock. by case_match.
  - by intros [= <-].
  - by intros [= <-].
  - by intros [= <-].
  - by intros [= <-].
  - unfold Cache.SetName. repeat case_match; simpl; try done;
      try (by intros [= <-]).
    all: unfold NameHistory.pop; repeat case_match; simpl; try done;
      by intros [= <-].
  - unfold Cache.DeleteName. repeat case_match; simpl; try done; by intros [= <-].
  - destruct (Cache.BatchWrite mapCoins hashBlockIn names c) as [ok [c1 r]|e [c1 r]|] eqn:Hb;
      simpl; [| |done].
    + intros [= <-]. by apply BatchWrite_returned in Hb as (_ & _ & _ & _ & ? & _).
    + intros [= <-]. by apply BatchWrite_thrown in Hb as (_ & _ & _ & ? & _).
  - unfold Cache.Flush. repeat case_match; simpl; try done; by intros [= <-].
  - by intros [= <-].
Qed.

Lemma hashBlock_after_call_witness :
  hashBlock (Cache.SetBestBlock 7%N cache_empty) = 7%N.
Proof.
  apply (hashBlock_after_call false (CallSetBestBlock 7%N) cache_empty
           (Cache.SetBestBlock 7%N cache_empty)).
  reflexivity.
Defined.

(** C9, counterexample.  The marker of a new cache is null; the read
    [GetBestBlock] makes it the parent's best block, which is not null,
    without any [BatchWrite] or [SetBestBlock] on this cache. *)
Lemma GetBestBlock_sets_hashBlock :
  IsNull (hashBlock cache_over_best7) = true
  /\ exists c',
       after_call false CallGetBestBlock cache_over_best7 = Some c'
       /\ hashBlock c' = 7%N
       /\ IsNull (hashBlock c') = false.
Proof. split; [reflexivity|]. eexists. repeat split. Qed.

(** ** C7: FRESH entries and spent coins *)







Section FreshSpent.

Context {V : Type} `{CCoinsView V}.

(** The parent reports live coins only. *)
Hypothesis parent_reports_live :
  forall (v : V) outpoint x, GetCoin v outpoint = Some x -> IsSpent x = false.

(** A parent whose [BatchWrite] throws leaves part of the map it was
    handed. *)
Hypothesis parent_leaves_part :
  forall (v v' : V) mapCoins hashBlockIn names e rest,
    BatchWrite v mapCoins hashBlockIn names = Thrown e (v', rest) -> rest ⊆ mapCoins.

Variable fNameHistory : bool.

Implicit Types c : CCoinsViewCache V.






End FreshSpent.


Lemma cache_reports_live {V : Type} `{CCoinsView V} (v : CCoinsViewCache V) outpoint x :
  GetCoin v outpoint = Some x -> IsSpent x = false.
Proof.
  simpl. unfold Cache.GetCoin.
  destruct (Cache.FetchCoin outpoint v) as [[e|] c']; simpl; [|done].
  destruct (IsSpent (coin e)) eqn:Hs; [done|]. by intros [= <-].
Qed.





(** ** C8: SetName and its undo *)

Lemma elem_of_updateNamesForHeight (nc : CNameCache) (height : N)
    (names : gset valtype) (name : valtype) :
  name ∈ NameCache.updateNamesForHeight nc height names
  <-> nc_expire nc !! (height, name) = Some ExpireAdd
      \/ (nc_expire nc !! (height, name) = None /\ name ∈ names).
Proof.
  unfold NameCache.updateNamesForHeight.
  apply (map_fold_weak_ind
           (fun (r : gset valtype) (m : gmap (N * valtype) ExpireChange) =>
              name ∈ r <-> m !! (height, name) = Some ExpireAdd
                           \/ (m !! (height, name) = None /\ name ∈ names))).
  - rewrite lookup_empty. naive_solver.
  - intros [h' name'] ch m r Hnone IH. simpl.
    destruct (decide ((h', name') = (height, name))) as [[= -> ->]|Hne].
    + rewrite lookup_insert_eq, decide_True by done.
      destruct ch; [set_solver|]. split; [set_solver|]. naive_solver.
    + rewrite lookup_insert_ne by done.
      destruct (decide (h' = height)) as [->|Hh]; [|done].
      assert (name' <> name) by congruence.
      destruct ch; rewrite <- IH; set_solver.
Qed.

Section NameUndo.

Context {V : Type} `{CCoinsView V}.

Implicit Types c : CCoinsViewCache V.

Lemma GetName_set name data nc c m :
  Cache.GetName m (Cache.set_names (NameCache.set name data nc) c)
  = if decide (name = m) then Some data else Cache.GetName m (Cache.set_names nc c).
Proof.
  unfold Cache.GetName, NameCache.isDeleted, NameCache.get. simpl.
  rewrite lookup_insert. by destruct (decide (name = m)).
Qed.

Lemma GetNamesForHeight_ext c c' height :
  base c' = base c ->
  (forall name, nc_expire (cacheNames c') !! (height, name)
                = nc_expire (cacheNames c) !! (height, name)) ->
  Cache.GetNamesForHeight height c' = Cache.GetNamesForHeight height c.
Proof.
  intros Hb Hexp. unfold Cache.GetNamesForHeight. rewrite Hb.
  destruct (GetNamesForHeight (base c) height) as [names|]; [|done].
  f_equal. apply set_eq. intros name.
  by rewrite !elem_of_updateNamesForHeight, Hexp.
Qed.

Lemma SetName_forward fNameHistory c name data old :
  Cache.GetName name c = Some old ->
  Cache.SetName fNameHistory name data false c
  = Some (Cache.set_names
            (names_after_SetName fNameHistory false name data old (history_of name c)
               (cacheNames c)) c).
Proof.
  intros Hget. unfold Cache.SetName. rewrite Hget. by destruct fNameHistory.
Qed.

Lemma SetName_undo fNameHistory c name data cur rest :
  Cache.GetName name c = Some cur ->
  (fNameHistory = true -> history_of name c = data :: rest) ->
  Cache.SetName fNameHistory name data true c
  = Some (Cache.set_names
            (names_after_SetName fNameHistory true name data cur (history_of name c)
               (cacheNames c)) c).
Proof.
  intros Hget Hhist. unfold Cache.SetName. rewrite Hget.
  destruct fNameHistory; [|done].
  specialize (Hhist eq_refl).
  unfold history_of, Cache.GetNameHistory, NameCache.getHistory in *. simpl.
  rewrite Hhist. simpl. by rewrite decide_True.
Qed.

End NameUndo.

(** C8 (as amended).  Let [old] be the record [GetName] reports for a name.
    [SetName(name, data, false)] followed by [SetName(name, old, true)]
    both pass their assertions and restore what [GetName] reports for
    every name and what [GetNameHistory] reports for every other name.
    With name-history tracking enabled the forward call pushes [old] on
    the stack of the name and the undo pops it, the popped record being
    the data it sets; afterwards [GetNameHistory] reports for the name the
    stack it had before, which is what it reported before when the name
    had a history, and an empty stack, no longer a failure, when it had
    none.  With tracking disabled neither call touches a history.  What
    [GetNamesForHeight] reports is restored at every height when the index
    listed the name exactly at the height of [old]. *)
Theorem SetName_undo_restores {V : Type} `{CCoinsView V} (fNameHistory : bool)
    (c : CCoinsViewCache V) (name : valtype) (data old : CNameData) :
  Cache.GetName name c = Some old ->
  exists c1 c2,
    Cache.SetName fNameHistory name data false c = Some c1
    /\ Cache.SetName fNameHistory name old true c1 = Some c2
    /\ Cache.GetName name c1 = Some data
    /\ (forall m, Cache.GetName m c2 = Cache.GetName m c)
    /\ (forall m, history_of m c2 = history_of m c)
    /\ (forall m, m <> name ->
                  Cache.GetNameHistory m c1 = Cache.GetNameHistory m c
                  /\ Cache.GetNameHistory m c2 = Cache.GetNameHistory m c)
    /\ (if fNameHistory
        then history_of name c1 = NameHistory.push old (history_of name c)
             /\ NameHistory.pop old (history_of name c1) = Some (history_of name c2)
             /\ Cache.GetNameHistory name c1
                = Some (NameHistory.push old (history_of name c))
             /\ Cache.GetNameHistory name c2 = Some (history_of name c)
             /\ (forall h, Cache.GetNameHistory name c = Some h ->
                           Cache.GetNameHistory name c2 = Some h)
             /\ (Cache.GetNameHistory name c = None ->
                 Cache.GetNameHistory name c2 = Some [])
        else forall m, Cache.GetNameHistory m c1 = Cache.GetNameHistory m c
                       /\ Cache.GetNameHistory m c2 = Cache.GetNameHistory m c)
    /\ ((forall height names,
           Cache.GetNamesForHeight height c = Some names ->
           (name ∈ names <-> height = getHeight old)) ->
        forall height, Cache.GetNamesForHeight height c2 = Cache.GetNamesForHeight height c).
Proof.
  intros Hget.
  pose proof (SetName_forward fNameHistory c name data old Hget) as Hfwd.
  set (c1 := Cache.set_names
               (names_after_SetName fNameHistory false name data old
                  (history_of name c) (cacheNames c)) c) in *.
  assert (Cache.GetName name c1 = Some data) as Hget1.
  { unfold Cache.GetName, NameCache.isDeleted, NameCache.get. simpl.
    by rewrite lookup_insert_eq. }
  assert (fNameHistory = true ->
          Cache.GetNameHistory name c1 = Some (old :: history_of name c)) as Hg1.
  { intros ->. unfold Cache.GetNameHistory at 1, NameCache.getHistory.
    simpl. by rewrite lookup_insert_eq. }
  assert (fNameHistory = true -> history_of name c1 = old :: history_of name c) as Hh1.
  { intros Hf. unfold history_of at 1. by rewrite (Hg1 Hf). }
  pose proof (SetName_undo fNameHistory c1 name old data (history_of name c) Hget1 Hh1)
    as Hundo.
  set (c2 := Cache.set_names _ c1) in *.
  exists c1, c2. split; [done|]. split; [done|]. split; [done|].
  assert (fNameHistory = true ->
          Cache.GetNameHistory name c2 = Some (history_of name c)) as Hg2.
  { intros Hf. pose proof (Hh1 Hf) as Hh.
    unfold Cache.GetNameHistory at 1, NameCache.getHistory.
    subst c2. simpl. rewrite Hf. rewrite lookup_insert_eq. by rewrite Hh. }
  assert (forall m, m <> name ->
            Cache.GetNameHistory m c1 = Cache.GetNameHistory m c
            /\ Cache.GetNameHistory m c2 = Cache.GetNameHistory m c) as Hother.
  { intros m Hne. unfold Cache.GetNameHistory, NameCache.getHistory.
    destruct fNameHistory; simpl; [|done].
    by rewrite !lookup_insert_ne. }
  assert (forall m, history_of m c2 = history_of m c) as Hh2.
  { intros m. destruct (decide (m = name)) as [->|Hne].
    - destruct fNameHistory eqn:Hf.
      + unfold history_of at 1. by rewrite (Hg2 eq_refl).
      + by unfold history_of, Cache.GetNameHistory, NameCache.getHistory.
    - unfold history_of. by rewrite (proj2 (Hother m Hne)). }
  split; [|split; [exact Hh2|split; [exact Hother|split]]].
  - intros m. unfold Cache.GetName, NameCache.isDeleted, NameCache.get. simpl.
    rewrite insert_insert_eq. destruct (decide (name = m)) as [->|Hne].
    + rewrite lookup_insert_eq. by rewrite <- Hget.
    + by rewrite lookup_insert_ne.
  - destruct fNameHistory eqn:Hf.
    + split; [exact (Hh1 eq_refl)|].
      split; [rewrite (Hh1 eq_refl), Hh2; simpl; by rewrite decide_True|].
      split; [exact (Hg1 eq_refl)|]. split; [exact (Hg2 eq_refl)|].
      split.
      * intros h Hh. rewrite (Hg2 eq_refl). unfold history_of. by rewrite Hh.
      * intros Hh. rewrite (Hg2 eq_refl). unfold history_of. by rewrite Hh.
    + intros m. by split.
  - intros Hidx height. unfold Cache.GetNamesForHeight. simpl.
    destruct (GetNamesForHeight (base c) height) as [names|] eqn:Hb; [|done].
    f_equal. apply set_eq. intros m.
    rewrite !elem_of_updateNamesForHeight. simpl.
    specialize (Hidx height (NameCache.updateNamesForHeight (cacheNames c) height names)).
    unfold Cache.GetNamesForHeight in Hidx. rewrite Hb in Hidx.
    specialize (Hidx eq_refl). rewrite elem_of_updateNamesForHeight in Hidx.
    destruct (decide ((getHeight old, name) = (height, m))) as [[= <- <-]|Hne1].
    + rewrite lookup_insert_eq. split; [|by left]. intros _. by apply Hidx.
    + rewrite lookup_insert_ne by done.
      destruct (decide ((getHeight data, name) = (height, m))) as [[= <- <-]|Hne2].
      * rewrite lookup_insert_eq. split; [naive_solver|].
        intros Hin. apply Hidx in Hin. congruence.
      * by rewrite !lookup_insert_ne.
Qed.

Example cache_named_built :
  Cache.SetName true name_a data_old false cache_empty = Some cache_named
  /\ Cache.SetName false name_a data_old false cache_empty = Some cache_named.
Proof. split; vm_compute; reflexivity. Qed.

(** Over the table that holds [data_old] for the name and lists it at its
    height: no history is known before the round trip, an empty stack is
    recorded after it, and the listing of every height is restored. *)
Lemma SetName_undo_restores_witness :
  exists c1 c2,
    Cache.SetName true name_a data_new false cache_over_name_table = Some c1
    /\ Cache.SetName true name_a data_old true c1 = Some c2
    /\ Cache.GetName name_a c1 = Some data_new
    /\ (forall m, Cache.GetName m c2 = Cache.GetName m cache_over_name_table)
    /\ (forall m, m <> name_a ->
                  Cache.GetNameHistory m c2 = Cache.GetNameHistory m cache_over_name_table)
    /\ Cache.GetNameHistory name_a cache_over_name_table = None
    /\ Cache.GetNameHistory name_a c1 = Some [data_old]
    /\ Cache.GetNameHistory name_a c2 = Some []
    /\ (forall height,
          Cache.GetNamesForHeight height c2
          = Cache.GetNamesForHeight height cache_over_name_table).
Proof.
  assert (Cache.GetName name_a cache_over_name_table = Some data_old) as Hget
    by (vm_compute; reflexivity).
  destruct (SetName_undo_restores true cache_over_name_table name_a data_new data_old
              Hget)
    as (c1 & c2 & Hfwd & Hundo & Hget1 & Hget2 & _ & Hother & Hhist & Hindex).
  destruct Hhist as (_ & _ & Hpush & _ & _ & Hnone).
  exists c1, c2. split; [exact Hfwd|]. split; [exact Hundo|]. split; [exact Hget1|].
  split; [exact Hget2|]. split; [intros m Hne; exact (proj2 (Hother m Hne))|].
  split; [reflexivity|]. split; [exact Hpush|]. split; [exact (Hnone eq_refl)|].
  apply Hindex. intros height names Hnames.
  unfold Cache.GetNamesForHeight in Hnames. simpl in Hnames.
  injection Hnames as <-. rewrite elem_of_updateNamesForHeight. simpl.
  rewrite lookup_empty.
  destruct (decide (height = 100%N)) as [->|Hne].
  - split; [done|]. intros _. right. split; [done|].
    rewrite lookup_singleton_eq. simpl. by apply elem_of_singleton.
  - split; [|done]. intros [Hadd|[_ Hin]]; [done|].
    rewrite lookup_singleton_ne in Hin by done.
    simpl in Hin. by apply elem_of_empty in Hin.
Defined.

(** The reorg round trip with history tracking, computed: the forward call
    pushes [data_old], the undo pops it and the entry is [data_old]
    again. *)
Example SetName_round_trip_computed :
  exists c1 c2,
    Cache.SetName true name_a data_new false cache_named = Some c1
    /\ Cache.GetNameHistory name_a c1 = Some [data_old]
    /\ Cache.SetName true name_a data_old true c1 = Some c2
    /\ Cache.GetName name_a c2 = Some data_old
    /\ Cache.GetNameHistory name_a c2 = Some [].
Proof.
  eexists _, _. split; [vm_compute; reflexivity|].
  split; [vm_compute; reflexivity|]. split; [vm_compute; reflexivity|].
  split; vm_compute; reflexivity.
Qed.

(** Over a backend that lists the name at its height only, the round trip
    leaves the names reported for the two heights as they were. *)
Example SetName_round_trip_index_restored :
  exists c1 c2,
    Cache.SetName true name_a data_new false cache_over_name_table = Some c1
    /\ Cache.GetNamesForHeight 100 c1 = Some ∅
    /\ Cache.GetNamesForHeight 120 c1 = Some {[ name_a ]}
    /\ Cache.SetName true name_a data_old true c1 = Some c2
    /\ Cache.GetNamesForHeight 100 c2 = Cache.GetNamesForHeight 100 cache_over_name_table
    /\ Cache.GetNamesForHeight 120 c2 = Cache.GetNamesForHeight 120 cache_over_name_table.
Proof.
  eexists _, _. split; [vm_compute; reflexivity|].
  split; [vm_compute; reflexivity|]. split; [vm_compute; reflexivity|].
  split; [vm_compute; reflexivity|]. split; vm_compute; reflexivity.
Qed.

(** The condition on the index is needed: over a backend with a stale
    listing of the name at the new height, the round trip removes that
    listing. *)
Example SetName_round_trip_stale_index :
  Cache.GetName name_a cache_over_stale_index = Some data_old
  /\ Cache.GetNamesForHeight 120 cache_over_stale_index = Some {[ name_a ]}
  /\ exists c1 c2,
       Cache.SetName true name_a data_new false cache_over_stale_index = Some c1
       /\ Cache.SetName true name_a data_old true c1 = Some c2
       /\ Cache.GetNamesForHeight 120 c2 = Some ∅.
Proof.
  split; [reflexivity|]. split; [vm_compute; reflexivity|].
  eexists _, _. split; [vm_compute; reflexivity|].
  split; vm_compute; reflexivity.
Qed.

(** C8, counterexample.  With name-history tracking disabled, the forward
    [SetName] over the prior record [data_old] pushes nothing: the name
    has no history afterwards. *)
Lemma SetName_without_tracking_pushes_nothing :
  Cache.GetName name_a cache_named = Some data_old
  /\ exists c1,
       Cache.SetName false name_a data_new false cache_named = Some c1
       /\ Cache.GetNameHistory name_a c1 = None
       /\ history_of name_a c1 <> NameHistory.push data_old (history_of name_a cache_named).
Proof.
  split; [reflexivity|]. eexists. split; [vm_compute; reflexivity|].
  split; [vm_compute; reflexivity|]. vm_compute. discriminate.
Qed.

(** ** C6: the usage counter *)

Lemma coins_usage_empty : coins_usage ∅ = 0.
Proof. apply map_fold_empty. Qed.

Lemma coins_usage_insert_new m k e :
  m !! k = None -> coins_usage (<[k := e]> m) = coins_usage m + DynamicMemoryUsage (coin e).
Proof.
  intros Hlk. unfold coins_usage. rewrite map_fold_insert_L; [done| |done].
  intros. lia.
Qed.

Lemma coins_usage_delete m k e :
  m !! k = Some e -> coins_usage (delete k m) = coins_usage m - DynamicMemoryUsage (coin e).
Proof.
  intros Hlk. unfold coins_usage.
  rewrite (map_fold_delete_L _ _ k e m); [lia| |done]. intros. lia.
Qed.

Lemma coins_usage_insert m k e e0 :
  m !! k = Some e0 ->
  coins_usage (<[k := e]> m)
  = coins_usage m - DynamicMemoryUsage (coin e0) + DynamicMemoryUsage (coin e).
Proof.
  intros Hlk. rewrite <- insert_delete_eq.
  rewrite coins_usage_insert_new by apply lookup_delete_eq.
  by rewrite (coins_usage_delete _ _ _ Hlk).
Qed.

Lemma size_t_wrap_add_l a b : size_t_wrap (size_t_wrap a + b) = size_t_wrap (a + b).
Proof. unfold size_t_wrap. apply Zplus_mod_idemp_l. Qed.

Lemma size_t_wrap_sub_l a b : size_t_wrap (size_t_wrap a - b) = size_t_wrap (a - b).
Proof. unfold size_t_wrap. apply Zminus_mod_idemp_l. Qed.

Lemma DynamicMemoryUsage_coinEmpty : DynamicMemoryUsage coinEmpty = 0.
Proof. reflexivity. Qed.

Section Usage.

Context {V : Type} `{CCoinsView V}.

Implicit Types c : CCoinsViewCache V.

Lemma FetchCoin_usage c outpoint :
  usage_accounted c -> usage_accounted (Cache.FetchCoin outpoint c).2.
Proof.
  unfold usage_accounted, Cache.FetchCoin. intros Hu.
  destruct (cacheCoins c !! outpoint) eqn:Hlk; [done|].
  destruct (GetCoin (base c) outpoint) as [tmp|]; [|done]. simpl.
  by rewrite Hu, size_t_wrap_add_l, coins_usage_insert_new.
Qed.

(** A returning [AddCoin] keeps the counter equal to the sum. *)
Lemma AddCoin_returned_usage c outpoint coin0 possible_overwrite c' :
  usage_accounted c ->
  Cache.AddCoin outpoint coin0 possible_overwrite c = Returned tt c' ->
  usage_accounted c'.
Proof.
  unfold usage_accounted, Cache.AddCoin. intros Hu.
  destruct (IsSpent coin0); [done|].
  destruct (IsUnspendable _); [by intros [= <-]|].
  destruct (cacheCoins c !! outpoint) as [e|] eqn:Hlk; simpl.
  - destruct (negb possible_overwrite && negb (IsSpent (coin e))); [done|].
    intros [= <-]. simpl.
    by rewrite Hu, size_t_wrap_sub_l, size_t_wrap_add_l, (coins_usage_insert _ _ _ e).
  - rewrite andb_false_r. intros [= <-]. simpl.
    rewrite insert_insert_eq, Hu, size_t_wrap_add_l.
    by rewrite coins_usage_insert_new.
Qed.

(** A throwing [AddCoin] has subtracted the usage of the coin it found and
    left that coin in the map. *)
Lemma AddCoin_thrown_usage c outpoint coin0 possible_overwrite e c' :
  Cache.AddCoin outpoint coin0 possible_overwrite c = Thrown e c' ->
  exists it,
    cacheCoins c !! outpoint = Some it /\ IsSpent (coin it) = false
    /\ e = OverwriteUnspent /\ cacheCoins c' = cacheCoins c
    /\ cachedCoinsUsage c'
       = size_t_wrap (cachedCoinsUsage c - DynamicMemoryUsage (coin it)).
Proof.
  unfold Cache.AddCoin.
  destruct (IsSpent coin0); [done|]. destruct (IsUnspendable _); [done|].
  destruct (cacheCoins c !! outpoint) as [it|] eqn:Hlk; simpl.
  - destruct possible_overwrite; simpl; [done|].
    destruct (IsSpent (coin it)) eqn:Hs; simpl; [done|].
    intros Heq. inversion Heq; subst. by exists it.
  - by rewrite andb_false_r.
Qed.

Lemma SpendCoin_usage c outpoint moveout :
  usage_accounted c -> usage_accounted (Cache.SpendCoin outpoint moveout c).2.
Proof.
  intros Hu. apply (FetchCoin_usage c outpoint) in Hu.
  unfold Cache.SpendCoin.
  destruct (Cache.FetchCoin outpoint c) as [[it|] c1] eqn:Hfetch; [|done].
  assert (cacheCoins c1 !! outpoint = Some it) as Hlk.
  { pose proof (FetchCoin_found c outpoint it) as Hfound.
    rewrite Hfetch in Hfound. by apply Hfound. }
  unfold usage_accounted in *. simpl in Hu.
  destruct (has_flag (flags it) FRESH); simpl.
  - by rewrite Hu, size_t_wrap_sub_l, (coins_usage_delete _ _ it).
  - rewrite Hu, size_t_wrap_sub_l, (coins_usage_insert _ _ _ it) by done. simpl.
    by rewrite DynamicMemoryUsage_coinEmpty, Z.add_0_r.
Qed.

Lemma Uncache_usage c outpoint : usage_accounted c -> usage_accounted (Cache.Uncache outpoint c).
Proof.
  unfold usage_accounted, Cache.Uncache. intros Hu.
  destruct (cacheCoins c !! outpoint) as [it|] eqn:Hlk; [|done].
  destruct (flags it =? 0); [|done]. simpl.
  by rewrite Hu, size_t_wrap_sub_l, (coins_usage_delete _ _ it).
Qed.

End Usage.

Lemma BatchWrite_entry_usage k it m u m' u' :
  u = size_t_wrap (coins_usage m) ->
  Cache.BatchWrite_entry k it m u = Some (m', u') ->
  u' = size_t_wrap (coins_usage m').
Proof.
  intros ->. unfold Cache.BatchWrite_entry.
  destruct (has_flag (flags it) DIRTY); simpl; [|by intros [= <- <-]].
  destruct (m !! k) as [us|] eqn:Hlk.
  - destruct (_ && negb _); [done|].
    destruct (_ && _).
    + intros [= <- <-]. by rewrite size_t_wrap_sub_l, (coins_usage_delete _ _ us).
    + intros [= <- <-].
      by rewrite size_t_wrap_sub_l, size_t_wrap_add_l, (coins_usage_insert _ _ _ us).
  - destruct (_ && _); [by intros [= <- <-]|].
    intros [= <- <-]. by rewrite size_t_wrap_add_l, coins_usage_insert_new.
Qed.

Lemma BatchWrite_loop_usage l m u :
  u = size_t_wrap (coins_usage m) ->
  (Cache.BatchWrite_loop l m u).1.2 = size_t_wrap (coins_usage (Cache.BatchWrite_loop l m u).1.1).
Proof.
  revert m u. induction l as [|[k it] l IH]; intros m u Hu; simpl; [done|].
  destruct (Cache.BatchWrite_entry k it m u) as [[m1 u1]|] eqn:Hstep; [|done].
  apply IH. by eapply BatchWrite_entry_usage.
Qed.

(** [BatchWrite] keeps the counter of the receiving cache equal to the
    sum, also when it throws. *)
Lemma BatchWrite_usage {V : Type} `{CCoinsView V} (c : CCoinsViewCache V)
    mapCoins hashBlockIn names s :
  usage_accounted c ->
  state_after (Cache.BatchWrite mapCoins hashBlockIn names c) = Some s ->
  usage_accounted s.1.
Proof.
  intros Hu Hafter.
  destruct (BatchWrite_state c mapCoins hashBlockIn names) as (s' & Hs' & Hloop).
  rewrite Hafter in Hs'. injection Hs' as <-.
  pose proof (BatchWrite_loop_usage (map_to_list mapCoins) _ _ Hu) as Hl.
  rewrite <- Hloop in Hl. exact Hl.
Qed.

(** Every call keeps the counter equal to the sum, three exits apart: an
    [AddCoin] that throws, [EmplaceCoinInternalDANGER] on a slot that is
    taken, and a [Flush] whose parent throws. *)
Lemma after_call_usage_accounted {V : Type} `{CCoinsView V} (fNameHistory : bool)
    (call : Call) (c c' : CCoinsViewCache V) :
  usage_accounted c ->
  after_call fNameHistory call c = Some c' ->
  (forall outpoint coin0 possible_overwrite e s,
     call = CallAddCoin outpoint coin0 possible_overwrite ->
     Cache.AddCoin outpoint coin0 possible_overwrite c <> Thrown e s) ->
  (forall outpoint coin0,
     call = CallEmplaceCoinInternalDANGER outpoint coin0 ->
     cacheCoins c !! outpoint = None) ->
  (forall e s, call = CallFlush -> Cache.Flush c <> Thrown e s) ->
  usage_accounted c'.
Proof.
  intros Hu Hafter Hadd Hemplace Hflush. destruct call; simpl in Hafter.
  - injection Hafter as <-. pose proof (FetchCoin_usage c outpoint Hu).
    unfold Cache.GetCoin. by destruct (Cache.FetchCoin outpoint c) as [[?|] ?].
  - injection Hafter as <-. pose proof (FetchCoin_usage c outpoint Hu).
    unfold Cache.HaveCoin. by destruct (Cache.FetchCoin outpoint c) as [[?|] ?].
  - by injection Hafter as <-.
  - injection Hafter as <-. pose proof (FetchCoin_usage c outpoint Hu).
    unfold Cache.AccessCoin. by destruct (Cache.FetchCoin outpoint c) as [[?|] ?].
  - destruct (Cache.AddCoin outpoint coin0 possible_overwrite c) as [[] s|e s|] eqn:Hret;
      simpl in Hafter; [| |done].
    + injection Hafter as <-. by eapply AddCoin_returned_usage.
    + by destruct (Hadd outpoint coin0 possible_overwrite e s eq_refl).
  - injection Hafter as <-. unfold Cache.EmplaceCoinInternalDANGER.
    rewrite (Hemplace outpoint coin0 eq_refl). unfold usage_accounted in *. simpl.
    rewrite Hu, size_t_wrap_add_l, coins_usage_insert_new; [done|].
    by apply Hemplace with coin0.
  - injection Hafter as <-. by apply SpendCoin_usage.
  - injection Hafter as <-. by apply Uncache_usage.
  - injection Hafter as <-. unfold Cache.GetBestBlock. by destruct (IsNull (hashBlock c)).
  - by injection Hafter as <-.
  - by injection Hafter as <-.
  - by injection Hafter as <-.
  - by injection Hafter as <-.
  - revert Hafter. unfold Cache.SetName. repeat case_match; simpl; try done;
      try (by intros [= <-]).
    all: unfold NameHistory.pop; repeat case_match; simpl; try done;
      by intros [= <-].
  - revert Hafter. unfold Cache.DeleteName.
    repeat case_match; simpl; try done; by intros [= <-].
  - destruct (state_after (Cache.BatchWrite mapCoins hashBlockIn names c)) as [s|] eqn:Hs;
      simpl in Hafter; [|done].
    injection Hafter as <-. by eapply BatchWrite_usage.
  - revert Hafter. unfold Cache.Flush in *. destruct (_ && _); simpl; [by intros [= <-]|].
    destruct (BatchWrite (base c) _ _ _) as [ok [b rest]|e [b rest]|]; simpl; [| |done].
    + intros [= <-]. unfold usage_accounted. simpl. by rewrite coins_usage_empty.
    + intros _. exfalso. by eapply Hflush.
  - by injection Hafter as <-.
Qed.

(** Whenever [AddCoin] throws over a coin that owns heap memory, the
    counter no longer equals the sum. *)
Lemma AddCoin_thrown_not_accounted {V : Type} `{CCoinsView V} (c c' : CCoinsViewCache V)
    outpoint coin0 possible_overwrite e it :
  usage_accounted c ->
  Cache.AddCoin outpoint coin0 possible_overwrite c = Thrown e c' ->
  cacheCoins c !! outpoint = Some it ->
  0 < DynamicMemoryUsage (coin it) < 2 ^ 64 ->
  ~ usage_accounted c'.
Proof.
  intros Hu Hthrown Hlk Hdyn Hu'.
  apply AddCoin_thrown_usage in Hthrown as (it' & Hlk' & _ & _ & Hm & Hcount).
  rewrite Hlk in Hlk'. injection Hlk' as <-.
  unfold usage_accounted in *. rewrite Hm, Hcount, Hu, size_t_wrap_sub_l in Hu'.
  unfold size_t_wrap in Hu'.
  set (S := coins_usage (cacheCoins c)) in *.
  set (D := DynamicMemoryUsage (coin it)) in *.
  assert (D mod 2 ^ 64 = 0) as Hzero.
  { replace D with (S - (S - D)) at 1 by lia.
    rewrite Zminus_mod, Hu', Z.sub_diag. reflexivity. }
  rewrite Z.mod_small in Hzero by lia. lia.
Qed.

(** C6 (the code at the failing input).  The cache holds [coin1], 40 bytes
    of script, at [outpoint1], and its counter equals the sum.
    [AddCoin(outpoint1, coin2, false)] throws [OverwriteUnspent]; at that
    boundary the map still holds [coin1], the sum is still 40, and the
    counter is 0. *)
Theorem AddCoin_overwrite_throw_breaks_accounting :
  usage_accounted cache_with_coin1
  /\ exists c',
       Cache.AddCoin outpoint1 coin2 false cache_with_coin1 = Thrown OverwriteUnspent c'
       /\ cacheCoins c' = cacheCoins cache_with_coin1
       /\ coins_usage (cacheCoins c') = 40
       /\ cachedCoinsUsage c' = 0
       /\ ~ usage_accounted c'.
Proof.
  split; [vm_compute; reflexivity|].
  eexists. split; [vm_compute; reflexivity|].
  split; [reflexivity|]. split; [vm_compute; reflexivity|]. split; [reflexivity|].
  unfold usage_accounted. vm_compute. discriminate.
Qed.

(** * Further properties of coins.cpp *)

(** ** Reads *)

Section ViewReads.

Context {V : Type} `{CCoinsView V}.

Implicit Types c : CCoinsViewCache V.

Lemma FetchCoin_view_coin c outpoint :
  coin <$> (Cache.FetchCoin outpoint c).1 = view_coin c outpoint.
Proof.
  unfold Cache.FetchCoin, view_coin.
  destruct (cacheCoins c !! outpoint); [done|].
  by destruct (GetCoin (base c) outpoint).
Qed.

Lemma FetchCoin_view_stable c outpoint o' :
  view_coin (Cache.FetchCoin outpoint c).2 o' = view_coin c o'.
Proof.
  unfold Cache.FetchCoin, view_coin.
  destruct (cacheCoins c !! outpoint) eqn:Hlk; [done|].
  destruct (GetCoin (base c) outpoint) as [tmp|] eqn:Hp; [|done]. simpl.
  destruct (decide (outpoint = o')) as [<-|Hne].
  - by rewrite lookup_insert_eq, Hlk, Hp.
  - by rewrite lookup_insert_ne.
Qed.

Lemma FetchCoin_other_slot c outpoint o' :
  o' <> outpoint ->
  cacheCoins (Cache.FetchCoin outpoint c).2 !! o' = cacheCoins c !! o'.
Proof.
  intros Hne. unfold Cache.FetchCoin.
  destruct (cacheCoins c !! outpoint); [done|].
  destruct (GetCoin (base c) outpoint); [|done]. simpl. by rewrite lookup_insert_ne.
Qed.

Lemma FetchCoin_again c outpoint :
  Cache.FetchCoin outpoint (Cache.FetchCoin outpoint c).2 = Cache.FetchCoin outpoint c.
Proof.
  unfold Cache.FetchCoin at 2 3.
  destruct (cacheCoins c !! outpoint) as [e|] eqn:Hlk; simpl.
  - by apply FetchCoin_hit.
  - destruct (GetCoin (base c) outpoint) as [tmp|] eqn:Hp; simpl.
    + apply FetchCoin_hit. simpl. apply lookup_insert_eq.
    + unfold Cache.FetchCoin. by rewrite Hlk, Hp.
Qed.

Lemma GetCoin_state c outpoint :
  (Cache.GetCoin outpoint c).2 = (Cache.FetchCoin outpoint c).2.
Proof. unfold Cache.GetCoin. by destruct (Cache.FetchCoin outpoint c) as [[?|] ?]. Qed.

Lemma HaveCoin_state c outpoint :
  (Cache.HaveCoin outpoint c).2 = (Cache.FetchCoin outpoint c).2.
Proof. unfold Cache.HaveCoin. by destruct (Cache.FetchCoin outpoint c) as [[?|] ?]. Qed.

Lemma AccessCoin_state c outpoint :
  (Cache.AccessCoin outpoint c).2 = (Cache.FetchCoin outpoint c).2.
Proof. unfold Cache.AccessCoin. by destruct (Cache.FetchCoin outpoint c) as [[?|] ?]. Qed.

Lemma HaveCoin_view_live c outpoint : (Cache.HaveCoin outpoint c).1 = view_live c outpoint.
Proof.
  unfold Cache.HaveCoin, view_live. rewrite <- FetchCoin_view_coin.
  by destruct (Cache.FetchCoin outpoint c) as [[?|] ?].
Qed.

Lemma AccessCoin_view_coin c outpoint :
  (Cache.AccessCoin outpoint c).1 = default coinEmpty (view_coin c outpoint).
Proof.
  unfold Cache.AccessCoin. rewrite <- FetchCoin_view_coin.
  by destruct (Cache.FetchCoin outpoint c) as [[?|] ?].
Qed.

Lemma GetCoin_view_coin c outpoint :
  (Cache.GetCoin outpoint c).1
  = if view_live c outpoint then view_coin c outpoint else None.
Proof.
  unfold Cache.GetCoin, view_live. rewrite <- FetchCoin_view_coin.
  destruct (Cache.FetchCoin outpoint c) as [[e|] ?]; simpl; [|done].
  by destruct (IsSpent (coin e)).
Qed.

Lemma view_live_stable c outpoint o' :
  view_live (Cache.FetchCoin outpoint c).2 o' = view_live c o'.
Proof. unfold view_live. by rewrite FetchCoin_view_stable. Qed.

Lemma HaveCoinInCache_after_fetch c outpoint :
  Cache.HaveCoinInCache outpoint (Cache.FetchCoin outpoint c).2 = view_live c outpoint.
Proof.
  unfold Cache.HaveCoinInCache, view_live, view_coin, Cache.FetchCoin.
  destruct (cacheCoins c !! outpoint) as [e|] eqn:Hlk; simpl.
  - by rewrite Hlk.
  - destruct (GetCoin (base c) outpoint) as [tmp|]; simpl.
    + by rewrite lookup_insert_eq.
    + by rewrite Hlk.
Qed.

End ViewReads.

(** X1.  A read through the cache ([GetCoin], and so [HaveCoin] and
    [AccessCoin], which leave the same members) changes nothing that a
    later read reports for any outpoint: neither the record the cache
    works on nor what [GetCoin] returns.  It touches no slot but that of
    its own outpoint and leaves best block and names alone; repeating it
    gives the same result and leaves the members as they are. *)
Theorem read_through_stable {V : Type} `{CCoinsView V} (c : CCoinsViewCache V)
    (outpoint : COutPoint) :
  (forall o', view_coin (Cache.GetCoin outpoint c).2 o' = view_coin c o')
  /\ (forall o', (Cache.GetCoin o' (Cache.GetCoin outpoint c).2).1 = (Cache.GetCoin o' c).1)
  /\ (forall o', o' <> outpoint ->
                 cacheCoins (Cache.GetCoin outpoint c).2 !! o' = cacheCoins c !! o')
  /\ hashBlock (Cache.GetCoin outpoint c).2 = hashBlock c
  /\ cacheNames (Cache.GetCoin outpoint c).2 = cacheNames c
  /\ members (Cache.GetCoin outpoint (Cache.GetCoin outpoint c).2).2
     = members (Cache.GetCoin outpoint c).2
  /\ members (Cache.HaveCoin outpoint c).2 = members (Cache.GetCoin outpoint c).2
  /\ members (Cache.AccessCoin outpoint c).2 = members (Cache.GetCoin outpoint c).2.
Proof.
  rewrite !GetCoin_state, HaveCoin_state, AccessCoin_state.
  split; [intros o'; apply FetchCoin_view_stable|].
  split.
  { intros o'. rewrite !GetCoin_view_coin. unfold view_live.
    by rewrite FetchCoin_view_stable. }
  split; [intros o' Hne; by apply FetchCoin_other_slot|].
  split; [|split; [|split; [|done]]].
  - unfold Cache.FetchCoin. by repeat case_match.
  - unfold Cache.FetchCoin. by repeat case_match.
  - by rewrite FetchCoin_again.
Qed.

(** X2.  The three reads agree: [HaveCoin] is true exactly when the record
    the cache works on for the outpoint is unspent; [AccessCoin] returns
    that record, or the empty coin when there is none; [GetCoin] returns it
    when it is unspent and nothing otherwise.  After [HaveCoin],
    [HaveCoinInCache] gives the same answer without a fetch, and a true
    [HaveCoinInCache] means [HaveCoin] is true and changes nothing. *)
Theorem reads_agree {V : Type} `{CCoinsView V} (c : CCoinsViewCache V)
    (outpoint : COutPoint) :
  (Cache.HaveCoin outpoint c).1 = view_live c outpoint
  /\ (Cache.AccessCoin outpoint c).1 = default coinEmpty (view_coin c outpoint)
  /\ IsSpent (Cache.AccessCoin outpoint c).1 = negb (Cache.HaveCoin outpoint c).1
  /\ (Cache.GetCoin outpoint c).1
     = (if (Cache.HaveCoin outpoint c).1 then Some (Cache.AccessCoin outpoint c).1 else None)
  /\ Cache.HaveCoinInCache outpoint (Cache.HaveCoin outpoint c).2
     = (Cache.HaveCoin outpoint c).1
  /\ (Cache.HaveCoinInCache outpoint c = true -> Cache.HaveCoin outpoint c = (true, c)).
Proof.
  rewrite HaveCoin_state, HaveCoinInCache_after_fetch, GetCoin_view_coin,
    HaveCoin_view_live, AccessCoin_view_coin.
  split; [done|]. split; [done|]. unfold view_live.
  split; [destruct (view_coin c outpoint); simpl; by rewrite ?negb_involutive|].
  split; [by destruct (view_coin c outpoint) as [x|]; simpl; [destruct (IsSpent x)|]|].
  split; [done|].
  unfold Cache.HaveCoinInCache, Cache.HaveCoin.
  destruct (cacheCoins c !! outpoint) as [e|] eqn:Hlk; [|done].
  rewrite (FetchCoin_hit _ _ _ Hlk). by intros ->.
Qed.

(** ** AddCoin, SpendCoin, Uncache, EmplaceCoinInternalDANGER *)

(** A throwing [AddCoin] was told that no overwrite is possible and found
    a live coin in the cache. *)
Lemma AddCoin_thrown_inv {V : Type} `{CCoinsView V} (c s : CCoinsViewCache V)
    outpoint coin0 possible_overwrite e :
  Cache.AddCoin outpoint coin0 possible_overwrite c = Thrown e s ->
  possible_overwrite = false /\ Cache.HaveCoinInCache outpoint c = true
  /\ e = OverwriteUnspent /\ cacheCoins s = cacheCoins c.
Proof.
  unfold Cache.AddCoin, Cache.HaveCoinInCache.
  destruct (IsSpent coin0); [done|]. destruct (IsUnspendable _); [done|].
  destruct (cacheCoins c !! outpoint) as [it|] eqn:Hlk; simpl.
  - destruct possible_overwrite; simpl; [done|].
    destruct (IsSpent (coin it)); simpl; [done|].
    intros Heq. by inversion Heq; subst.
  - by rewrite andb_false_r.
Qed.

(** X3.  How [AddCoin] ends.  The assertion fails exactly for a spent
    coin.  It throws exactly when the coin is unspent and spendable,
    [possible_overwrite] is false and the cache itself holds a live coin
    at the outpoint (the parent is not asked); the error is then
    [OverwriteUnspent] and the map is as before.  In every other case it
    returns. *)
Theorem AddCoin_outcome {V : Type} `{CCoinsView V} (c : CCoinsViewCache V)
    (outpoint : COutPoint) (coin0 : Coin) (possible_overwrite : bool) :
  (Cache.AddCoin outpoint coin0 possible_overwrite c = Aborted <-> IsSpent coin0 = true)
  /\ ((exists e s, Cache.AddCoin outpoint coin0 possible_overwrite c = Thrown e s)
      <-> IsSpent coin0 = false
          /\ IsUnspendable (scriptPubKey (out coin0)) = false
          /\ possible_overwrite = false
          /\ Cache.HaveCoinInCache outpoint c = true)
  /\ (forall e s,
        Cache.AddCoin outpoint coin0 possible_overwrite c = Thrown e s ->
        e = OverwriteUnspent /\ cacheCoins s = cacheCoins c
        /\ base s = base c /\ hashBlock s = hashBlock c /\ cacheNames s = cacheNames c).
Proof.
  split; [|split].
  - unfold Cache.AddCoin. destruct (IsSpent coin0); [done|].
    split; [|done]. repeat case_match; done.
  - split.
    + intros (e & s & Hth). pose proof Hth as Hth'.
      apply AddCoin_thrown_inv in Hth as (-> & Hc & _ & _).
      unfold Cache.AddCoin in Hth'.
      destruct (IsSpent coin0); [done|]. by destruct (IsUnspendable _).
    + intros (Hs & Hu & -> & Hc). unfold Cache.AddCoin, Cache.HaveCoinInCache in *.
      rewrite Hs, Hu. destruct (cacheCoins c !! outpoint) as [it|]; [|done].
      simpl. apply negb_true_iff in Hc. rewrite Hc. simpl. by eexists _, _.
  - intros e s Hth. pose proof Hth as Hth'.
    apply AddCoin_thrown_inv in Hth as (_ & _ & -> & Hm).
    split; [done|]. split; [done|].
    unfold Cache.AddCoin in Hth'. repeat case_match; simplify_eq; done.
Qed.

(** X4.  After a returning [AddCoin] of a spendable coin, [GetCoin] at the
    outpoint returns that coin from the cache, without a fetch and without
    a change of state, [HaveCoinInCache] is true, and what the cache
    reports for every other outpoint is as before. *)
Theorem AddCoin_then_GetCoin {V : Type} `{CCoinsView V} (c c' : CCoinsViewCache V)
    (outpoint : COutPoint) (coin0 : Coin) (possible_overwrite : bool) :
  IsUnspendable (scriptPubKey (out coin0)) = false ->
  Cache.AddCoin outpoint coin0 possible_overwrite c = Returned tt c' ->
  Cache.GetCoin outpoint c' = (Some coin0, c')
  /\ Cache.HaveCoinInCache outpoint c' = true
  /\ (forall o', o' <> outpoint -> view_coin c' o' = view_coin c o').
Proof.
  intros Hu Hret.
  assert (IsSpent coin0 = false) as Hs.
  { unfold Cache.AddCoin in Hret. by destruct (IsSpent coin0). }
  destruct (AddCoin_returned c c' outpoint coin0 possible_overwrite Hu Hret)
    as (Hlk & Hother & Hb & _).
  split; [|split].
  - unfold Cache.GetCoin. rewrite (FetchCoin_hit _ _ _ Hlk). simpl. by rewrite Hs.
  - unfold Cache.HaveCoinInCache. rewrite Hlk. simpl. by rewrite Hs.
  - intros o' Hne. unfold view_coin. by rewrite Hother, Hb.
Qed.

Lemma AddCoin_then_GetCoin_witness :
  Cache.GetCoin outpoint1 cache_with_coin1 = (Some coin1, cache_with_coin1)
  /\ Cache.HaveCoinInCache outpoint1 cache_with_coin1 = true
  /\ (forall o', o' <> outpoint1 -> view_coin cache_with_coin1 o' = view_coin cache_empty o').
Proof.
  apply (AddCoin_then_GetCoin cache_empty cache_with_coin1 outpoint1 coin1 false).
  - reflexivity.
  - vm_compute. reflexivity.
Defined.

(** X5.  [SpendCoin] returns true exactly when the cache has, or the parent
    reports, a record for the outpoint, be it an already spent one; the
    coin moved out is that record.  Afterwards the cache holds no live
    coin at the outpoint, and what it reports for every other outpoint is
    as before.  When there is no record, the members of the cache are as
    before. *)
Theorem SpendCoin_result {V : Type} `{CCoinsView V} (c : CCoinsViewCache V)
    (outpoint : COutPoint) (moveout : bool) :
  (Cache.SpendCoin outpoint moveout c).1.1
  = match view_coin c outpoint with Some _ => true | None => false end
  /\ (Cache.SpendCoin outpoint moveout c).1.2
     = (if moveout then view_coin c outpoint else None)
  /\ Cache.HaveCoinInCache outpoint (Cache.SpendCoin outpoint moveout c).2 = false
  /\ (forall o', o' <> outpoint ->
                 view_coin (Cache.SpendCoin outpoint moveout c).2 o' = view_coin c o')
  /\ (view_coin c outpoint = None ->
      members (Cache.SpendCoin outpoint moveout c).2 = members c).
Proof.
  pose proof (FetchCoin_view_coin c outpoint) as Hview.
  pose proof (fun o' => FetchCoin_view_stable c outpoint o') as Hstable.
  pose proof (FetchCoin_base c outpoint) as Hbase.
  unfold Cache.SpendCoin, Cache.HaveCoinInCache.
  destruct (Cache.FetchCoin outpoint c) as [[it|] c1] eqn:Hf; simpl in *.
  - rewrite <- Hview.
    assert (forall o', o' <> outpoint ->
              match cacheCoins c1 !! o' with
              | Some e => Some (coin e)
              | None => GetCoin (base c1) o'
              end = view_coin c o') as Hrest.
    { intros o' _. apply (Hstable o'). }
    destruct (has_flag (flags it) FRESH); simpl.
    + rewrite lookup_delete_eq.
      split; [done|]. split; [done|]. split; [done|]. split; [|done].
      intros o' Hne. unfold view_coin. simpl. rewrite lookup_delete_ne by done.
      by apply Hrest.
    + rewrite lookup_insert_eq.
      split; [done|]. split; [done|]. split; [done|]. split; [|done].
      intros o' Hne. unfold view_coin. simpl. rewrite lookup_insert_ne by done.
      by apply Hrest.
  - rewrite <- Hview. simpl.
    assert (c1 = c) as ->.
    { unfold Cache.FetchCoin in Hf. repeat case_match; by simplify_eq. }
    assert (cacheCoins c !! outpoint = None) as Hlk.
    { unfold Cache.FetchCoin in Hf. repeat case_match; by simplify_eq. }
    rewrite Hlk. split; [done|]. split; [by destruct moveout|]. done.
Qed.

(** X6.  [Uncache] removes a clean image only: it leaves the cache as it is
    when the outpoint has no entry or an entry with a flag, and never
    touches another slot.  It undoes what a read did to the cache: when
    the cache has no entry for the outpoint, the parent does not report a
    spent record there and the counter is in the range of [size_t],
    [GetCoin] followed by [Uncache] leaves the members of the cache as
    they were before the read. *)
Theorem Uncache_undoes_read {V : Type} `{CCoinsView V} (c : CCoinsViewCache V)
    (outpoint : COutPoint) :
  (cacheCoins c !! outpoint = None -> Cache.Uncache outpoint c = c)
  /\ (forall e, cacheCoins c !! outpoint = Some e -> flags e <> 0 ->
                Cache.Uncache outpoint c = c)
  /\ (forall o', o' <> outpoint ->
                 cacheCoins (Cache.Uncache outpoint c) !! o' = cacheCoins c !! o')
  /\ (cacheCoins c !! outpoint = None ->
      (forall x, GetCoin (base c) outpoint = Some x -> IsSpent x = false) ->
      0 <= cachedCoinsUsage c < 2 ^ 64 ->
      members (Cache.Uncache outpoint (Cache.GetCoin outpoint c).2) = members c).
Proof.
  split; [|split; [|split]].
  - intros Hlk. unfold Cache.Uncache. by rewrite Hlk.
  - intros e Hlk Hf. unfold Cache.Uncache. rewrite Hlk.
    destruct (Z.eqb_spec (flags e) 0); [done|done].
  - intros o' Hne. unfold Cache.Uncache.
    destruct (cacheCoins c !! outpoint) as [it|]; [|done].
    destruct (flags it =? 0); [|done]. simpl. by rewrite lookup_delete_ne.
  - intros Hlk Hlive Hrange. rewrite GetCoin_state.
    unfold Cache.FetchCoin. rewrite Hlk.
    destruct (GetCoin (base c) outpoint) as [tmp|] eqn:Hp; simpl.
    + rewrite (Hlive tmp eq_refl). unfold Cache.Uncache. simpl.
      rewrite lookup_insert_eq. simpl. unfold Cache.set_coins. simpl.
      rewrite delete_insert_id by done.
      rewrite size_t_wrap_sub_l. unfold size_t_wrap.
      replace (cachedCoinsUsage c + DynamicMemoryUsage tmp - DynamicMemoryUsage tmp)
        with (cachedCoinsUsage c) by lia.
      rewrite Z.mod_small by lia. by destruct c.
    + unfold Cache.Uncache. by rewrite Hlk.
Qed.

(** X7.  [EmplaceCoinInternalDANGER] never overwrites: on a taken slot the
    map stays as it is, yet the usage of the coin is added to the counter,
    so that the counter no longer equals the sum when the coin owns heap
    memory; on a free slot the coin is stored DIRTY, without FRESH. *)
Theorem EmplaceCoinInternalDANGER_slot {V : Type} `{CCoinsView V} (c : CCoinsViewCache V)
    (outpoint : COutPoint) (coin0 : Coin) :
  (forall e, cacheCoins c !! outpoint = Some e ->
     cacheCoins (Cache.EmplaceCoinInternalDANGER outpoint coin0 c) = cacheCoins c
     /\ cachedCoinsUsage (Cache.EmplaceCoinInternalDANGER outpoint coin0 c)
        = size_t_wrap (cachedCoinsUsage c + DynamicMemoryUsage coin0)
     /\ (usage_accounted c -> 0 < DynamicMemoryUsage coin0 < 2 ^ 64 ->
         ~ usage_accounted (Cache.EmplaceCoinInternalDANGER outpoint coin0 c)))
  /\ (cacheCoins c !! outpoint = None ->
      cacheCoins (Cache.EmplaceCoinInternalDANGER outpoint coin0 c)
      = <[outpoint := mkEntry coin0 DIRTY]> (cacheCoins c)
      /\ (usage_accounted c ->
          usage_accounted (Cache.EmplaceCoinInternalDANGER outpoint coin0 c))).
Proof.
  unfold Cache.EmplaceCoinInternalDANGER, usage_accounted. split.
  - intros e Hlk. rewrite Hlk. simpl. split; [done|]. split; [done|].
    intros Hu Hdyn Hu'. rewrite Hu, size_t_wrap_add_l in Hu'.
    unfold size_t_wrap in Hu'.
    set (S := coins_usage (cacheCoins c)) in *.
    set (D := DynamicMemoryUsage coin0) in *.
    assert (D mod 2 ^ 64 = 0) as Hzero.
    { replace D with ((S + D) - S) at 1 by lia.
      rewrite Zminus_mod, Hu', Z.sub_diag. reflexivity. }
    rewrite Z.mod_small in Hzero by lia. lia.
  - intros Hlk. rewrite Hlk. simpl. split; [done|].
    intros Hu. by rewrite Hu, size_t_wrap_add_l, coins_usage_insert_new.
Qed.

(** ** AddCoins *)

Lemma outpoint_at_inj (txid : uint256) (i j : nat) :
  (N.of_nat i < 2 ^ 32)%N -> (N.of_nat j < 2 ^ 32)%N ->
  outpoint_at txid i = outpoint_at txid j -> i = j.
Proof.
  intros Hi Hj [= Heq]. rewrite !N.mod_small in Heq by done. lia.
Qed.

Section AddCoinsSteps.

Context {V : Type} `{CCoinsView V}.

Implicit Types c : CCoinsViewCache V.

Lemma AddCoins_turn_never_throws fCoinbase check outpoint coin0 c e s :
  check || fCoinbase = true ->
  Cache.AddCoin outpoint coin0 (AddCoins_turn fCoinbase check outpoint c).1
                (AddCoins_turn fCoinbase check outpoint c).2 <> Thrown e s.
Proof.
  intros Hor Hth. apply AddCoin_thrown_inv in Hth as (Hpo & Hc & _).
  unfold AddCoins_turn in *. destruct check; simpl in *.
  - rewrite HaveCoin_state, HaveCoinInCache_after_fetch in Hc.
    rewrite HaveCoin_view_live in Hpo. congruence.
  - congruence.
Qed.

Lemma AddCoins_turn_frame fCoinbase check outpoint c :
  base (AddCoins_turn fCoinbase check outpoint c).2 = base c
  /\ (forall o', view_coin (AddCoins_turn fCoinbase check outpoint c).2 o' = view_coin c o')
  /\ (forall o', o' <> outpoint ->
        cacheCoins (AddCoins_turn fCoinbase check outpoint c).2 !! o' = cacheCoins c !! o').
Proof.
  unfold AddCoins_turn. destruct check; simpl; [|done].
  rewrite HaveCoin_state. split; [apply FetchCoin_base|].
  split; [intros o'; apply FetchCoin_view_stable|].
  intros o' Hne. by apply FetchCoin_other_slot.
Qed.

Lemma AddCoin_returned_frame c c' outpoint coin0 possible_overwrite :
  Cache.AddCoin outpoint coin0 possible_overwrite c = Returned tt c' ->
  base c' = base c
  /\ (forall o', o' <> outpoint -> cacheCoins c' !! o' = cacheCoins c !! o')
  /\ (IsUnspendable (scriptPubKey (out coin0)) = true -> c' = c).
Proof.
  intros Hret. destruct (IsUnspendable (scriptPubKey (out coin0))) eqn:Hu.
  - unfold Cache.AddCoin in Hret. rewrite Hu in Hret.
    destruct (IsSpent coin0); [done|]. by injection Hret as <-.
  - destruct (AddCoin_returned c c' outpoint coin0 possible_overwrite Hu Hret)
      as (_ & Hother & Hb & _).
    done.
Qed.

Lemma AddCoins_loop_never_throws txid fCoinbase height check i outs c e s :
  check || fCoinbase = true ->
  AddCoins_loop txid fCoinbase height check i outs c <> Thrown e s.
Proof.
  intros Hor. revert i c. induction outs as [|txout outs IH]; intros i c; simpl; [done|].
  pose proof (AddCoins_turn_never_throws fCoinbase check (outpoint_at txid i)
                (mkCoin txout fCoinbase height) c) as Hturn.
  unfold AddCoins_turn in Hturn.
  destruct (if check then Cache.HaveCoin (outpoint_at txid i) c else (fCoinbase, c))
    as [overwrite c1].
  simpl in Hturn.
  destruct (Cache.AddCoin _ _ overwrite c1) as [[] c2|e' s'|] eqn:Ha; [apply IH| |done].
  intros [= -> ->]. by eapply Hturn.
Qed.

(** What a returning loop of [AddCoins] leaves: the slots of the outpoints
    it does not name, and the slot of each output it names. *)
Lemma AddCoins_loop_returned txid fCoinbase height check i outs c c' :
  AddCoins_loop txid fCoinbase height check i outs c = Returned tt c' ->
  (N.of_nat (i + length outs) <= 2 ^ 32)%N ->
  base c' = base c
  /\ (forall o, (forall j, (j < length outs)%nat -> o <> outpoint_at txid (i + j)) ->
                cacheCoins c' !! o = cacheCoins c !! o)
  /\ (forall j txout,
        outs !! j = Some txout ->
        if IsUnspendable (scriptPubKey txout)
        then view_coin c' (outpoint_at txid (i + j)) = view_coin c (outpoint_at txid (i + j))
        else exists e,
               cacheCoins c' !! outpoint_at txid (i + j) = Some e
               /\ coin e = mkCoin txout fCoinbase height
               /\ has_flag (flags e) DIRTY = true).
Proof.
  revert i c. induction outs as [|txout outs IH]; intros i c; simpl.
  - intros [= <-] _. split; [done|]. split; [done|]. intros j t Hj. done.
  - intros Hloop Hlen.
    pose proof (AddCoins_turn_frame fCoinbase check (outpoint_at txid i) c)
      as (Hb1 & Hv1 & Hs1).
    unfold AddCoins_turn in *.
    destruct (if check then Cache.HaveCoin (outpoint_at txid i) c else (fCoinbase, c))
      as [overwrite c1].
    simpl in *.
    destruct (Cache.AddCoin _ _ overwrite c1) as [[] c2|e' s'|] eqn:Ha; [|done..].
    destruct (AddCoin_returned_frame _ _ _ _ _ Ha) as (Hb2 & Hs2 & Hu2).
    destruct (IH (S i) c2 Hloop ltac:(lia)) as (Hb3 & Hs3 & Hj3).
    assert (forall j, (j < length outs)%nat ->
              outpoint_at txid i <> outpoint_at txid (S i + j)) as Hdist.
    { intros j Hj Heq. apply outpoint_at_inj in Heq; lia. }
    split; [congruence|]. split.
    + intros o Ho. rewrite Hs3.
      * rewrite Hs2, Hs1; [done| |].
        -- specialize (Ho 0%nat ltac:(lia)). by rewrite Nat.add_0_r in Ho.
        -- specialize (Ho 0%nat ltac:(lia)). by rewrite Nat.add_0_r in Ho.
      * intros j Hj. specialize (Ho (S j) ltac:(lia)).
        by replace (S i + j)%nat with (i + S j)%nat by lia.
    + intros [|j] t Hj; simpl in Hj.
      * injection Hj as <-. rewrite Nat.add_0_r.
        destruct (IsUnspendable (scriptPubKey txout)) eqn:Hu.
        -- unfold view_coin at 1. rewrite Hs3 by done. rewrite Hb3.
           rewrite (Hu2 Hu). apply Hv1.
        -- destruct (AddCoin_returned c1 c2 _ (mkCoin txout fCoinbase height) _ Hu Ha)
             as (Hlk & _).
           eexists. rewrite Hs3 by done. split; [exact Hlk|]. simpl.
           split; [done|]. apply lor_DIRTY_has_DIRTY.
      * specialize (Hj3 j t Hj).
        replace (i + S j)%nat with (S i + j)%nat by lia.
        destruct (IsUnspendable (scriptPubKey t)); [|done].
        rewrite Hj3. unfold view_coin. rewrite Hb2.
        assert (outpoint_at txid (S i + j) <> outpoint_at txid i) as Hne.
        { intros Heq. apply outpoint_at_inj in Heq; [lia| |lia].
          apply lookup_lt_Some in Hj. lia. }
        rewrite Hs2 by done. fold (view_coin c1 (outpoint_at txid (S i + j))).
        apply Hv1.
Qed.

End AddCoinsSteps.

(** X8.  [AddCoins] never throws [OverwriteUnspent] when the caller asks
    for the overwrite check or the transaction is a coinbase: it can throw
    only for a transaction that is no coinbase, added without the check.
    An assertion can stop it only at an output whose value is the spent
    sentinel. *)
Theorem AddCoins_throws_only_unchecked {V : Type} `{CCoinsView V}
    (cache : CCoinsViewCache V) (tx : CTransaction) (height : N)
    (check_for_overwrite : bool) :
  (forall e s, AddCoins tx height check_for_overwrite cache = Thrown e s ->
               check_for_overwrite = false /\ tx_coinbase tx = false)
  /\ (AddCoins tx height check_for_overwrite cache = Aborted ->
      exists txout, txout ∈ vout tx /\ nValue txout = -1).
Proof.
  split.
  - intros e s Hth.
    destruct (check_for_overwrite || tx_coinbase tx) eqn:Hor.
    + by apply AddCoins_loop_never_throws in Hth.
    + by apply orb_false_iff in Hor.
  - unfold AddCoins. generalize 0%nat as i. revert cache.
    induction (vout tx) as [|txout outs IH]; intros c i; simpl; [done|].
    destruct (if check_for_overwrite then _ else _) as [overwrite c1].
    destruct (Cache.AddCoin _ _ overwrite c1) as [[] c2|e' s'|] eqn:Ha.
    + intros Hab. destruct (IH _ _ Hab) as (t & Hin & Hv).
      exists t. split; [by apply elem_of_cons; right|done].
    + done.
    + intros _. exists txout. split; [apply elem_of_cons; by left|].
      unfold Cache.AddCoin, IsSpent in Ha. simpl in Ha.
      destruct (nValue txout =? -1) eqn:Hv; [lia|].
      repeat case_match; done.
Qed.

(** X9.  When [AddCoins] returns for a transaction of at most 2^32
    outputs, every spendable output [i] is in the cache at outpoint
    [(txid, i)], as a coin with the given height and coinbase flag, DIRTY;
    an unspendable output leaves what the cache reports at its outpoint as
    it was; and the slots of all other outpoints are untouched. *)
Theorem AddCoins_stores_outputs {V : Type} `{CCoinsView V}
    (cache cache' : CCoinsViewCache V) (tx : CTransaction) (height : N)
    (check_for_overwrite : bool) :
  AddCoins tx height check_for_overwrite cache = Returned tt cache' ->
  (N.of_nat (length (vout tx)) <= 2 ^ 32)%N ->
  (forall i txout,
     vout tx !! i = Some txout ->
     if IsUnspendable (scriptPubKey txout)
     then view_coin cache' (outpoint_at (tx_hash tx) i)
          = view_coin cache (outpoint_at (tx_hash tx) i)
     else exists e,
            cacheCoins cache' !! outpoint_at (tx_hash tx) i = Some e
            /\ coin e = mkCoin txout (tx_coinbase tx) height
            /\ has_flag (flags e) DIRTY = true)
  /\ (forall o, (forall i, (i < length (vout tx))%nat -> o <> outpoint_at (tx_hash tx) i) ->
                cacheCoins cache' !! o = cacheCoins cache !! o).
Proof.
  intros Hret Hlen.
  destruct (AddCoins_loop_returned _ _ _ _ _ _ _ _ Hret ltac:(lia)) as (_ & Hs & Hj).
  split; [|exact Hs].
  intros i txout Hi. exact (Hj i txout Hi).
Qed.

Lemma AddCoins_stores_outputs_witness :
  (forall i txout,
     vout tx1 !! i = Some txout ->
     if IsUnspendable (scriptPubKey txout)
     then view_coin cache_after_tx1 (outpoint_at (tx_hash tx1) i)
          = view_coin cache_empty (outpoint_at (tx_hash tx1) i)
     else exists e,
            cacheCoins cache_after_tx1 !! outpoint_at (tx_hash tx1) i = Some e
            /\ coin e = mkCoin txout (tx_coinbase tx1) 5
            /\ has_flag (flags e) DIRTY = true)
  /\ (forall o, (forall i, (i < length (vout tx1))%nat -> o <> outpoint_at (tx_hash tx1) i) ->
                cacheCoins cache_after_tx1 !! o = cacheCoins cache_empty !! o).
Proof.
  apply (AddCoins_stores_outputs cache_empty cache_after_tx1 tx1 5 true).
  - vm_compute. reflexivity.
  - simpl. lia.
Defined.

(** The outputs of [tx1] in the cache: two coins, FRESH and DIRTY, and
    nothing for the unspendable output. *)
Example AddCoins_tx1_computed :
  Cache.HaveCoinInCache (mkOutPoint 9%N 0) cache_after_tx1 = true
  /\ cacheCoins cache_after_tx1 !! mkOutPoint 9%N 1 = None
  /\ Cache.HaveCoinInCache (mkOutPoint 9%N 2) cache_after_tx1 = true
  /\ cachedCoinsUsage cache_after_tx1 = 80.
Proof. repeat split; vm_compute; reflexivity. Qed.

(** ** HaveInputs and AccessByTxid *)

Section Probes.

Context {V : Type} `{CCoinsView V}.

Implicit Types c : CCoinsViewCache V.

Lemma forallb_pointwise {A : Type} (f g : A -> bool) (l : list A) :
  (forall x, f x = g x) -> forallb f l = forallb g l.
Proof. intros Hfg. induction l as [|x l IH]; simpl; [done|]. by rewrite Hfg, IH. Qed.

(** Below 2^32 inputs the counter does not wrap: the loop returns once it
    was given a turn for every input that is left and one more. *)
Lemma HaveInputs_loop_returns turns i prevouts c :
  (N.of_nat (length prevouts) < 2 ^ 32)%N ->
  (i <= N.of_nat (length prevouts))%N ->
  (N.of_nat (length prevouts) < i + N.of_nat turns)%N ->
  exists c',
    HaveInputs_loop turns i prevouts c
    = Some (forallb (view_live c) (drop (N.to_nat i) prevouts), c')
    /\ (forall o, view_coin c' o = view_coin c o).
Proof.
  intros Hlen. revert i c. induction turns as [|turns IH]; intros i c Hi Hturns; [lia|].
  simpl. destruct (N.ltb_spec i (N.of_nat (length prevouts))) as [Hlt|Hge].
  - destruct (prevouts !! N.to_nat i) as [p|] eqn:Hlk.
    + rewrite (drop_S _ _ _ Hlk). simpl.
      pose proof (HaveCoin_view_live c p) as Hlive.
      pose proof (HaveCoin_state c p) as Hstate.
      destruct (Cache.HaveCoin p c) as [[|] c1]; simpl in Hlive, Hstate;
        subst c1; rewrite <- Hlive; simpl.
      * rewrite N.mod_small by lia.
        destruct (IH (i + 1)%N (Cache.FetchCoin p c).2 ltac:(lia) ltac:(lia))
          as (c' & Hloop & Hview).
        exists c'. rewrite Hloop. split.
        -- replace (N.to_nat (i + 1)) with (S (N.to_nat i)) by lia.
           do 2 f_equal. apply forallb_pointwise. intros o. apply view_live_stable.
        -- intros o. rewrite Hview. apply FetchCoin_view_stable.
      * eexists. split; [reflexivity|]. intros o. apply FetchCoin_view_stable.
    + apply lookup_ge_None in Hlk. lia.
  - exists c. rewrite drop_ge by lia. done.
Qed.

(** From 2^32 inputs on, the counter wraps before it reaches the size:
    over inputs that are live the loop never returns. *)
Lemma HaveInputs_loop_turns_on turns i prevouts c :
  (2 ^ 32 <= N.of_nat (length prevouts))%N ->
  (i < 2 ^ 32)%N ->
  (forall j p, (N.of_nat j < 2 ^ 32)%N -> prevouts !! j = Some p -> view_live c p = true) ->
  HaveInputs_loop turns i prevouts c = None.
Proof.
  intros Hlen. revert i c. induction turns as [|turns IH]; intros i c Hi Hlive; [done|].
  simpl. destruct (N.ltb_spec i (N.of_nat (length prevouts))) as [Hlt|Hge]; [|lia].
  destruct (prevouts !! N.to_nat i) as [p|] eqn:Hlk; [|done].
  pose proof (HaveCoin_view_live c p) as Hres.
  pose proof (HaveCoin_state c p) as Hstate.
  rewrite (Hlive (N.to_nat i) p) in Hres by (done || lia).
  destruct (Cache.HaveCoin p c) as [r c1]; simpl in Hres, Hstate; subst r c1.
  apply IH.
  - apply N.mod_upper_bound. lia.
  - intros j q Hj Hq. rewrite view_live_stable. by apply (Hlive j q).
Qed.

(** The loop of [AccessByTxid] from index [iter_n], for a bound below
    2^32. *)
Lemma AccessByTxid_loop_first turns MAX txid iter_n c :
  (MAX < 2 ^ 32)%N -> (iter_n <= MAX)%N -> (MAX < iter_n + N.of_nat turns)%N ->
  exists r,
    AccessByTxid_loop turns MAX txid iter_n c = Some r
    /\ (forall o, view_coin r.2 o = view_coin c o)
    /\ (IsSpent r.1 = true ->
        r.1 = coinEmpty
        /\ forall j, (iter_n <= j < MAX)%N -> view_live c (mkOutPoint txid j) = false)
    /\ (IsSpent r.1 = false ->
        exists j, (iter_n <= j < MAX)%N
                  /\ view_coin c (mkOutPoint txid j) = Some r.1
                  /\ forall j', (iter_n <= j' < j)%N ->
                                view_live c (mkOutPoint txid j') = false).
Proof.
  intros Hmax. revert iter_n c.
  induction turns as [|turns IH]; intros iter_n c Hle Hturns; [lia|].
  simpl. destruct (N.ltb_spec iter_n MAX) as [Hlt|Hge].
  - pose proof (AccessCoin_view_coin c (mkOutPoint txid iter_n)) as Hcoin.
    pose proof (AccessCoin_state c (mkOutPoint txid iter_n)) as Hstate.
    destruct (Cache.AccessCoin (mkOutPoint txid iter_n) c) as [alternate c1].
    simpl in Hcoin, Hstate. subst c1.
    assert (view_live c (mkOutPoint txid iter_n) = negb (IsSpent alternate)) as Hlive.
    { unfold view_live. rewrite Hcoin.
      by destruct (view_coin c (mkOutPoint txid iter_n)). }
    destruct (IsSpent alternate) eqn:Hs; simpl.
    + rewrite N.mod_small by lia.
      destruct (IH (iter_n + 1)%N (Cache.FetchCoin (mkOutPoint txid iter_n) c).2
                  ltac:(lia) ltac:(lia)) as (r & Hloop & Hv & Hspent & Hfound).
      exists r. split; [done|]. split; [|split].
      * intros o. rewrite Hv. apply FetchCoin_view_stable.
      * intros Hr. destruct (Hspent Hr) as (He & Hnone). split; [done|].
        intros j Hj. destruct (decide (j = iter_n)) as [->|Hne]; [by rewrite Hlive|].
        rewrite <- (view_live_stable c (mkOutPoint txid iter_n)). apply Hnone. lia.
      * intros Hr. destruct (Hfound Hr) as (j & Hj & Hc & Hbefore).
        exists j. split; [lia|]. split.
        -- rewrite <- Hc. symmetry. apply FetchCoin_view_stable.
        -- intros j' Hj'.
           destruct (decide (j' = iter_n)) as [->|Hne]; [by rewrite Hlive|].
           rewrite <- (view_live_stable c (mkOutPoint txid iter_n)).
           apply Hbefore. lia.
    + eexists. split; [reflexivity|]. simpl.
      split; [intros o; apply FetchCoin_view_stable|].
      split; [congruence|]. intros _. exists iter_n. split; [lia|].
      split; [|intros j' Hj'; lia].
      destruct (view_coin c (mkOutPoint txid iter_n)) as [x|] eqn:Hx; simpl in Hcoin.
      * by subst.
      * subst alternate. by rewrite coinEmpty_spent in Hs.
  - eexists. split; [reflexivity|]. simpl. split; [done|].
    split; [|by rewrite coinEmpty_spent]. intros _. split; [done|]. intros j Hj. lia.
Qed.

(** For a bound of 2^32 or more, the 32-bit index stays below the bound:
    the loop never returns unless it meets a live output. *)
Lemma AccessByTxid_loop_turns_on turns MAX txid iter_n c :
  (2 ^ 32 <= MAX)%N -> (iter_n < 2 ^ 32)%N ->
  (forall j, (j < 2 ^ 32)%N -> view_live c (mkOutPoint txid j) = false) ->
  AccessByTxid_loop turns MAX txid iter_n c = None.
Proof.
  intros Hmax. revert iter_n c.
  induction turns as [|turns IH]; intros iter_n c Hn Hdead; [done|].
  simpl. destruct (N.ltb_spec iter_n MAX) as [Hlt|Hge]; [|lia].
  pose proof (AccessCoin_view_coin c (mkOutPoint txid iter_n)) as Hcoin.
  pose proof (AccessCoin_state c (mkOutPoint txid iter_n)) as Hstate.
  destruct (Cache.AccessCoin (mkOutPoint txid iter_n) c) as [alternate c1].
  simpl in Hcoin, Hstate. subst c1.
  assert (IsSpent alternate = true) as ->.
  { specialize (Hdead iter_n Hn). unfold view_live in Hdead. rewrite Hcoin.
    destruct (view_coin c (mkOutPoint txid iter_n)) as [x|]; simpl; [|done].
    by apply negb_false_iff in Hdead. }
  simpl. apply IH.
  - apply N.mod_upper_bound. lia.
  - intros j Hj. rewrite view_live_stable. by apply Hdead.
Qed.

End Probes.

(** X10.  [HaveInputs] is true for a coinbase, without a read.  For any
    other transaction of fewer than 2^32 inputs it returns, once the loop
    is given a turn for every input and one more, and it is true exactly
    when every input's prevout is live through the cache; its reads change
    nothing that the cache reports for any outpoint.  For a transaction of
    2^32 inputs or more the 32-bit counter wraps before it reaches the
    size: when the inputs the counter can reach are all live, the loop
    never returns. *)
Theorem HaveInputs_all_live {V : Type} `{CCoinsView V} (c : CCoinsViewCache V)
    (tx : CTransaction) :
  (tx_coinbase tx = true -> forall turns, HaveInputs turns tx c = Some (true, c))
  /\ (tx_coinbase tx = false ->
      (N.of_nat (length (vin tx)) < 2 ^ 32)%N ->
      forall turns, (length (vin tx) < turns)%nat ->
        exists c',
          HaveInputs turns tx c = Some (forallb (view_live c) (vin tx), c')
          /\ forall o, view_coin c' o = view_coin c o)
  /\ (tx_coinbase tx = false ->
      (2 ^ 32 <= N.of_nat (length (vin tx)))%N ->
      (forall j p, (N.of_nat j < 2 ^ 32)%N -> vin tx !! j = Some p ->
                   view_live c p = true) ->
      forall turns, HaveInputs turns tx c = None).
Proof.
  unfold HaveInputs. split; [|split].
  - by intros ->.
  - intros -> Hlen turns Hturns.
    destruct (HaveInputs_loop_returns turns 0%N (vin tx) c Hlen ltac:(lia) ltac:(lia))
      as (c' & Hloop & Hview).
    exists c'. by rewrite Hloop.
  - intros -> Hlen Hlive turns. by apply HaveInputs_loop_turns_on.
Qed.

Lemma HaveInputs_all_live_witness :
  (exists c',
     HaveInputs 2 tx1 cache_with_coin1
     = Some (forallb (view_live cache_with_coin1) (vin tx1), c')
     /\ forall o, view_coin c' o = view_coin cache_with_coin1 o)
  /\ HaveInputs 2 tx1 cache_with_coin1 = Some (true, cache_with_coin1)
  /\ HaveInputs 2 tx1 cache_empty = Some (false, cache_empty)
  /\ HaveInputs 1 tx1 cache_with_coin1 = None.
Proof.
  split.
  - destruct (HaveInputs_all_live cache_with_coin1 tx1) as (_ & Hret & _).
    apply Hret; [reflexivity|simpl; lia|simpl; lia].
  - repeat split; vm_compute; reflexivity.
Defined.

(** X11.  [AccessByTxid], for a bound below 2^32, returns once the loop is
    given more turns than the bound: it returns the coin of the first
    output index below the bound that is live through the cache, and the
    empty coin when no index below the bound is live, so that it never
    returns a spent coin other than the empty one; its reads change
    nothing that the cache reports.  For a bound of 2^32 or more the
    32-bit index wraps before it reaches the bound: when the transaction
    has no live output, the loop never returns. *)
Theorem AccessByTxid_first_live {V : Type} `{CCoinsView V} (view : CCoinsViewCache V)
    (MAX_OUTPUTS_PER_BLOCK : N) (txid : uint256) :
  ((MAX_OUTPUTS_PER_BLOCK < 2 ^ 32)%N ->
   forall turns, (MAX_OUTPUTS_PER_BLOCK < N.of_nat turns)%N ->
     exists r,
       AccessByTxid turns MAX_OUTPUTS_PER_BLOCK view txid = Some r
       /\ (forall o, view_coin r.2 o = view_coin view o)
       /\ (IsSpent r.1 = true ->
           r.1 = coinEmpty
           /\ forall j, (j < MAX_OUTPUTS_PER_BLOCK)%N ->
                        view_live view (mkOutPoint txid j) = false)
       /\ (IsSpent r.1 = false ->
           exists j, (j < MAX_OUTPUTS_PER_BLOCK)%N
                     /\ view_coin view (mkOutPoint txid j) = Some r.1
                     /\ forall j', (j' < j)%N ->
                                   view_live view (mkOutPoint txid j') = false))
  /\ ((2 ^ 32 <= MAX_OUTPUTS_PER_BLOCK)%N ->
      (forall j, (j < 2 ^ 32)%N -> view_live view (mkOutPoint txid j) = false) ->
      forall turns, AccessByTxid turns MAX_OUTPUTS_PER_BLOCK view txid = None).
Proof.
  unfold AccessByTxid. split.
  - intros Hmax turns Hturns.
    destruct (AccessByTxid_loop_first turns MAX_OUTPUTS_PER_BLOCK txid 0%N view
                Hmax ltac:(lia) ltac:(lia)) as (r & Hloop & Hv & Hspent & Hfound).
    exists r. split; [done|]. split; [done|]. split.
    + intros Hr. destruct (Hspent Hr) as (He & Hnone). split; [done|].
      intros j Hj. apply Hnone. lia.
    + intros Hr. destruct (Hfound Hr) as (j & Hj & Hc & Hbefore).
      exists j. split; [lia|]. split; [done|]. intros j' Hj'. apply Hbefore. lia.
  - intros Hmax Hdead turns. by apply AccessByTxid_loop_turns_on.
Qed.

Lemma AccessByTxid_first_live_witness :
  (exists r,
     AccessByTxid 4 3 cache_after_tx1 9%N = Some r
     /\ (forall o, view_coin r.2 o = view_coin cache_after_tx1 o)
     /\ (IsSpent r.1 = true ->
         r.1 = coinEmpty
         /\ forall j, (j < 3)%N -> view_live cache_after_tx1 (mkOutPoint 9%N j) = false)
     /\ (IsSpent r.1 = false ->
         exists j, (j < 3)%N
                   /\ view_coin cache_after_tx1 (mkOutPoint 9%N j) = Some r.1
                   /\ forall j', (j' < j)%N ->
                                 view_live cache_after_tx1 (mkOutPoint 9%N j') = false))
  /\ AccessByTxid 4 3 cache_after_tx1 9%N
     = Some (mkCoin (mkTxOut 30 script40) false 5%N, cache_after_tx1)
  /\ AccessByTxid 4 3 cache_after_tx1 8%N = Some (coinEmpty, cache_after_tx1)
  /\ AccessByTxid 3 3 cache_after_tx1 8%N = None.
Proof.
  split.
  - destruct (AccessByTxid_first_live cache_after_tx1 3%N 9%N) as [Hret _].
    apply Hret; simpl; lia.
  - repeat split; vm_compute; reflexivity.
Defined.

(** ** The merge, slot by slot *)

Lemma BatchWrite_entry_slot k it m u m' u' :
  Cache.BatchWrite_entry k it m u = Some (m', u') ->
  m' !! k = merged_slot it (m !! k).
Proof.
  unfold Cache.BatchWrite_entry, merged_slot.
  destruct (has_flag (flags it) DIRTY); simpl; [|by intros [= <- _]].
  destruct (m !! k) as [us|] eqn:Hlk.
  - destruct (_ && negb _); [done|].
    destruct (_ && _); intros [= <- _].
    + apply lookup_delete_eq.
    + apply lookup_insert_eq.
  - destruct (_ && _); intros [= <- _]; [done|]. apply lookup_insert_eq.
Qed.



Lemma not_in_map_to_list_keys (mapCoins : CCoinsMap) k :
  mapCoins !! k = None -> k ∉ (map_to_list mapCoins).*1.
Proof.
  intros Hlk Hin. apply list_elem_of_fmap in Hin as ([k' it] & -> & Hin).
  apply elem_of_map_to_list in Hin. simpl in *. congruence.
Qed.

Lemma BatchWrite_returned_slot {V : Type} `{CCoinsView V} (c c' : CCoinsViewCache V)
    mapCoins rest hashBlockIn names ok k :
  Cache.BatchWrite mapCoins hashBlockIn names c = Returned ok (c', rest) ->
  cacheCoins c' !! k
  = match mapCoins !! k with
    | Some it => merged_slot it (cacheCoins c !! k)
    | None => cacheCoins c !! k
    end.
Proof.
  intros Hret. apply BatchWrite_returned in Hret as (_ & _ & Hloop & _).
  destruct (mapCoins !! k) as [it|] eqn:Hlk.
  - assert ((k, it) ∈ map_to_list mapCoins) as Hin by by apply elem_of_map_to_list.
    destruct (BatchWrite_loop_turn _ _ _ _ _ _ _ (NoDup_fst_map_to_list mapCoins)
                Hin Hloop) as (m0 & u0 & m1 & u1 & Hm0 & Hstep & Hm').
    rewrite Hm'. rewrite (BatchWrite_entry_slot _ _ _ _ _ _ Hstep). by rewrite Hm0.
  - eapply BatchWrite_loop_frame; [|exact Hloop].
    by apply not_in_map_to_list_keys.
Qed.

(** The entries of a traversal of the child's map are those of the map,
    each key once. *)
Lemma traversal_entries (order : list (COutPoint * CCoinsCacheEntry))
    (mapCoins : CCoinsMap) :
  order ≡ₚ map_to_list mapCoins ->
  NoDup order.*1 /\ (forall k it, (k, it) ∈ order <-> mapCoins !! k = Some it).
Proof.
  intros Hperm. split.
  - rewrite Hperm. apply NoDup_fst_map_to_list.
  - intros k it. rewrite Hperm. apply elem_of_map_to_list.
Qed.

(** The slots that a loop running to its end leaves, for any traversal. *)
Lemma BatchWrite_loop_slot (order : list (COutPoint * CCoinsCacheEntry))
    (mapCoins m m' : CCoinsMap) (u u' : Z) (k : COutPoint) :
  order ≡ₚ map_to_list mapCoins ->
  Cache.BatchWrite_loop order m u = (m', u', []) ->
  m' !! k
  = match mapCoins !! k with
    | Some it => merged_slot it (m !! k)
    | None => m !! k
    end.
Proof.
  intros Hperm Hloop. destruct (traversal_entries _ _ Hperm) as [Hnd Hin].
  destruct (mapCoins !! k) as [it|] eqn:Hlk.
  - apply Hin in Hlk.
    destruct (BatchWrite_loop_turn _ _ _ _ _ _ _ Hnd Hlk Hloop)
      as (m0 & u0 & m1 & u1 & Hm0 & Hstep & Hm').
    rewrite Hm'. rewrite (BatchWrite_entry_slot _ _ _ _ _ _ Hstep). by rewrite Hm0.
  - eapply BatchWrite_loop_frame; [|exact Hloop].
    intros Hk. apply list_elem_of_fmap in Hk as ([k' it] & -> & Hk).
    apply Hin in Hk. simpl in Hlk. congruence.
Qed.

(** Whether the loop runs to its end does not depend on the traversal. *)
Lemma BatchWrite_loop_ends_any_order (order : list (COutPoint * CCoinsCacheEntry))
    (mapCoins m : CCoinsMap) (u : Z) :
  order ≡ₚ map_to_list mapCoins ->
  (Cache.BatchWrite_loop order m u).2 = []
  <-> (Cache.BatchWrite_loop (map_to_list mapCoins) m u).2 = [].
Proof.
  intros Hperm. destruct (traversal_entries _ _ Hperm) as [Hnd Hin].
  pose proof (BatchWrite_loop_throws order m u Hnd) as Ho.
  pose proof (BatchWrite_loop_throws (map_to_list mapCoins) m u
                (NoDup_fst_map_to_list mapCoins)) as Hm.
  assert ((exists k it us,
              (k, it) ∈ order /\ has_flag (flags it) DIRTY = true
              /\ has_flag (flags it) FRESH = true
              /\ m !! k = Some us /\ IsSpent (coin us) = false)
          <-> (exists k it us,
                 (k, it) ∈ map_to_list mapCoins /\ has_flag (flags it) DIRTY = true
                 /\ has_flag (flags it) FRESH = true
                 /\ m !! k = Some us /\ IsSpent (coin us) = false)) as Hsame.
  { split; intros (k & it & us & Hel & Hrest); exists k, it, us; (split; [|done]).
    - apply elem_of_map_to_list. by apply Hin.
    - apply Hin. by apply elem_of_map_to_list. }
  destruct (Cache.BatchWrite_loop order m u).2 as [|x l];
    destruct (Cache.BatchWrite_loop (map_to_list mapCoins) m u).2 as [|y l'];
    try done.
  - exfalso. assert (y :: l' <> []) as Hne by done.
    apply Hm, Hsame, Ho in Hne. done.
  - exfalso. assert (x :: l <> []) as Hne by done.
    apply Ho, Hsame, Hm in Hne. done.
Qed.

(** X12.  A returning [BatchWrite] leaves, for every outpoint, the slot
    that the merge of the child's entry gives, in whatever order the
    child's map is traversed: the slot as it was when the child has no
    entry or one without DIRTY; nothing for a spent child entry that is
    FRESH over an empty slot or that meets a FRESH entry; otherwise the
    child's coin, DIRTY, with FRESH carried over from the child only into
    an empty slot and kept from the receiving entry otherwise.  The
    child's map is drained, the child's names are applied and the usage
    counter stays equal to the sum.  Whether [BatchWrite] returns does not
    depend on the order either: the traversal in the order of
    [map_to_list] returns with the same map, best block, names and parent,
    and with the same counter when the counter was equal to the sum. *)
Theorem BatchWrite_merges {V : Type} `{CCoinsView V} (c c' : CCoinsViewCache V)
    (mapCoins rest : CCoinsMap) (order : list (COutPoint * CCoinsCacheEntry))
    (hashBlockIn : uint256) (names : CNameCache) (ok : bool) :
  order ≡ₚ map_to_list mapCoins ->
  BatchWrite_in_order order hashBlockIn names c = Returned ok (c', rest) ->
  (forall k,
     cacheCoins c' !! k
     = match mapCoins !! k with
       | Some it => merged_slot it (cacheCoins c !! k)
       | None => cacheCoins c !! k
       end)
  /\ ok = true /\ rest = ∅
  /\ cacheNames c' = NameCache.apply names (cacheNames c)
  /\ (usage_accounted c -> usage_accounted c')
  /\ exists c'',
       Cache.BatchWrite mapCoins hashBlockIn names c = Returned true (c'', ∅)
       /\ cacheCoins c'' = cacheCoins c' /\ hashBlock c'' = hashBlock c'
       /\ cacheNames c'' = cacheNames c' /\ base c'' = base c'
       /\ (usage_accounted c -> c'' = c').
Proof.
  intros Hperm Hret. unfold BatchWrite_in_order in Hret.
  destruct (Cache.BatchWrite_loop order _ _) as [[m' u'] [|x l]] eqn:Hloop; [|done].
  injection Hret as <- <- <-. simpl.
  assert (forall k,
            m' !! k
            = match mapCoins !! k with
              | Some it => merged_slot it (cacheCoins c !! k)
              | None => cacheCoins c !! k
              end) as Hslots.
  { intros k. by eapply BatchWrite_loop_slot. }
  assert (usage_accounted c -> u' = size_t_wrap (coins_usage m')) as Husage.
  { intros Hu. pose proof (BatchWrite_loop_usage order _ _ Hu) as Hl.
    by rewrite Hloop in Hl. }
  split; [exact Hslots|]. split; [done|]. split; [done|]. split; [done|].
  split; [exact Husage|].
  pose proof (proj1 (BatchWrite_loop_ends_any_order order mapCoins (cacheCoins c)
                       (cachedCoinsUsage c) Hperm)) as Hends.
  rewrite Hloop in Hends. specialize (Hends eq_refl).
  unfold Cache.BatchWrite.
  destruct (Cache.BatchWrite_loop (map_to_list mapCoins) _ _) as [[m2 u2] l2] eqn:Hloop2.
  simpl in Hends. subst l2.
  assert (m2 = m') as ->.
  { apply map_eq. intros k. rewrite Hslots.
    by apply (BatchWrite_loop_slot (map_to_list mapCoins) mapCoins _ _ _ _ k
                ltac:(reflexivity) Hloop2). }
  eexists. split; [reflexivity|]. simpl. split; [done|]. split; [done|].
  split; [done|]. split; [done|].
  intros Hu. rewrite (Husage Hu).
  pose proof (BatchWrite_loop_usage (map_to_list mapCoins) _ _ Hu) as Hl.
  rewrite Hloop2 in Hl. simpl in Hl. by rewrite Hl.
Qed.

(** The merge of [child_two] into [cache_with_coin1], traversed in the
    reverse of the order of [map_to_list]: the spent entry erases the
    FRESH [coin1], the FRESH [coin2] is created. *)
Lemma BatchWrite_merges_witness :
  reverse (map_to_list child_two) <> map_to_list child_two
  /\ BatchWrite_in_order (reverse (map_to_list child_two)) 5%N NameCache.clear
                         cache_with_coin1
     = Returned true (cache_after_child_two, ∅)
  /\ cacheCoins cache_after_child_two !! outpoint1 = None
  /\ cacheCoins cache_after_child_two !! outpoint2
     = Some (mkEntry coin2 (Z.lor DIRTY FRESH))
  /\ (forall k,
        cacheCoins cache_after_child_two !! k
        = match child_two !! k with
          | Some it => merged_slot it (cacheCoins cache_with_coin1 !! k)
          | None => cacheCoins cache_with_coin1 !! k
          end)
  /\ (usage_accounted cache_with_coin1 -> usage_accounted cache_after_child_two)
  /\ exists c'',
       Cache.BatchWrite child_two 5%N NameCache.clear cache_with_coin1
       = Returned true (c'', ∅)
       /\ cacheCoins c'' = cacheCoins cache_after_child_two.
Proof.
  assert (BatchWrite_in_order (reverse (map_to_list child_two)) 5%N NameCache.clear
                              cache_with_coin1
          = Returned true (cache_after_child_two, ∅)) as Hret
    by (vm_compute; reflexivity).
  destruct (BatchWrite_merges cache_with_coin1 cache_after_child_two child_two ∅
              (reverse (map_to_list child_two)) 5%N NameCache.clear true
              (reverse_Permutation _) Hret)
    as (Hslots & _ & _ & _ & Husage & c'' & Hlib & Hcoins & _).
  split; [vm_compute; discriminate|]. split; [exact Hret|].
  split; [vm_compute; reflexivity|]. split; [vm_compute; reflexivity|].
  split; [exact Hslots|]. split; [exact Husage|].
  exists c''. by split.
Defined.



(** ** Flush into a cache *)

Section ReportsThroughFlush.

Context {V : Type} `{CCoinsView V}.

Implicit Types c : CCoinsViewCache V.

(** What [GetCoin] returns depends on the slot and on the parent only. *)
Lemma GetCoin_slot_ext c1 c2 outpoint :
  cacheCoins c1 !! outpoint = cacheCoins c2 !! outpoint -> base c1 = base c2 ->
  (Cache.GetCoin outpoint c1).1 = (Cache.GetCoin outpoint c2).1.
Proof.
  intros Hslot Hbase. rewrite !GetCoin_view_coin.
  unfold view_live, view_coin. by rewrite Hslot, Hbase.
Qed.

(** Over a parent that reports live coins only, a miss returns what the
    parent reports. *)
Lemma GetCoin_miss_live_parent c outpoint :
  (forall x, GetCoin (base c) outpoint = Some x -> IsSpent x = false) ->
  cacheCoins c !! outpoint = None ->
  (Cache.GetCoin outpoint c).1 = GetCoin (base c) outpoint.
Proof.
  intros Hlive Hlk. rewrite (GetCoin_miss _ _ Hlk). unfold parent_live.
  destruct (GetCoin (base c) outpoint) as [x|] eqn:Hp; [|done].
  by rewrite (Hlive x eq_refl).
Qed.

End ReportsThroughFlush.

(** X14.  [Flush] of a cache into a cache keeps what is reported.  Let the
    clean entries of the child report what the parent reports, let the
    parent report no coin where the child has a FRESH entry, and let the
    view below the parent hold no live coin where the parent has a FRESH
    entry.  Then a returning [Flush] returns true, and at every outpoint
    the parent afterwards reports, and the flushed child returns, the coin
    that [GetCoin] on the child returned before. *)
Theorem Flush_keeps_reports {V : Type} `{CCoinsView V}
    (child child' : CCoinsViewCache (CCoinsViewCache V)) (ok : bool) :
  (forall o it, cacheCoins child !! o = Some it -> has_flag (flags it) DIRTY = false ->
                (Cache.GetCoin o child).1 = GetCoin (base child) o) ->
  (forall o it, cacheCoins child !! o = Some it -> has_flag (flags it) FRESH = true ->
                GetCoin (base child) o = None) ->
  (forall o us, cacheCoins (base child) !! o = Some us ->
                has_flag (flags us) FRESH = true ->
                parent_live (base (base child)) o = false) ->
  Cache.Flush child = Returned ok child' ->
  ok = true
  /\ forall o,
       GetCoin (base child') o = (Cache.GetCoin o child).1
       /\ (Cache.GetCoin o child').1 = (Cache.GetCoin o child).1.
Proof.
  intros Himg Hfc Hfp Hflush.
  assert (forall (c : CCoinsViewCache (CCoinsViewCache V)) o,
            cacheCoins c !! o = None -> (Cache.GetCoin o c).1 = GetCoin (base c) o)
    as Hmiss.
  { intros c o. apply GetCoin_miss_live_parent. intros x. apply cache_reports_live. }
  unfold Cache.Flush in Hflush.
  destruct (IsNull (hashBlock child) && bool_decide (cacheCoins child = ∅)
            && NameCache.empty (cacheNames child)) eqn:Htriv.
  - injection Hflush as <- <-. split; [done|]. intros o. split; [|done].
    symmetry. apply Hmiss.
    apply andb_true_iff in Htriv as [Htriv _]. apply andb_true_iff in Htriv as [_ Hm].
    apply bool_decide_eq_true in Hm. by rewrite Hm.
  - change (BatchWrite (base child) (cacheCoins child) (hashBlock child) (cacheNames child))
      with (Cache.BatchWrite (cacheCoins child) (hashBlock child) (cacheNames child)
              (base child)) in Hflush.
    destruct (Cache.BatchWrite _ _ _ (base child)) as [ok' [b rest]|e [b rest]|] eqn:Hb;
      [|done..].
    injection Hflush as <- <-.
    pose proof (fun k => BatchWrite_returned_slot _ _ _ _ _ _ _ k Hb) as Hslot.
    apply BatchWrite_returned in Hb as (-> & _ & _ & Hbase & _).
    split; [done|].
    assert (forall o, GetCoin b o = (Cache.GetCoin o child).1) as Hreport.
    { intros o. change (GetCoin b o) with (Cache.GetCoin o b).1.
      specialize (Hslot o).
      destruct (cacheCoins child !! o) as [it|] eqn:Hlk.
      - destruct (has_flag (flags it) DIRTY) eqn:Hd.
        + rewrite (GetCoin_hit _ _ _ Hlk).
          unfold merged_slot in Hslot. rewrite Hd in Hslot. simpl in Hslot.
          destruct (cacheCoins (base child) !! o) as [us|] eqn:Hp.
          * destruct (has_flag (flags us) FRESH && IsSpent (coin it)) eqn:Hers.
            -- apply andb_true_iff in Hers as [Hf Hs]. rewrite Hs.
               rewrite (GetCoin_miss _ _ Hslot), Hbase.
               by rewrite (Hfp o us Hp Hf).
            -- by rewrite (GetCoin_hit _ _ _ Hslot).
          * destruct (has_flag (flags it) FRESH && IsSpent (coin it)) eqn:Hdrop.
            -- apply andb_true_iff in Hdrop as [Hf Hs]. rewrite Hs.
               rewrite (GetCoin_slot_ext b (base child) o) by (by rewrite ?Hslot, ?Hp).
               apply (Hfc o it Hlk Hf).
            -- by rewrite (GetCoin_hit _ _ _ Hslot).
        + unfold merged_slot in Hslot. rewrite Hd in Hslot. simpl in Hslot.
          rewrite (GetCoin_slot_ext b (base child) o) by done.
          symmetry. by apply (Himg o it).
      - rewrite (GetCoin_slot_ext b (base child) o) by done.
        symmetry. by apply Hmiss. }
    intros o. split; [apply Hreport|].
    rewrite <- Hreport. by apply Hmiss.
Qed.

Lemma Flush_keeps_reports_witness :
  true = true
  /\ forall o,
       GetCoin (base (Cache.create cache_with_coin1)) o
       = (Cache.GetCoin o child_with_coin1).1
       /\ (Cache.GetCoin o (Cache.create cache_with_coin1)).1
          = (Cache.GetCoin o child_with_coin1).1.
Proof.
  apply (Flush_keeps_reports child_with_coin1 (Cache.create cache_with_coin1) true).
  - intros o it Hlk Hd. unfold child_with_coin1 in Hlk. simpl in Hlk.
    apply lookup_singleton_Some in Hlk as [_ <-]. discriminate Hd.
  - intros o it Hlk _. reflexivity.
  - intros o us Hlk _. reflexivity.
  - vm_compute. reflexivity.
Defined.

(** ** Names *)

Section NameCalls.

Context {V : Type} `{CCoinsView V}.

Implicit Types c : CCoinsViewCache V.

(** What [SetName] leaves when it passes its assertions. *)
Lemma SetName_some fNameHistory c c' name data undo :
  Cache.SetName fNameHistory name data undo c = Some c' ->
  base c' = base c /\ hashBlock c' = hashBlock c /\ cacheCoins c' = cacheCoins c
  /\ cachedCoinsUsage c' = cachedCoinsUsage c
  /\ nc_entries (cacheNames c') = <[name := NameSet data]> (nc_entries (cacheNames c))
  /\ nc_expire (cacheNames c')
     = <[(getHeight data, name) := ExpireAdd]>
         (match Cache.GetName name c with
          | Some old => <[(getHeight old, name) := ExpireRemove]> (nc_expire (cacheNames c))
          | None => nc_expire (cacheNames c)
          end).
Proof.
  unfold Cache.SetName.
  destruct (Cache.GetName name c) as [old|].
  - destruct fNameHistory; simpl.
    + destruct (if undo then _ else _) as [h'|]; simpl; [|done]. by intros [= <-].
    + by intros [= <-].
  - destruct undo; [done|]. by intros [= <-].
Qed.

Lemma GetName_entries c c' m :
  base c' = base c -> nc_entries (cacheNames c') !! m = nc_entries (cacheNames c) !! m ->
  Cache.GetName m c' = Cache.GetName m c.
Proof.
  intros Hb He. unfold Cache.GetName, NameCache.isDeleted, NameCache.get.
  by rewrite He, Hb.
Qed.

Lemma GetNamesForHeight_elem c height names name :
  Cache.GetNamesForHeight height c = Some names ->
  exists backend,
    GetNamesForHeight (base c) height = Some backend
    /\ (name ∈ names
        <-> nc_expire (cacheNames c) !! (height, name) = Some ExpireAdd
            \/ (nc_expire (cacheNames c) !! (height, name) = None /\ name ∈ backend)).
Proof.
  unfold Cache.GetNamesForHeight.
  destruct (GetNamesForHeight (base c) height) as [backend|]; [|done].
  intros [= <-]. exists backend. split; [done|]. apply elem_of_updateNamesForHeight.
Qed.

End NameCalls.

(** X15.  [SetName] without undo never fails an assertion.  Afterwards
    [GetName] returns the data for the name, whatever the cache or the
    backend held, tombstone included, and what it returns for every other
    name is as before; coins, usage counter, best block and parent are
    untouched. *)
Theorem SetName_then_GetName {V : Type} `{CCoinsView V} (fNameHistory : bool)
    (c : CCoinsViewCache V) (name : valtype) (data : CNameData) :
  exists c',
    Cache.SetName fNameHistory name data false c = Some c'
    /\ Cache.GetName name c' = Some data
    /\ (forall m, m <> name -> Cache.GetName m c' = Cache.GetName m c)
    /\ cacheCoins c' = cacheCoins c /\ cachedCoinsUsage c' = cachedCoinsUsage c
    /\ hashBlock c' = hashBlock c /\ base c' = base c.
Proof.
  assert (exists c', Cache.SetName fNameHistory name data false c = Some c') as [c' Hset].
  { unfold Cache.SetName. destruct (Cache.GetName name c); [|by eexists].
    destruct fNameHistory; simpl; by eexists. }
  exists c'. split; [done|].
  destruct (SetName_some _ _ _ _ _ _ Hset) as (Hb & Hh & Hm & Hu & He & _).
  split; [|split; [|done]].
  - unfold Cache.GetName, NameCache.isDeleted, NameCache.get.
    by rewrite He, lookup_insert_eq.
  - intros m Hne. apply GetName_entries; [done|]. rewrite He. by apply lookup_insert_ne.
Qed.

(** X16.  [SetName] with undo fails an assertion exactly when the name has
    no record to go back from, or name-history tracking is enabled and the
    top of the history of the name is not the data being set (an empty
    history included).  With tracking disabled an undo over an existing
    record always passes. *)
Theorem SetName_undo_asserts {V : Type} `{CCoinsView V} (fNameHistory : bool)
    (c : CCoinsViewCache V) (name : valtype) (data : CNameData) :
  Cache.SetName fNameHistory name data true c = None
  <-> Cache.GetName name c = None
      \/ (fNameHistory = true /\ head (history_of name c) <> Some data).
Proof.
  unfold Cache.SetName.
  destruct (Cache.GetName name c) as [old|] eqn:Hget; [|by split; [left|]].
  destruct fNameHistory; simpl.
  - change (default [] (Cache.GetNameHistory name
              (Cache.set_names
                 (NameCache.removeExpireIndex name (getHeight old) (cacheNames c)) c)))
      with (history_of name c).
    destruct (history_of name c) as [|top rest]; simpl.
    + split; [intros _; right; by split|done].
    + destruct (decide (top = data)) as [->|Hne]; simpl.
      * split; [done|]. intros [?|[_ Hh]]; done.
      * split; [|done]. intros _. right. split; [done|]. congruence.
  - split; [done|]. intros [?|[? _]]; done.
Qed.

(** X17.  [DeleteName] fails an assertion exactly when the name has no
    record, or name-history tracking is enabled and the name still has a
    history.  When it passes, the name is tombstoned: [GetName] returns
    nothing for it although the backend may still hold a record, every
    other name reads as before, and a later [SetName] brings the name
    back. *)
Theorem DeleteName_tombstones {V : Type} `{CCoinsView V} (fNameHistory : bool)
    (c : CCoinsViewCache V) (name : valtype) :
  (Cache.DeleteName fNameHistory name c = None
   <-> Cache.GetName name c = None
       \/ (fNameHistory = true /\ history_of name c <> []))
  /\ (forall c',
        Cache.DeleteName fNameHistory name c = Some c' ->
        Cache.GetName name c' = None
        /\ (forall m, m <> name -> Cache.GetName m c' = Cache.GetName m c)
        /\ cacheCoins c' = cacheCoins c
        /\ forall data,
             exists c'',
               Cache.SetName fNameHistory name data false c' = Some c''
               /\ Cache.GetName name c'' = Some data).
Proof.
  unfold Cache.DeleteName.
  destruct (Cache.GetName name c) as [old|] eqn:Hget.
  - change (Cache.GetNameHistory name
              (Cache.set_names
                 (NameCache.removeExpireIndex name (getHeight old) (cacheNames c)) c))
      with (Cache.GetNameHistory name c).
    assert (match Cache.GetNameHistory name c with
            | Some h => NameHistory.empty h
            | None => true
            end = bool_decide (history_of name c = [])) as ->.
    { unfold history_of. destruct (Cache.GetNameHistory name c) as [[|? ?]|]; done. }
    split.
    + destruct fNameHistory; simpl.
      * destruct (decide (history_of name c = [])) as [Heq|Hne].
        -- rewrite bool_decide_eq_true_2 by done. simpl.
           split; [done|]. intros [?|[_ ?]]; done.
        -- rewrite bool_decide_eq_false_2 by done. simpl.
           split; [|done]. intros _. by right.
      * split; [done|]. intros [?|[? _]]; done.
    + intros c' Hdel.
      assert (c' = Cache.set_names
                     (NameCache.remove name
                        (NameCache.removeExpireIndex name (getHeight old) (cacheNames c)))
                     c) as ->.
      { destruct (fNameHistory && negb _); [done|]. by injection Hdel as <-. }
      split; [|split; [|split; [done|]]].
      * unfold Cache.GetName, NameCache.isDeleted. simpl. by rewrite lookup_insert_eq.
      * intros m Hne. apply GetName_entries; [done|]. simpl. by apply lookup_insert_ne.
      * intros data. unfold Cache.SetName.
        assert (Cache.GetName name
                  (Cache.set_names
                     (NameCache.remove name
                        (NameCache.removeExpireIndex name (getHeight old) (cacheNames c)))
                     c) = None) as ->.
        { unfold Cache.GetName, NameCache.isDeleted. simpl. by rewrite lookup_insert_eq. }
        eexists. split; [done|].
        unfold Cache.GetName, NameCache.isDeleted, NameCache.get. simpl.
        by rewrite lookup_insert_eq.
  - split; [by split; [left|]|done].
Qed.

(** X18.  [GetNamesForHeight] fails whenever the backend fails, whatever
    the cache recorded.  After a passing [SetName] the name is listed at
    the height of the data and, when it had a record at another height,
    no longer at that height; the listing of every other name, and of
    this name at every other height, is as before. *)
Theorem SetName_moves_listing {V : Type} `{CCoinsView V} (fNameHistory : bool)
    (c c' : CCoinsViewCache V) (name : valtype) (data : CNameData) (undo : bool) :
  Cache.SetName fNameHistory name data undo c = Some c' ->
  (forall height, GetNamesForHeight (base c) height = None ->
                  Cache.GetNamesForHeight height c' = None)
  /\ (forall names, Cache.GetNamesForHeight (getHeight data) c' = Some names ->
                    name ∈ names)
  /\ (forall old names,
        Cache.GetName name c = Some old -> getHeight old <> getHeight data ->
        Cache.GetNamesForHeight (getHeight old) c' = Some names -> name ∉ names)
  /\ (forall height m names names',
        (m <> name
         \/ (height <> getHeight data
             /\ forall old, Cache.GetName name c = Some old -> height <> getHeight old)) ->
        Cache.GetNamesForHeight height c = Some names ->
        Cache.GetNamesForHeight height c' = Some names' ->
        (m ∈ names' <-> m ∈ names)).
Proof.
  intros Hset.
  destruct (SetName_some _ _ _ _ _ _ Hset) as (Hb & _ & _ & _ & _ & Hexp).
  split; [|split; [|split]].
  - intros height Hnone. unfold Cache.GetNamesForHeight. by rewrite Hb, Hnone.
  - intros names Hnames.
    apply (GetNamesForHeight_elem _ _ _ name) in Hnames as (backend & _ & ->).
    left. rewrite Hexp. apply lookup_insert_eq.
  - intros old names Hget Hne Hnames.
    apply (GetNamesForHeight_elem _ _ _ name) in Hnames as (backend & _ & ->).
    rewrite Hexp, Hget. rewrite lookup_insert_ne by congruence.
    rewrite lookup_insert_eq. intros [?|[? _]]; done.
  - intros height m names names' Hother Hn Hn'.
    apply (GetNamesForHeight_elem _ _ _ m) in Hn as (backend & Hbk & ->).
    apply (GetNamesForHeight_elem _ _ _ m) in Hn' as (backend' & Hbk' & ->).
    rewrite Hb, Hbk in Hbk'. injection Hbk' as <-.
    assert (nc_expire (cacheNames c') !! (height, m)
            = nc_expire (cacheNames c) !! (height, m)) as ->; [|done].
    rewrite Hexp.
    rewrite lookup_insert_ne
      by (intros [= ? ?]; destruct Hother as [?|[? _]]; congruence).
    destruct (Cache.GetName name c) as [old|]; [|done].
    rewrite lookup_insert_ne; [done|].
    intros [= Hh Hm]. destruct Hother as [?|[_ Hold]]; [congruence|].
    by apply (Hold old).
Qed.

Lemma SetName_moves_listing_witness :
  (forall height, GetNamesForHeight (base cache_over_name_table) height = None ->
                  Cache.GetNamesForHeight height
                    (default cache_over_name_table
                       (Cache.SetName true name_a data_new false cache_over_name_table))
                  = None)
  /\ (forall names,
        Cache.GetNamesForHeight (getHeight data_new)
          (default cache_over_name_table
             (Cache.SetName true name_a data_new false cache_over_name_table))
        = Some names ->
        name_a ∈ names)
  /\ (forall old names,
        Cache.GetName name_a cache_over_name_table = Some old ->
        getHeight old <> getHeight data_new ->
        Cache.GetNamesForHeight (getHeight old)
          (default cache_over_name_table
             (Cache.SetName true name_a data_new false cache_over_name_table))
        = Some names ->
        name_a ∉ names)
  /\ (forall height m names names',
        (m <> name_a
         \/ (height <> getHeight data_new
             /\ forall old, Cache.GetName name_a cache_over_name_table = Some old ->
                            height <> getHeight old)) ->
        Cache.GetNamesForHeight height cache_over_name_table = Some names ->
        Cache.GetNamesForHeight height
          (default cache_over_name_table
             (Cache.SetName true name_a data_new false cache_over_name_table))
        = Some names' ->
        (m ∈ names' <-> m ∈ names)).
Proof.
  apply (SetName_moves_listing true cache_over_name_table
           (default cache_over_name_table
              (Cache.SetName true name_a data_new false cache_over_name_table))
           name_a data_new false).
  vm_compute. reflexivity.
Defined.

(** ** The usage counter along a run *)

(** The members decide whether the counter equals the sum. *)
Lemma usage_accounted_members {V : Type} (c1 c2 : CCoinsViewCache V) :
  members c2 = members c1 -> usage_accounted c1 -> usage_accounted c2.
Proof. unfold members, usage_accounted. intros [= _ -> ->]. done. Qed.

(** The merge keeps the counter equal to the sum in any traversal order,
    also when it throws. *)
Lemma BatchWrite_in_order_usage {V : Type} `{CCoinsView V} (c : CCoinsViewCache V)
    order hashBlockIn names s :
  usage_accounted c ->
  state_after (BatchWrite_in_order order hashBlockIn names c) = Some s ->
  usage_accounted s.1.
Proof.
  intros Hu. pose proof (BatchWrite_loop_usage order _ _ Hu) as Hl.
  unfold BatchWrite_in_order.
  destruct (Cache.BatchWrite_loop order _ _) as [[m' u'] [|x l]];
    intros [= <-]; exact Hl.
Qed.

(** X19.  Along any run of public calls in which no [AddCoin] throws, no
    [EmplaceCoinInternalDANGER] hits a taken slot and no [Flush] meets a
    throwing parent, the usage counter equals the sum of the usage of the
    coins in the map at every boundary, reads, [SpendCoin], [Uncache],
    [BatchWrite] (returning or throwing, in any traversal order) and
    [Flush] included, and whatever the reads of the run left in the parent
    between the calls. *)
Theorem usage_accounted_along_run {V : Type} `{CCoinsView V} (fNameHistory : bool)
    (calls : list Call) (c c' : CCoinsViewCache V) :
  usage_accounted c ->
  counted_run fNameHistory calls c c' ->
  usage_accounted c'.
Proof.
  intros Hu Hrun.
  induction Hrun as [c|call calls c c1 c2 c' Hkept Hstep Hmem Hrun IH]; [done|].
  apply IH. apply (usage_accounted_members c1 c2 Hmem).
  assert ((forall mapCoins hashBlockIn names,
             call <> CallBatchWrite mapCoins hashBlockIn names)
          \/ (exists mapCoins hashBlockIn names,
                call = CallBatchWrite mapCoins hashBlockIn names)) as [Hother|Hmerge].
  { destruct call; try (left; intros; discriminate). right. do 3 eexists. reflexivity. }
  - assert (after_call fNameHistory call c = Some c1) as Hafter.
    { destruct call; try exact Hstep. by destruct (Hother mapCoins hashBlockIn names). }
    apply (after_call_usage_accounted fNameHistory call c c1 Hu Hafter).
    + intros outpoint coin0 po e s -> Hth. simpl in Hkept. by rewrite Hth in Hkept.
    + intros outpoint coin0 ->. simpl in Hkept.
      apply bool_decide_eq_false in Hkept.
      destruct (cacheCoins c !! outpoint) eqn:Hlk; [|done].
      destruct Hkept. by eexists.
    + intros e s -> Hth. simpl in Hkept. by rewrite Hth in Hkept.
  - destruct Hmerge as (mapCoins & hashBlockIn & names & ->).
    destruct Hstep as (order & _ & Hafter).
    destruct (state_after _) as [[s rest]|] eqn:Hs; [|done].
    injection Hafter as <-.
    apply (BatchWrite_in_order_usage c order hashBlockIn names (s, rest) Hu Hs).
Qed.

(** A run over a stack of two caches.  The read of [outpoint1] fills the
    lower cache as well; the coin is then spent and the upper cache
    flushed into the lower one, and [coin2] is added. *)
Lemma usage_accounted_along_run_witness :
  counted_run false
    [CallGetCoin outpoint1; CallSpendCoin outpoint1 false; CallFlush;
     CallAddCoin outpoint2 coin2 false]
    stack_over_table stack_after_run
  /\ cacheCoins (base stack_after_read) !! outpoint1 = Some (mkEntry coin1 0)
  /\ cachedCoinsUsage stack_after_run = 40
  /\ usage_accounted stack_after_run.
Proof.
  assert (counted_run false
            [CallGetCoin outpoint1; CallSpendCoin outpoint1 false; CallFlush;
             CallAddCoin outpoint2 coin2 false]
            stack_over_table stack_after_run) as Hrun.
  { apply (counted_run_cons false _ _ stack_over_table
             (Cache.GetCoin outpoint1 stack_over_table).2 stack_after_read);
      [reflexivity|reflexivity|reflexivity|].
    eapply counted_run_cons;
      [vm_compute; reflexivity|simpl; reflexivity|reflexivity|].
    eapply counted_run_cons;
      [vm_compute; reflexivity|simpl; vm_compute; reflexivity|reflexivity|].
    eapply counted_run_cons;
      [vm_compute; reflexivity|simpl; vm_compute; reflexivity|reflexivity|].
    replace stack_after_run with
      (mkCache (mkCache (mkTable {[ outpoint1 := coin1 ]} ∅ ∅) 0%N
                  {[ outpoint1 := mkEntry coinEmpty DIRTY ]} 0 NameCache.clear)
               0%N {[ outpoint2 := mkEntry coin2 (Z.lor DIRTY FRESH) ]} 40
               NameCache.clear)
      by (vm_compute; reflexivity).
    apply counted_run_nil. }
  split; [exact Hrun|]. split; [vm_compute; reflexivity|].
  split; [vm_compute; reflexivity|].
  assert (usage_accounted stack_over_table) as Hu by (vm_compute; reflexivity).
  exact (usage_accounted_along_run false _ stack_over_table stack_after_run Hu Hrun).
Defined.

(** ** The best block *)

(** X20.  [GetBestBlock] returns the marker of the cache when it is set
    and the best block the parent reports otherwise, so it returns null
    only when both are null.  [SetBestBlock] followed by [GetBestBlock]
    returns the hash that was set, unless that hash is null: a null hash
    does not pin the cache, and the parent's best block is returned.  A
    second [GetBestBlock] returns the same and leaves the members as they
    are; coin map, counter and names are never touched. *)
Theorem GetBestBlock_nearest_marker {V : Type} `{CCoinsView V} (c : CCoinsViewCache V)
    (hashBlockIn : uint256) :
  (Cache.GetBestBlock c).1
  = (if IsNull (hashBlock c) then GetBestBlock (base c) else hashBlock c)
  /\ (IsNull (Cache.GetBestBlock c).1 = true ->
      IsNull (hashBlock c) = true /\ IsNull (GetBestBlock (base c)) = true)
  /\ (Cache.GetBestBlock (Cache.SetBestBlock hashBlockIn c)).1
     = (if IsNull hashBlockIn then GetBestBlock (base c) else hashBlockIn)
  /\ (Cache.GetBestBlock (Cache.GetBestBlock c).2).1 = (Cache.GetBestBlock c).1
  /\ members (Cache.GetBestBlock (Cache.GetBestBlock c).2).2
     = members (Cache.GetBestBlock c).2
  /\ cacheCoins (Cache.GetBestBlock c).2 = cacheCoins c
  /\ cachedCoinsUsage (Cache.GetBestBlock c).2 = cachedCoinsUsage c
  /\ cacheNames (Cache.GetBestBlock c).2 = cacheNames c.
Proof.
  unfold Cache.GetBestBlock, Cache.SetBestBlock, members. simpl.
  destruct (IsNull (hashBlock c)) eqn:Hn; simpl.
  - split; [done|]. split; [done|].
    split; [by destruct (IsNull hashBlockIn)|].
    by destruct (IsNull (GetBestBlock (base c))).
  - split; [done|]. split; [congruence|].
    split; [by destruct (IsNull hashBlockIn)|]. by rewrite Hn.
Qed.

(** ** FRESH stays sound *)

Section FreshSound.

Context {V : Type} `{CCoinsView V}.

Implicit Types c : CCoinsViewCache V.

Lemma fresh_sound_insert c m u outpoint e :
  fresh_sound c ->
  (has_flag (flags e) FRESH = true
   \/ (has_flag (flags e) DIRTY = false /\ IsSpent (coin e) = true) ->
   parent_live (base c) outpoint = false) ->
  (forall o', o' <> outpoint -> m !! o' = cacheCoins c !! o') ->
  m !! outpoint = Some e ->
  fresh_sound (Cache.set_coins m u c).
Proof.
  intros Hc He Hm Hlk o e' Hlk' Hfl. simpl in *.
  destruct (decide (o = outpoint)) as [->|Hne].
  - rewrite Hlk in Hlk'. injection Hlk' as <-. by apply He.
  - rewrite Hm in Hlk' by done. by apply (Hc o e').
Qed.

Lemma fresh_sound_delete c u outpoint :
  fresh_sound c -> fresh_sound (Cache.set_coins (delete outpoint (cacheCoins c)) u c).
Proof.
  intros Hc o e Hlk Hfl. simpl in *.
  apply lookup_delete_Some in Hlk as [_ Hlk]. by apply (Hc o e).
Qed.

Lemma FetchCoin_fresh_sound c outpoint :
  fresh_sound c -> fresh_sound (Cache.FetchCoin outpoint c).2.
Proof.
  intros Hc. unfold Cache.FetchCoin.
  destruct (cacheCoins c !! outpoint) eqn:Hlk; [done|].
  destruct (GetCoin (base c) outpoint) as [tmp|] eqn:Hp; [|done]. simpl.
  eapply fresh_sound_insert; [done| | |apply lookup_insert_eq].
  - simpl. unfold parent_live. rewrite Hp.
    destruct (IsSpent tmp); [done|]. intros [?|[_ ?]]; done.
  - intros o' Hne. by apply lookup_insert_ne.
Qed.

Lemma SpendCoin_fresh_sound c outpoint moveout :
  fresh_sound c -> fresh_sound (Cache.SpendCoin outpoint moveout c).2.
Proof.
  intros Hc. apply (FetchCoin_fresh_sound c outpoint) in Hc.
  pose proof (FetchCoin_found c outpoint) as Hfound.
  unfold Cache.SpendCoin.
  destruct (Cache.FetchCoin outpoint c) as [[it|] c1]; simpl in *; [|done].
  specialize (Hfound it eq_refl).
  destruct (has_flag (flags it) FRESH) eqn:Hf; simpl.
  - by apply fresh_sound_delete.
  - eapply fresh_sound_insert; [done| | |apply lookup_insert_eq].
    + simpl. rewrite lor_DIRTY_only_has_FRESH, lor_DIRTY_only_has_DIRTY.
      intros [?|[? _]]; congruence.
    + intros o' Hne. by apply lookup_insert_ne.
Qed.

Lemma Uncache_fresh_sound c outpoint :
  fresh_sound c -> fresh_sound (Cache.Uncache outpoint c).
Proof.
  intros Hc. unfold Cache.Uncache.
  destruct (cacheCoins c !! outpoint) as [it|]; [|done].
  destruct (flags it =? 0); [|done]. by apply fresh_sound_delete.
Qed.

(** [AddCoin] under the caller's contract: no overwrite is declared
    impossible where the cache reports a live coin. *)
Lemma AddCoin_fresh_sound c c' outpoint coin0 possible_overwrite :
  fresh_sound c ->
  (possible_overwrite = false -> view_live c outpoint = false) ->
  Cache.AddCoin outpoint coin0 possible_overwrite c = Returned tt c' ->
  fresh_sound c'.
Proof.
  intros Hc Hcontract. unfold Cache.AddCoin.
  destruct (IsSpent coin0); [done|].
  destruct (IsUnspendable _); [by intros [= <-]|].
  unfold view_live, view_coin in Hcontract.
  destruct (cacheCoins c !! outpoint) as [e|] eqn:Hlk; simpl.
  - destruct (negb possible_overwrite && negb (IsSpent (coin e))) eqn:Hthrow; [done|].
    intros [= <-].
    eapply (fresh_sound_insert c _ _ outpoint); [done| | |apply lookup_insert_eq].
    + simpl. rewrite lor_DIRTY_has_FRESH, lor_DIRTY_has_DIRTY.
      intros [Hfr|[? _]]; [|done].
      apply orb_true_iff in Hfr as [Hfe|Hnew].
      * apply (Hc outpoint e Hlk). by left.
      * apply andb_true_iff in Hnew as [Hpo Hnd].
        apply negb_true_iff in Hpo, Hnd. subst possible_overwrite.
        specialize (Hcontract eq_refl). apply negb_false_iff in Hcontract.
        apply (Hc outpoint e Hlk). right. by split.
    + intros o' Hne. by apply lookup_insert_ne.
  - rewrite andb_false_r. intros [= <-].
    eapply (fresh_sound_insert c _ _ outpoint); [done| | |apply lookup_insert_eq].
    + simpl. rewrite lor_DIRTY_has_FRESH, lor_DIRTY_has_DIRTY.
      intros [Hfr|[? _]]; [|done].
      rewrite has_flag_0 in Hfr. simpl in Hfr.
      apply andb_true_iff in Hfr as [Hpo _]. apply negb_true_iff in Hpo.
      specialize (Hcontract Hpo). unfold parent_live.
      by destruct (GetCoin (base c) outpoint).
    + intros o' Hne. by rewrite !lookup_insert_ne.
Qed.

Lemma AddCoins_loop_fresh_sound txid fCoinbase height i outs c c' :
  fresh_sound c ->
  AddCoins_loop txid fCoinbase height true i outs c = Returned tt c' ->
  fresh_sound c'.
Proof.
  revert i c. induction outs as [|txout outs IH]; intros i c Hc; simpl.
  - by intros [= <-].
  - pose proof (HaveCoin_view_live c (outpoint_at txid i)) as Hlive.
    pose proof (HaveCoin_state c (outpoint_at txid i)) as Hstate.
    destruct (Cache.HaveCoin (outpoint_at txid i) c) as [overwrite c1].
    simpl in Hlive, Hstate. subst c1.
    destruct (Cache.AddCoin _ _ overwrite _) as [[] c2|e s|] eqn:Ha; [|done..].
    apply IH.
    apply (AddCoin_fresh_sound (Cache.FetchCoin (outpoint_at txid i) c).2 c2
             (outpoint_at txid i) (mkCoin txout fCoinbase height) overwrite);
      [by apply FetchCoin_fresh_sound| |exact Ha].
    intros Hpo. rewrite view_live_stable. congruence.
Qed.

End FreshSound.

(** X21.  When every FRESH entry, and every clean spent entry, of the
    cache sits at an outpoint where the parent reports no live coin, a
    returning [AddCoin] keeps it so, provided the caller passes
    [possible_overwrite = false] only for an outpoint at which the cache
    reports no live coin; [AddCoins] with [check_for_overwrite = true]
    meets that condition by itself, since it asks [HaveCoin] first. *)
Theorem AddCoin_keeps_fresh_sound {V : Type} `{CCoinsView V} (c : CCoinsViewCache V) :
  fresh_sound c ->
  (forall outpoint coin0 possible_overwrite c',
      (possible_overwrite = false -> view_live c outpoint = false) ->
      Cache.AddCoin outpoint coin0 possible_overwrite c = Returned tt c' ->
      fresh_sound c')
  /\ (forall tx height c',
         AddCoins tx height true c = Returned tt c' -> fresh_sound c').
Proof.
  intros Hc. split.
  - intros outpoint coin0 po c' Hcontract Ha.
    by apply (AddCoin_fresh_sound c c' outpoint coin0 po).
  - intros tx height c' Ha. unfold AddCoins in Ha.
    by apply (AddCoins_loop_fresh_sound _ _ _ _ _ _ _ Hc Ha).
Qed.

Lemma AddCoin_keeps_fresh_sound_witness :
  (forall outpoint coin0 possible_overwrite c',
      (possible_overwrite = false -> view_live cache_over_coin1 outpoint = false) ->
      Cache.AddCoin outpoint coin0 possible_overwrite cache_over_coin1 = Returned tt c' ->
      fresh_sound c')
  /\ (forall tx height c',
         AddCoins tx height true cache_over_coin1 = Returned tt c' -> fresh_sound c').
Proof.
  apply (AddCoin_keeps_fresh_sound cache_over_coin1).
  intros outpoint e Hlk. simpl in Hlk. by rewrite lookup_empty in Hlk.
Defined.

(** X22.  The same soundness of FRESH is kept by the reads, by [Uncache]
    and by [SpendCoin]; and under it a spend is a spend: after
    [SpendCoin], [HaveCoin] returns false for the outpoint, also when
    [SpendCoin] erased the entry and the answer comes from the parent. *)
Theorem SpendCoin_spends_when_fresh_sound {V : Type} `{CCoinsView V}
    (c : CCoinsViewCache V) (outpoint : COutPoint) :
  fresh_sound c ->
  fresh_sound (Cache.GetCoin outpoint c).2
  /\ fresh_sound (Cache.HaveCoin outpoint c).2
  /\ fresh_sound (Cache.AccessCoin outpoint c).2
  /\ fresh_sound (Cache.Uncache outpoint c)
  /\ (forall moveout,
         fresh_sound (Cache.SpendCoin outpoint moveout c).2
         /\ (Cache.HaveCoin outpoint (Cache.SpendCoin outpoint moveout c).2).1 = false).
Proof.
  intros Hc.
  rewrite GetCoin_state, HaveCoin_state, AccessCoin_state.
  split; [by apply FetchCoin_fresh_sound|].
  split; [by apply FetchCoin_fresh_sound|].
  split; [by apply FetchCoin_fresh_sound|].
  split; [by apply Uncache_fresh_sound|].
  intros moveout. split; [by apply SpendCoin_fresh_sound|].
  rewrite HaveCoin_view_live.
  pose proof (FetchCoin_fresh_sound c outpoint Hc) as Hc1.
  pose proof (FetchCoin_found c outpoint) as Hfound.
  pose proof (FetchCoin_view_coin c outpoint) as Hview.
  pose proof (view_live_stable c outpoint outpoint) as Hstable.
  unfold Cache.SpendCoin.
  destruct (Cache.FetchCoin outpoint c) as [[it|] c1]; simpl in *.
  - specialize (Hfound it eq_refl).
    destruct (has_flag (flags it) FRESH) eqn:Hf; simpl.
    + unfold view_live, view_coin. simpl. rewrite lookup_delete_eq.
      apply (Hc1 outpoint it Hfound). by left.
    + unfold view_live, view_coin. simpl. by rewrite lookup_insert_eq.
  - rewrite Hstable. unfold view_live. by rewrite <- Hview.
Qed.

Lemma SpendCoin_spends_when_fresh_sound_witness :
  fresh_sound (Cache.GetCoin outpoint1 cache_over_coin1).2
  /\ fresh_sound (Cache.HaveCoin outpoint1 cache_over_coin1).2
  /\ fresh_sound (Cache.AccessCoin outpoint1 cache_over_coin1).2
  /\ fresh_sound (Cache.Uncache outpoint1 cache_over_coin1)
  /\ (forall moveout,
         fresh_sound (Cache.SpendCoin outpoint1 moveout cache_over_coin1).2
         /\ (Cache.HaveCoin outpoint1
               (Cache.SpendCoin outpoint1 moveout cache_over_coin1).2).1 = false).
Proof.
  apply (SpendCoin_spends_when_fresh_sound cache_over_coin1 outpoint1).
  intros outpoint e Hlk. simpl in Hlk. by rewrite lookup_empty in Hlk.
Defined.

(** ** The fill of a lower cache *)

(** What [GetCoin] returns is not changed by an earlier read. *)
Lemma GetCoin_result_stable {V : Type} `{CCoinsView V} (c : CCoinsViewCache V)
    (outpoint o' : COutPoint) :
  (Cache.GetCoin o' (Cache.GetCoin outpoint c).2).1 = (Cache.GetCoin o' c).1.
Proof.
  rewrite GetCoin_state, !GetCoin_view_coin. unfold view_live.
  by rewrite FetchCoin_view_stable.
Qed.

(** X24.  A read through a cache that sits over a cache, with the read of
    the lower cache followed: [GetCoin] returns what it returns when the
    lower cache is taken as a view that only reports, and leaves the same
    members in the upper cache.  On a miss the lower cache is left as its
    own [GetCoin] leaves it, its map filled; it reports for every outpoint
    what it reported before.  [GetBestBlock] likewise returns the same,
    leaves the same members, and leaves the lower cache as its own
    [GetBestBlock] leaves it, reporting the best block it reported
    before. *)
Theorem stacked_read_agrees {V : Type} `{CCoinsView V}
    (c : CCoinsViewCache (CCoinsViewCache V)) (outpoint : COutPoint) :
  (Stacked.GetCoin outpoint c).1 = (Cache.GetCoin outpoint c).1
  /\ members (Stacked.GetCoin outpoint c).2 = members (Cache.GetCoin outpoint c).2
  /\ base (Stacked.GetCoin outpoint c).2
     = match cacheCoins c !! outpoint with
       | Some _ => base c
       | None => (Cache.GetCoin outpoint (base c)).2
       end
  /\ (forall o', GetCoin (base (Stacked.GetCoin outpoint c).2) o' = GetCoin (base c) o')
  /\ (Stacked.GetBestBlock c).1 = (Cache.GetBestBlock c).1
  /\ members (Stacked.GetBestBlock c).2 = members (Cache.GetBestBlock c).2
  /\ base (Stacked.GetBestBlock c).2
     = (if IsNull (hashBlock c) then (Cache.GetBestBlock (base c)).2 else base c)
  /\ GetBestBlock (base (Stacked.GetBestBlock c).2) = GetBestBlock (base c).
Proof.
  assert (base (Stacked.GetCoin outpoint c).2
          = match cacheCoins c !! outpoint with
            | Some _ => base c
            | None => (Cache.GetCoin outpoint (base c)).2
            end) as Hbase.
  { unfold Stacked.GetCoin, Stacked.FetchCoin.
    destruct (cacheCoins c !! outpoint) as [e|]; [done|].
    by destruct (Cache.GetCoin outpoint (base c)) as [[tmp|] b]. }
  assert (base (Stacked.GetBestBlock c).2
          = (if IsNull (hashBlock c) then (Cache.GetBestBlock (base c)).2 else base c))
    as Hbest.
  { unfold Stacked.GetBestBlock. destruct (IsNull (hashBlock c)); [|done].
    by destruct (Cache.GetBestBlock (base c)). }
  split; [|split; [|split; [exact Hbase|split; [|split; [|split; [|split;
    [exact Hbest|]]]]]]].
  - unfold Stacked.GetCoin, Stacked.FetchCoin, Cache.GetCoin at 2, Cache.FetchCoin.
    destruct (cacheCoins c !! outpoint) as [e|]; [done|]. simpl.
    by destruct (Cache.GetCoin outpoint (base c)) as [[tmp|] b].
  - unfold Stacked.GetCoin, Stacked.FetchCoin, Cache.GetCoin at 2, Cache.FetchCoin.
    destruct (cacheCoins c !! outpoint) as [e|]; [done|]. simpl.
    by destruct (Cache.GetCoin outpoint (base c)) as [[tmp|] b].
  - intros o'. rewrite Hbase. destruct (cacheCoins c !! outpoint); [done|].
    simpl. apply GetCoin_result_stable.
  - unfold Stacked.GetBestBlock, Cache.GetBestBlock at 2.
    destruct (IsNull (hashBlock c)); [|done]. simpl.
    by destruct (Cache.GetBestBlock (base c)).
  - unfold Stacked.GetBestBlock, Cache.GetBestBlock at 2.
    destruct (IsNull (hashBlock c)); [|done]. simpl.
    by destruct (Cache.GetBestBlock (base c)).
  - rewrite Hbest. destruct (IsNull (hashBlock c)); [|done]. simpl.
    unfold Cache.GetBestBlock. simpl.
    destruct (IsNull (hashBlock (base c))) eqn:Hn; simpl; [|by rewrite Hn].
    by destruct (IsNull (GetBestBlock (base (base c)))).
Qed.

(** The read of [outpoint1] through [stack_over_table] returns [coin1]
    and fills the lower cache.  The fill is seen by a later [Flush]: after
    [Uncache] and [AddCoin] without overwrite at the same outpoint, the
    upper entry is FRESH over the coin the lower cache fetched, and [Flush]
    throws; over the lower cache as it was before the read, it returns. *)
Lemma stacked_read_agrees_witness :
  (Cache.GetCoin outpoint1 stack_over_table).1 = Some coin1
  /\ cacheCoins (base (Stacked.GetCoin outpoint1 stack_over_table).2) !! outpoint1
     = Some (mkEntry coin1 0)
  /\ cacheCoins (base (Cache.GetCoin outpoint1 stack_over_table).2) !! outpoint1 = None
  /\ (exists c3 s,
        Cache.AddCoin outpoint1 coin2 false
          (Cache.Uncache outpoint1 (Stacked.GetCoin outpoint1 stack_over_table).2)
        = Returned tt c3
        /\ Cache.Flush c3 = Thrown FreshAppliedToExisting s)
  /\ (exists c3 c4,
        Cache.AddCoin outpoint1 coin2 false
          (Cache.Uncache outpoint1 (Cache.GetCoin outpoint1 stack_over_table).2)
        = Returned tt c3
        /\ Cache.Flush c3 = Returned true c4).
Proof.
  split.
  - rewrite <- (proj1 (stacked_read_agrees stack_over_table outpoint1)).
    vm_compute. reflexivity.
  - split; [vm_compute; reflexivity|]. split; [vm_compute; reflexivity|].
    split.
    + eexists _, _. split; [vm_compute; reflexivity|]. vm_compute. reflexivity.
    + eexists _, _. split; [vm_compute; reflexivity|]. vm_compute. reflexivity.
Defined.
